(** * Export pipeline of the conversation exporter: a shallow embedding

    The background worker of the extension (summarisation with model
    fallback and retry, text chunking, two-phase document assembly, export
    history) is embedded as executable Rocq definitions and the properties
    stated for it are checked against these definitions.

    Conventions.
    - A JavaScript string is the list of its UTF-16 code units; [length] is
      the JavaScript [.length].
    - A JavaScript number that the program uses as an index, a count or a
      limit is an integer of [Z] (or [nat] where the program obtains it from
      a [.length]).
    - [undefined] is [None]. *)

From Stdlib Require Import ZArith NArith List Lia.
From stdpp Require Import base list gmap strings pretty.

Open Scope Z_scope.

Abbreviation jsstring := (list N).

(** ** JavaScript string primitives *)

Module JS.

(** Code units of an ASCII literal. *)
Definition lit (s : string) : jsstring :=
  map Ascii.N_of_ascii (String.list_ascii_of_string s).

(** WhiteSpace and LineTerminator code points of ECMAScript: the characters
    removed by [String.prototype.trim]. *)
Definition is_whitespace (c : N) : bool :=
  ((9 <=? c) && (c <=? 13) || (c =? 32) || (c =? 160) || (c =? 5760)
   || (8192 <=? c) && (c <=? 8202) || (c =? 8232) || (c =? 8233)
   || (c =? 8239) || (c =? 8287) || (c =? 12288) || (c =? 65279))%N.

Fixpoint trimStart (s : jsstring) : jsstring :=
  match s with
  | c :: s' => if is_whitespace c then trimStart s' else s
  | [] => []
  end.

Definition trimEnd (s : jsstring) : jsstring := rev (trimStart (rev s)).

Definition trim (s : jsstring) : jsstring := trimEnd (trimStart s).

(** An index argument clamped into [0 .. len]. *)
Definition clamp (x : Z) (len : nat) : nat :=
  Z.to_nat (Z.min (Z.max x 0) (Z.of_nat len)).

(** [s.substring(start, end)]; [end_ = None] is the one-argument call. *)
Definition substring (s : jsstring) (start : Z) (end_ : option Z) : jsstring :=
  let len := length s in
  let a := clamp start len in
  let b := match end_ with Some e => clamp e len | None => len end in
  take (Nat.max a b - Nat.min a b) (drop (Nat.min a b) s).

Fixpoint startsWith (pat s : jsstring) : bool :=
  match pat, s with
  | [], _ => true
  | p :: pat', c :: s' => (p =? c)%N && startsWith pat' s'
  | _ :: _, [] => false
  end.

(** Largest index [i <= k] at which [pat] occurs in [s], or [-1]. *)
Fixpoint lastIndexOf_from (s pat : jsstring) (k : nat) : Z :=
  if startsWith pat (drop k s) then Z.of_nat k
  else match k with
       | O => -1
       | S k' => lastIndexOf_from s pat k'
       end.

(** [s.lastIndexOf(pat, position)]: the search starts at [position] clamped
    into [0 .. len - searchLen] and goes towards index 0. *)
Definition lastIndexOf (s pat : jsstring) (position : Z) : Z :=
  if (length s <? length pat)%nat then -1
  else lastIndexOf_from s pat
         (Z.to_nat (Z.min (Z.max position 0)
                          (Z.of_nat (length s) - Z.of_nat (length pat)))).

(** [s.includes(pat)]. *)
Fixpoint includes (s pat : jsstring) : bool :=
  startsWith pat s ||
  match s with
  | [] => false
  | _ :: s' => includes s' pat
  end.

(** Decimal rendering of a non-negative integer, as in a template literal. *)
Definition decimal (n : N) : jsstring :=
  lit (pretty n).

End JS.

(** ** The current background worker *)

Module Current.

(** *** The chunker *)

(** The loop of [chunkText]: [remaining] and [chunks] are the loop
    variables, [fuel] bounds the number of iterations ([None] when it runs
    out).  [2 * b > maxLength] is the comparison [b > maxLength * 0.5]. *)

Fixpoint chunkText_loop (fuel : nat) (remaining : jsstring) (maxLength : Z)
    (chunks : list jsstring) : option (list jsstring) :=
  match fuel with
  | O => None
  | S fuel' =>
    if (0 <? length remaining)%nat then
      if Z.of_nat (length remaining) <=? maxLength then
        Some (chunks ++ [remaining])
      else
        let sentenceBreak := JS.lastIndexOf remaining (JS.lit ". ") maxLength in
        let paragraphBreak := JS.lastIndexOf remaining [10; 10]%N maxLength in
        let breakPoint :=
          if maxLength <? 2 * paragraphBreak then paragraphBreak + 2
          else if maxLength <? 2 * sentenceBreak then sentenceBreak + 2
          else maxLength in
        chunkText_loop fuel'
          (JS.trim (JS.substring remaining breakPoint None)) maxLength
          (chunks ++ [JS.trim (JS.substring remaining 0 (Some breakPoint))])
    else Some chunks
  end.

(** [chunkText(text, maxLength)].  Every iteration that does not leave the
    loop variables unchanged shortens [remaining], so [length text + 1]
    iterations are enough whenever the loop ends at all. *)
Definition chunkText (text : jsstring) (maxLength : Z) : option (list jsstring) :=
  if Z.of_nat (length text) <=? maxLength then Some [text]
  else chunkText_loop (S (length text)) text maxLength [].


(** *** Data model *)

Record Turn := mkTurn {
  turnNumber : N;
  user : jsstring;
  assistant : jsstring }.

Record TurnSummary := mkTurnSummary {
  summaryTurnNumber : N;
  oneLine : option jsstring;
  paragraph : option jsstring;
  sourceUser : jsstring;
  sourceAssistant : jsstring }.

(** An entry of [exportHistory]. *)
Record ExportRecord := mkExportRecord {
  conversationUrl : jsstring;
  conversationTitle : jsstring;
  exportedAt : jsstring;
  turnCount : nat;
  notionPageId : jsstring;
  parentBlockId : jsstring }.

Inductive Status := starting | summarizing | creating | error.

Record ExportProgress := mkExportProgress {
  status : Status;
  current : nat;
  total : nat;
  message : jsstring }.

(** The argument of [handleFullExport]. *)
Record ExportData := mkExportData {
  turns : list Turn;
  chatTitle : jsstring;
  dataConversationUrl : jsstring;
  apiKey : jsstring;
  notionToken : jsstring;
  pageId : jsstring;
  exportMode : option jsstring;
  existingExportData : option ExportRecord }.

(** Blocks of the destination document, as sent in request bodies.  A
    toggle written without a [children] key has [children = []]. *)
Record RichText := mkRichText {
  content : option jsstring;
  link : option jsstring;
  bold : bool }.

#[warnings="-register-all"]
Inductive Block :=
| paragraphBlock (rich_text : list RichText)
| toggleBlock (rich_text : list RichText) (children : list Block).

Definition text (c : jsstring) : RichText := mkRichText (Some c) None false.

(** *** The outside world *)

(** What [fetch] gives: a rejected promise, or a response whose body
    [response.json()] either parses ([Some]) or rejects ([None]). *)
Inductive HttpReply (B : Type) :=
| NetworkFailure (failure : jsstring)
| Response (httpStatus : N) (statusText : jsstring) (body : option B).
Arguments NetworkFailure {B} failure.
Arguments Response {B} httpStatus statusText body.

(** [response.ok]. *)
Definition ok (httpStatus : N) : bool :=
  ((200 <=? httpStatus) && (httpStatus <=? 299))%N.

(** The [error] member of an error body: a string, or an object with its
    [message], its [type] and its [JSON.stringify] rendering. *)
Inductive ErrorField :=
| ErrorString (s : jsstring)
| ErrorObject (errorMessage errorType : option jsstring) (rendering : jsstring).

(** A body of the summarisation service: the members the worker reads.
    [completionText] is [data.content[0].text]; it is [None] when that path
    or the use of its value as a string raises a TypeError. *)
Record AnthropicJson := mkAnthropicJson {
  errorField : option ErrorField;
  messageField : option jsstring;
  completionText : option jsstring }.

Record NotionBlockInfo := mkNotionBlockInfo {
  blockId : jsstring;
  blockType : jsstring }.

(** A body of the document service: [message], [results] and the
    [JSON.stringify] rendering of the whole body. *)
Record NotionJson := mkNotionJson {
  notionMessage : option jsstring;
  results : option (list NotionBlockInfo);
  notionRendering : jsstring }.

(** Requests to [.../blocks/{id}/children]. *)
Inductive NotionRequest :=
| GetChildren (token id : jsstring)
| PatchChildren (token id : jsstring) (children : list Block).

(** What [JSON.parse] of the matched payload yields, read through its
    [oneLine] and [paragraph] members. *)
Record ParsedSummaries := mkParsedSummaries {
  parsedOneLine : option jsstring;
  parsedParagraph : option jsstring }.

(** Errors raised by the engine rather than by a [throw] of the worker. *)
Inductive EngineError :=
| InvalidJson          (* response.json() rejects *)
| MalformedCompletion  (* data.content[0].text cannot be read or used *)
| MissingResults       (* .results is read through undefined *)
| MissingSummary       (* summaries[i] is undefined *)
| MessageOfUndefined.  (* error.message with error undefined *)

(** Everything the worker does not decide itself.  The [n]-th request to a
    service gets the reply [anthropic n ...] resp. [notion n ...]. *)
Record Env := mkEnv {
  anthropic : nat -> jsstring -> jsstring -> jsstring -> HttpReply AnthropicJson;
  notion : nat -> NotionRequest -> HttpReply NotionJson;
  JSON_parse : jsstring -> option ParsedSummaries;
  engineMessage : EngineError -> jsstring;
  toISOString : jsstring;
  toLocaleString : jsstring }.

(** Observable actions, oldest first.  [EvSummarize] marks the entry of
    [handleSummarization]; [EvModelUnavailable] is the log line written when
    a candidate model is skipped. *)
Inductive Event :=
| EvSummarize (turnData : Turn)
| EvAnthropicRequest (model prompt : jsstring)
| EvModelUnavailable (model : jsstring)
| EvSleep (ms : Z)
| EvNotionRequest (request : NotionRequest)
| EvNotification (title notification : jsstring).

Record World := mkWorld {
  anthropicCalls : nat;
  notionCalls : nat;
  exportProgress : option ExportProgress;
  exportHistory : gmap jsstring ExportRecord;
  trace : list Event }.

(** *** Async functions as state-passing computations *)

Inductive Thrown :=
| JsError (errorText : jsstring)
| JsUndefined.

Inductive Outcome (A : Type) :=
| Returned (a : A)
| Threw (e : Thrown)
| Diverged.
Arguments Returned {A} a.
Arguments Threw {A} e.
Arguments Diverged {A}.

Definition M (A : Type) : Type := World -> Outcome A * World.

Definition ret {A} (a : A) : M A := fun w => (Returned a, w).

Definition bind {A B} (m : M A) (k : A -> M B) : M B :=
  fun w =>
    match m w with
    | (Returned a, w') => k a w'
    | (Threw e, w') => (Threw e, w')
    | (Diverged, w') => (Diverged, w')
    end.

Notation "x <- c1 ;; c2" := (bind c1 (fun x => c2))
  (at level 100, c1 at next level, right associativity).
Notation "c1 ;; c2" := (bind c1 (fun _ => c2))
  (at level 100, right associativity).

Definition throw {A} (e : Thrown) : M A := fun w => (Threw e, w).

Definition diverge {A} : M A := fun w => (Diverged, w).

(** [try { m } catch (e) { handler e }]. *)
Definition try_catch {A} (m : M A) (handler : Thrown -> M A) : M A :=
  fun w =>
    match m w with
    | (Threw e, w') => handler e w'
    | r => r
    end.

Definition emit (ev : Event) : M unit :=
  fun w => (Returned tt,
            mkWorld (anthropicCalls w) (notionCalls w) (exportProgress w)
                    (exportHistory w) (trace w ++ [ev])).

Definition sleep (ms : Z) : M unit := emit (EvSleep ms).

(** [fetch] to the summarisation endpoint. *)
Definition fetchAnthropic (env : Env) (model prompt key : jsstring)
    : M (HttpReply AnthropicJson) :=
  fun w => (Returned (anthropic env (anthropicCalls w) model prompt key),
            mkWorld (S (anthropicCalls w)) (notionCalls w) (exportProgress w)
                    (exportHistory w)
                    (trace w ++ [EvAnthropicRequest model prompt])).

(** [fetch] to the document service. *)
Definition fetchNotion (env : Env) (request : NotionRequest)
    : M (HttpReply NotionJson) :=
  fun w => (Returned (notion env (notionCalls w) request),
            mkWorld (anthropicCalls w) (S (notionCalls w)) (exportProgress w)
                    (exportHistory w) (trace w ++ [EvNotionRequest request])).

Definition updateProgress (st : Status) (cur tot : nat) (msg : jsstring)
    : M unit :=
  fun w => (Returned tt,
            mkWorld (anthropicCalls w) (notionCalls w)
                    (Some (mkExportProgress st cur tot msg))
                    (exportHistory w) (trace w)).

(** [chrome.storage.local.remove(['exportProgress'])]. *)
Definition removeProgress : M unit :=
  fun w => (Returned tt,
            mkWorld (anthropicCalls w) (notionCalls w) None
                    (exportHistory w) (trace w)).

Definition storeExportHistory (url : jsstring) (exportData : ExportRecord)
    : M unit :=
  fun w => (Returned tt,
            mkWorld (anthropicCalls w) (notionCalls w) (exportProgress w)
                    (<[url := exportData]> (exportHistory w)) (trace w)).

Definition getExportHistory (url : jsstring) : M (option ExportRecord) :=
  fun w => (Returned (exportHistory w !! url), w).

Definition notify (title msg : jsstring) : M unit :=
  emit (EvNotification title msg).

(** *** Retry with exponential backoff *)

(** The test of [retryWithBackoff] on [error.message]. *)
Definition shouldRetry (msg : jsstring) : bool :=
  JS.includes msg (JS.lit "429") || JS.includes msg (JS.lit "rate limit")
  || JS.includes msg (JS.lit "5") && JS.includes msg (JS.lit "Error").

(** The [for] loop of [retryWithBackoff]: [iterations] is
    [maxRetries - attempt], the number of iterations still allowed. *)
Fixpoint retry_loop {A} (env : Env) (fn : M A) (iterations attempt maxRetries : nat)
    (initialDelay : Z) (lastError : Thrown) : M A :=
  match iterations with
  | O => throw lastError
  | S iterations' =>
    try_catch fn (fun error =>
      match error with
      | JsUndefined => throw (JsError (engineMessage env MessageOfUndefined))
      | JsError msg =>
        if negb (shouldRetry msg)
           || (Z.of_nat attempt =? Z.of_nat maxRetries - 1)
        then throw error
        else
          sleep (initialDelay * 2 ^ Z.of_nat attempt) ;;
          retry_loop env fn iterations' (S attempt) maxRetries initialDelay error
      end)
  end.

Definition retryWithBackoff {A} (env : Env) (fn : M A) (maxRetries : nat)
    (initialDelay : Z) : M A :=
  retry_loop env fn maxRetries 0 maxRetries initialDelay JsUndefined.

(** *** The summariser *)

Definition modelsToTry : list jsstring :=
  [ JS.lit "claude-3-5-sonnet-20241022";
    JS.lit "claude-3-5-sonnet-20240620";
    JS.lit "claude-3-opus-20240229";
    JS.lit "claude-3-sonnet-20240229";
    JS.lit "claude-3-haiku-20240307" ].

Definition fullTurn (turnData : Turn) : jsstring :=
  JS.lit "User: " ++ user turnData ++ [10; 10]%N
  ++ JS.lit "Assistant: " ++ assistant turnData.

Definition quoted (s : string) : jsstring := [34%N] ++ JS.lit s ++ [34%N].

Definition prompt (turnData : Turn) : jsstring :=
  JS.lit "You are summarizing a conversation turn between a user and an AI assistant. Provide two summaries:"
  ++ [10; 10]%N
  ++ JS.lit "1. A one-sentence summary (max 150 characters)" ++ [10%N]
  ++ JS.lit "2. A one-paragraph summary (3-5 sentences)" ++ [10; 10]%N
  ++ JS.lit "Format your response as JSON:" ++ [10%N]
  ++ JS.lit "{" ++ [10%N]
  ++ JS.lit "  " ++ quoted "oneLine" ++ JS.lit ": " ++ quoted "..." ++ JS.lit "," ++ [10%N]
  ++ JS.lit "  " ++ quoted "paragraph" ++ JS.lit ": " ++ quoted "..." ++ [10%N]
  ++ JS.lit "}" ++ [10; 10]%N
  ++ JS.lit "Conversation turn to summarize:" ++ [10%N]
  ++ fullTurn turnData.

(** [a || b] on strings that may be undefined: the empty string and
    [undefined] are falsy. *)
Definition orElse (a : option jsstring) (b : jsstring) : jsstring :=
  match a with
  | Some (c :: s) => c :: s
  | _ => b
  end.

Definition truthy (a : option jsstring) : bool :=
  match a with
  | Some (_ :: _) => true
  | _ => false
  end.

(** The message computed for a non-success response. *)
Definition errorMessageOf (httpStatus : N) (statusText : jsstring)
    (body : option AnthropicJson) : jsstring :=
  let http := JS.lit "HTTP " ++ JS.decimal httpStatus in
  match body with
  | None => orElse (Some statusText) http
  | Some errorData =>
    match errorField errorData with
    | Some (ErrorString (c :: s)) => c :: s
    | Some (ErrorObject msg ty rendering) =>
      if truthy msg then orElse msg []
      else if truthy ty then
        orElse ty [] ++ JS.lit ": " ++ orElse msg (JS.lit "Unknown error")
      else rendering
    | _ =>
      if truthy (messageField errorData) then orElse (messageField errorData) []
      else http
    end
  end.

(** The regular expression [/\{[\s\S]*\}/]: from the first opening brace to
    the last closing brace after it. *)
Fixpoint dropUntil (c : N) (s : jsstring) : jsstring :=
  match s with
  | [] => []
  | x :: s' => if (x =? c)%N then s else dropUntil c s'
  end.

Definition jsonMatch (s : jsstring) : option jsstring :=
  match dropUntil 123 s with
  | [] => None
  | _ :: after =>
    match dropUntil 125 (rev after) with
    | [] => None
    | upto => Some (123%N :: rev upto)
    end
  end.

Definition is_terminator (c : N) : bool :=
  ((c =? 46) || (c =? 33) || (c =? 63))%N.

(** [s.split(/[.!?]+/)]; [cur] is the current piece, reversed. *)
Fixpoint split_sentences (s cur : jsstring) (inRun : bool) : list jsstring :=
  match s with
  | [] => [rev cur]
  | c :: s' =>
    if is_terminator c then
      if inRun then split_sentences s' [] true
      else rev cur :: split_sentences s' [] true
    else split_sentences s' (c :: cur) false
  end.

Definition nonblank (s : jsstring) : bool :=
  match JS.trim s with
  | [] => false
  | _ => true
  end.

(** The [catch (parseError)] fallback. *)
Definition fallbackSummaries (s : jsstring) : ParsedSummaries :=
  let sentences := List.filter nonblank (split_sentences s [] false) in
  mkParsedSummaries
    (Some (orElse (option_map JS.trim (head sentences))
                  (JS.substring s 0 (Some 150))))
    (Some (JS.trim s)).

Definition parseSummaries (env : Env) (s : jsstring) : ParsedSummaries :=
  match jsonMatch s with
  | Some payload =>
    match JSON_parse env payload with
    | Some summaries => summaries
    | None => fallbackSummaries s
    end
  | None => fallbackSummaries s
  end.

(** How one pass through the body of the model loop ends when it does not
    throw: [return] of the summary, or [continue] with [lastError] set. *)
Inductive Step :=
| Return (summary : TurnSummary)
| Continue (lastError : Thrown).

(** The body of the [try] in the model loop. *)
Definition tryModel (env : Env) (model : jsstring) (turnData : Turn)
    (key : jsstring) : M Step :=
  response <- fetchAnthropic env model (prompt turnData) key ;;
  match response with
  | NetworkFailure failure => throw (JsError failure)
  | Response httpStatus statusText body =>
    if negb (ok httpStatus) then
      let errorMessage := errorMessageOf httpStatus statusText body in
      if (httpStatus =? 404)%N then
        emit (EvModelUnavailable model) ;;
        ret (Continue (JsError (JS.lit "Model not found: " ++ model)))
      else if (httpStatus =? 429)%N then
        throw (JsError (JS.lit "Rate limit (429): " ++ errorMessage))
      else throw (JsError (JS.lit "API Error: " ++ errorMessage))
    else
      match body with
      | None => throw (JsError (engineMessage env InvalidJson))
      | Some data =>
        match completionText data with
        | None => throw (JsError (engineMessage env MalformedCompletion))
        | Some s =>
          let summaries := parseSummaries env s in
          ret (Return (mkTurnSummary (turnNumber turnData)
                         (parsedOneLine summaries) (parsedParagraph summaries)
                         (user turnData) (assistant turnData)))
        end
      end
  end.

(** The [for (const model of modelsToTry)] loop and the [throw] after it;
    [lastError = None] is [null]. *)
Fixpoint try_models (env : Env) (models : list jsstring)
    (lastError : option Thrown) (turnData : Turn) (key : jsstring)
    : M TurnSummary :=
  match models with
  | [] =>
    match lastError with
    | Some (JsError msg) => throw (JsError msg)
    | _ => throw (JsError (JS.lit "All models failed"))
    end
  | model :: rest =>
    step <- try_catch (tryModel env model turnData key)
                      (fun error => ret (Continue error)) ;;
    match step with
    | Return summary => ret summary
    | Continue caught => try_models env rest (Some caught) turnData key
    end
  end.

Definition handleSummarization (env : Env) (turnData : Turn) (key : jsstring)
    : M TurnSummary :=
  emit (EvSummarize turnData) ;;
  retryWithBackoff env (try_models env modelsToTry None turnData key) 3 1000.

(** *** The document builder *)

(** The 2-level toggle of one turn (phase 1). *)
Definition turnToggle (summary : TurnSummary) : Block :=
  toggleBlock [mkRichText (oneLine summary) None false]
    [ paragraphBlock [mkRichText (paragraph summary) None false];
      toggleBlock [text (JS.lit "Source Text")] [] ].

Definition boldLabel (s : string) : Block :=
  paragraphBlock [mkRichText (Some (JS.lit s)) None true].

Definition chunkBlock (chunk : jsstring) : Block :=
  paragraphBlock [text chunk].

Definition sourceTextChildren (userChunks assistantChunks : list jsstring)
    : list Block :=
  [boldLabel "User:"] ++ map chunkBlock userChunks
  ++ [boldLabel "Assistant:"] ++ map chunkBlock assistantChunks.

Definition chunked (s : jsstring) (limit : Z) : M (list jsstring) :=
  match chunkText s limit with
  | Some chunks => ret chunks
  | None => diverge
  end.

(** One pass through the body of a population loop (phase 2) for the turn
    toggle [turnBlock]; [summary = None] is an index outside [summaries]. *)
Definition populateSourceText (env : Env) (token : jsstring) (limit : Z)
    (turnBlock : NotionBlockInfo) (summary : option TurnSummary) : M unit :=
  response <- fetchNotion env (GetChildren token (blockId turnBlock)) ;;
  match response with
  | NetworkFailure failure => throw (JsError failure)
  | Response httpStatus _ body =>
    if negb (ok httpStatus) then ret tt
    else
      match body with
      | None => throw (JsError (engineMessage env InvalidJson))
      | Some turnChildren =>
        match results turnChildren with
        | None => throw (JsError (engineMessage env MissingResults))
        | Some children =>
          match children !! 1%nat with
          | Some sourceTextToggle =>
            if bool_decide (blockType sourceTextToggle = JS.lit "toggle") then
              match summary with
              | None => throw (JsError (engineMessage env MissingSummary))
              | Some summary =>
                userChunks <- chunked (sourceUser summary) limit ;;
                assistantChunks <- chunked (sourceAssistant summary) limit ;;
                written <- fetchNotion env
                  (PatchChildren token (blockId sourceTextToggle)
                     (sourceTextChildren userChunks assistantChunks)) ;;
                match written with
                | NetworkFailure failure => throw (JsError failure)
                | Response _ _ _ => sleep 200
                end
              end
            else ret tt
          | None => ret tt
          end
        end
      end
  end.

(** The population loop of [createNotionToggles]: [turnBlocks] are
    [masterChildren.results] from index 1; it stops at the shorter list. *)
Fixpoint populate_created (env : Env) (token : jsstring) (limit : Z)
    (turnBlocks : list NotionBlockInfo) (summaries : list TurnSummary)
    : M unit :=
  match turnBlocks, summaries with
  | turnBlock :: turnBlocks', summary :: summaries' =>
    populateSourceText env token limit turnBlock (Some summary) ;;
    populate_created env token limit turnBlocks' summaries'
  | _, _ => ret tt
  end.

(** The population loop of [appendNotionToggles], over [result1.results]
    from index [i]. *)
Fixpoint populate_appended (env : Env) (token : jsstring) (limit : Z)
    (turnBlocks : list NotionBlockInfo) (i : nat) (summaries : list TurnSummary)
    : M unit :=
  match turnBlocks with
  | turnBlock :: turnBlocks' =>
    populateSourceText env token limit turnBlock (summaries !! i) ;;
    populate_appended env token limit turnBlocks' (S i) summaries
  | [] => ret tt
  end.

Definition bullet : jsstring := [8226%N].

Definition masterToggle (env : Env) (summaries : list TurnSummary)
    (title url : jsstring) : Block :=
  toggleBlock [text (orElse (Some title) (JS.lit "Claude Conversation"))]
    (paragraphBlock
       [ text (JS.lit "Exported on " ++ toLocaleString env ++ JS.lit " "
               ++ bullet ++ JS.lit " "
               ++ JS.decimal (N.of_nat (length summaries))
               ++ JS.lit " turns " ++ bullet ++ JS.lit " ");
         mkRichText (Some (JS.lit "View original")) (Some url) false ]
     :: map turnToggle summaries).

Definition createNotionToggles (env : Env) (summaries : list TurnSummary)
    (page token title url : jsstring) (limit : Z) : M jsstring :=
  response1 <- fetchNotion env
    (PatchChildren token page [masterToggle env summaries title url]) ;;
  match response1 with
  | NetworkFailure failure => throw (JsError failure)
  | Response status1 statusText1 body1 =>
    if negb (ok status1) then
      throw (JsError (JS.lit "Notion API Error: "
                      ++ orElse (body1 ≫= notionMessage) statusText1))
    else
      match body1 with
      | None => throw (JsError (engineMessage env InvalidJson))
      | Some result1 =>
        match results result1 ≫= head with
        | None => throw (JsError (engineMessage env MissingResults))
        | Some master =>
          let masterBlockId := blockId master in
          response2 <- fetchNotion env (GetChildren token masterBlockId) ;;
          match response2 with
          | NetworkFailure failure => throw (JsError failure)
          | Response status2 statusText2 body2 =>
            if negb (ok status2) then
              let http := JS.lit "HTTP " ++ JS.decimal status2 in
              throw (JsError (JS.lit "Notion API Error: " ++
                match body2 with
                | Some errorData =>
                  orElse (notionMessage errorData) (notionRendering errorData)
                | None => orElse (Some statusText2) http
                end))
            else
              match body2 with
              | None => throw (JsError (engineMessage env InvalidJson))
              | Some masterChildren =>
                match results masterChildren with
                | None => throw (JsError (engineMessage env MissingResults))
                | Some children =>
                  populate_created env token limit (tail children) summaries ;;
                  ret masterBlockId
                end
              end
          end
        end
      end
  end.

Definition appendNotionToggles (env : Env) (summaries : list TurnSummary)
    (parent token : jsstring) (limit : Z) : M unit :=
  response1 <- fetchNotion env
    (PatchChildren token parent (map turnToggle summaries)) ;;
  match response1 with
  | NetworkFailure failure => throw (JsError failure)
  | Response status1 statusText1 body1 =>
    if negb (ok status1) then
      throw (JsError (JS.lit "Notion API Error: "
                      ++ orElse (body1 ≫= notionMessage) statusText1))
    else
      match body1 with
      | None => throw (JsError (engineMessage env InvalidJson))
      | Some result1 =>
        match results result1 with
        | None => throw (JsError (engineMessage env MissingResults))
        | Some turnBlocks =>
          populate_appended env token limit turnBlocks 0 summaries
        end
      end
  end.

(** *** The orchestrator *)

Definition NOTION_BLOCK_LIMIT : Z := 2000.

(** The summary substituted when [handleSummarization] throws. *)
Definition failedSummary (turn : Turn) : TurnSummary :=
  mkTurnSummary (turnNumber turn)
    (Some (JS.lit "Turn " ++ JS.decimal (turnNumber turn)
           ++ JS.lit " (summary failed)"))
    (Some (JS.lit "Summary generation failed for this turn."))
    (user turn) (assistant turn).

(** The progress message of the summarising loop. *)
Definition processingMessage (startIndex i totalTurns : nat) : jsstring :=
  JS.lit "Processing turn " ++ JS.decimal (N.of_nat (startIndex + i + 1))
  ++ JS.lit " of " ++ JS.decimal (N.of_nat totalTurns) ++ JS.lit "...".

(** The summarising loop of [handleFullExport] from index [i] on: [todo] is
    [turnsToProcess] from [i], [count] is [turnsToProcess.length] and
    [totalTurns] is [turns.length]. *)
Fixpoint summarize_loop (env : Env) (key : jsstring)
    (startIndex totalTurns count : nat) (todo : list Turn) (i : nat)
    (summaries : list TurnSummary) : M (list TurnSummary) :=
  match todo with
  | [] => ret summaries
  | turn :: todo' =>
    updateProgress summarizing i count
      (processingMessage startIndex i totalTurns) ;;
    summary <- try_catch (handleSummarization env turn key)
                         (fun _ => ret (failedSummary turn)) ;;
    (if (Z.of_nat i <? Z.of_nat count - 1) then sleep 800 else ret tt) ;;
    summarize_loop env key startIndex totalTurns count todo' (S i)
      (summaries ++ [summary])
  end.

(** [exportMode === 'update']. *)
Definition isUpdate (exportData : ExportData) : bool :=
  bool_decide (exportMode exportData = Some (JS.lit "update")).

(** [exportMode === 'update' && existingExportData]: the stored record when
    the run is an update of it. *)
Definition updateOf (exportData : ExportData) : option ExportRecord :=
  if isUpdate exportData then existingExportData exportData else None.

(** The [try] block of [handleFullExport]. *)
Definition handleFullExport_try (env : Env) (exportData : ExportData) : M unit :=
    (selected <-
       match updateOf exportData with
       | Some existing =>
         let startIndex := turnCount existing in
         let turnsToProcess := drop startIndex (turns exportData) in
         if (length turnsToProcess =? 0)%nat
         then throw (JsError (JS.lit "No new turns to export"))
         else ret (turnsToProcess, startIndex)
       | None => ret (turns exportData, 0%nat)
       end ;;
     let turnsToProcess := fst selected in
     let startIndex := snd selected in
     let count := length turnsToProcess in
     updateProgress starting 0 count (JS.lit "Starting export...") ;;
     summaries <- summarize_loop env (apiKey exportData) startIndex
                    (length (turns exportData)) count turnsToProcess 0 [] ;;
     updateProgress creating count count (JS.lit "Creating Notion blocks...") ;;
     parent <-
       match updateOf exportData with
       | Some existing =>
         appendNotionToggles env summaries (parentBlockId existing)
           (notionToken exportData) NOTION_BLOCK_LIMIT ;;
         ret (parentBlockId existing)
       | None =>
         createNotionToggles env summaries (pageId exportData)
           (notionToken exportData) (chatTitle exportData)
           (dataConversationUrl exportData) NOTION_BLOCK_LIMIT
       end ;;
     storeExportHistory (dataConversationUrl exportData)
       (mkExportRecord (dataConversationUrl exportData) (chatTitle exportData)
          (toISOString env) (length (turns exportData)) (pageId exportData)
          parent) ;;
     removeProgress ;;
     notify
       (if isUpdate exportData then JS.lit "Update Complete"
        else JS.lit "Export Complete")
       (if isUpdate exportData
        then JS.lit "Successfully added "
             ++ JS.decimal (N.of_nat count) ++ JS.lit " new turns to Notion!"
        else JS.lit "Successfully exported "
             ++ JS.decimal (N.of_nat (length (turns exportData)))
             ++ JS.lit " turns to Notion!")).

Definition handleFullExport (env : Env) (exportData : ExportData) : M unit :=
  try_catch (handleFullExport_try env exportData)
    (fun error =>
       match error with
       | JsUndefined => throw (JsError (engineMessage env MessageOfUndefined))
       | JsError msg =>
         updateProgress Current.error 0 0 msg ;;
         notify (JS.lit "Export Failed") msg ;;
         throw error
       end).

End Current.

(** ** The earlier background worker *)

Module Earlier.

Fixpoint chunkText_loop (fuel : nat) (remaining : jsstring) (maxLength : Z)
    (chunks : list jsstring) : option (list jsstring) :=
  match fuel with
  | O => None
  | S fuel' =>
    if (0 <? length remaining)%nat then
      if Z.of_nat (length remaining) <=? maxLength then
        Some (chunks ++ [remaining])
      else
        let sentenceBreak := JS.lastIndexOf remaining (JS.lit ". ") maxLength in
        let paragraphBreak := JS.lastIndexOf remaining [10; 10]%N maxLength in
        let breakPoint :=
          if maxLength <? 2 * paragraphBreak then paragraphBreak + 2
          else if maxLength <? 2 * sentenceBreak then sentenceBreak + 2
          else maxLength in
        chunkText_loop fuel'
          (JS.trim (JS.substring remaining breakPoint None)) maxLength
          (chunks ++ [JS.trim (JS.substring remaining 0 (Some breakPoint))])
    else Some chunks
  end.

Definition chunkText (text : jsstring) (maxLength : Z) : option (list jsstring) :=
  if Z.of_nat (length text) <=? maxLength then Some [text]
  else chunkText_loop (S (length text)) text maxLength [].

(** *** The summariser, before the retry wrapper *)

(** [errorData.error?.message || response.statusText], where [errorData] is
    [{error: {message: 'Unknown error'}}] when the body is not JSON. *)
Definition errorMessageOf (statusText : jsstring)
    (body : option Current.AnthropicJson) : jsstring :=
  match body with
  | None => JS.lit "Unknown error"
  | Some errorData =>
    match Current.errorField errorData with
    | Some (Current.ErrorObject msg _ _) => Current.orElse msg statusText
    | _ => statusText
    end
  end.

(** The body of the [try] in the model loop. *)
Definition tryModel (env : Current.Env) (model : jsstring)
    (turnData : Current.Turn) (key : jsstring) : Current.M Current.Step :=
  Current.bind
    (Current.fetchAnthropic env model (Current.prompt turnData) key)
    (fun response =>
       match response with
       | Current.NetworkFailure failure =>
         Current.throw (Current.JsError failure)
       | Current.Response httpStatus statusText body =>
         if negb (Current.ok httpStatus) then
           if (httpStatus =? 404)%N then
             Current.ret
               (Current.Continue
                  (Current.JsError (JS.lit "Model not found: " ++ model)))
           else
             Current.throw
               (Current.JsError
                  (JS.lit "API Error (" ++ JS.decimal httpStatus ++ JS.lit "): "
                   ++ errorMessageOf statusText body))
         else
           match body with
           | None =>
             Current.throw
               (Current.JsError (Current.engineMessage env Current.InvalidJson))
           | Some data =>
             match Current.completionText data with
             | None =>
               Current.throw
                 (Current.JsError
                    (Current.engineMessage env Current.MalformedCompletion))
             | Some s =>
               let summaries := Current.parseSummaries env s in
               Current.ret
                 (Current.Return
                    (Current.mkTurnSummary (Current.turnNumber turnData)
                       (Current.parsedOneLine summaries)
                       (Current.parsedParagraph summaries)
                       (Current.user turnData) (Current.assistant turnData)))
             end
           end
       end).

(** The [for (const model of modelsToTry)] loop and the [throw] after it. *)
Fixpoint try_models (env : Current.Env) (models : list jsstring)
    (lastError : option Current.Thrown) (turnData : Current.Turn)
    (key : jsstring) : Current.M Current.TurnSummary :=
  match models with
  | [] =>
    match lastError with
    | Some (Current.JsError msg) => Current.throw (Current.JsError msg)
    | _ => Current.throw (Current.JsError (JS.lit "All models failed"))
    end
  | model :: rest =>
    Current.bind
      (Current.try_catch (tryModel env model turnData key)
         (fun error => Current.ret (Current.Continue error)))
      (fun step =>
         match step with
         | Current.Return summary => Current.ret summary
         | Current.Continue caught =>
           try_models env rest (Some caught) turnData key
         end)
  end.

Definition handleSummarization (env : Current.Env) (turnData : Current.Turn)
    (key : jsstring) : Current.M Current.TurnSummary :=
  Current.bind (Current.emit (Current.EvSummarize turnData))
    (fun _ => try_models env Current.modelsToTry None turnData key).

End Earlier.

(** ** The message listener of the current worker *)

Module Listener.

Import Current.

(** The messages the listener acts on, by [request.action]; [Other] is any
    other message. *)
Inductive Request :=
| SummarizeTurn (data : Turn) (key : jsstring)
| StartExport (data : ExportData)
| GetProgress
| GetExportHistory (conversationUrl : jsstring)
| Other.

(** The argument of [sendResponse]. *)
Inductive Reply :=
| Summarized (data : TurnSummary)
| Exported
| History (data : option ExportRecord)
| Progress (progress : option ExportProgress)
| Failure (error : jsstring).

(** [promise.then(a => sendResponse(reply a)).catch(error =>
    sendResponse({success: false, error: error.message}))]; the result is
    what was sent, [None] when nothing was. *)
Definition respond {A} (promise : M A) (reply : A -> Reply) : M (option Reply) :=
  try_catch (a <- promise ;; ret (Some (reply a)))
    (fun error =>
       match error with
       | JsError msg => ret (Some (Failure msg))
       | JsUndefined => ret None
       end).

Definition onMessage (env : Env) (request : Request) : M (option Reply) :=
  match request with
  | SummarizeTurn data key => respond (handleSummarization env data key) Summarized
  | StartExport data => respond (handleFullExport env data) (fun _ => Exported)
  | GetProgress => fun w => (Returned (Some (Progress (exportProgress w))), w)
  | GetExportHistory url => respond (getExportHistory url) History
  | Other => ret None
  end.

End Listener.

(** ** The content script *)

Module Content.

Import Current.

(** An extracted message. *)
Record Message := mkMessage {
  role : jsstring;
  content : jsstring;
  index : nat }.

(** The variables of [groupTurns]. *)
Record Grouping := mkGrouping {
  pairs : list Turn;
  currentPair : Turn;
  nextNumber : N }.

(** [currentPair.user || currentPair.assistant]. *)
Definition hasContent (pair : Turn) : bool :=
  match user pair, assistant pair with
  | [], [] => false
  | _, _ => true
  end.

(** The callback of [turns.forEach]. *)
Definition visit (g : Grouping) (turn : Message) : Grouping :=
  if bool_decide (role turn = JS.lit "user") then
    mkGrouping
      (if hasContent (currentPair g) then pairs g ++ [currentPair g] else pairs g)
      (mkTurn (nextNumber g) (content turn) [])
      (nextNumber g + 1)
  else if bool_decide (role turn = JS.lit "assistant") then
    mkGrouping (pairs g)
      (mkTurn (turnNumber (currentPair g)) (user (currentPair g)) (content turn))
      (nextNumber g)
  else g.

(** The [if] after the loop. *)
Definition finish (g : Grouping) : list Turn :=
  if hasContent (currentPair g) then pairs g ++ [currentPair g] else pairs g.

Definition groupTurns (turns : list Message) : list Turn :=
  finish (fold_left visit turns (mkGrouping [] (mkTurn 0 [] []) 1)).

End Content.

(** ** The popup *)

Module Popup.

(** [[a-f0-9]] under the flag [i]. *)
Definition isHex (c : N) : bool :=
  ((48 <=? c) && (c <=? 57) || (97 <=? c) && (c <=? 102)
   || (65 <=? c) && (c <=? 70))%N.

(** [[a-f0-9]{n}] at the start of [s]: the matched characters and the rest. *)
Fixpoint hexRun (n : nat) (s : jsstring) : option (jsstring * jsstring) :=
  match n with
  | O => Some ([], s)
  | S n' =>
    match s with
    | c :: s' =>
      if isHex c then
        match hexRun n' s' with
        | Some (run, rest) => Some (c :: run, rest)
        | None => None
        end
      else None
    | [] => None
    end
  end.

(** A hyphen at the start of [s]. *)
Definition hyphen (s : jsstring) : option jsstring :=
  match s with
  | c :: s' => if (c =? 45)%N then Some s' else None
  | [] => None
  end.

(** The second alternative: groups of 8, 4, 4, 4 and 12 hexadecimal digits
    separated by hyphens. *)
Definition hyphenated (s : jsstring) : option jsstring :=
  '(g1, s1) ← hexRun 8 s; s1' ← hyphen s1;
  '(g2, s2) ← hexRun 4 s1'; s2' ← hyphen s2;
  '(g3, s3) ← hexRun 4 s2'; s3' ← hyphen s3;
  '(g4, s4) ← hexRun 4 s3'; s4' ← hyphen s4;
  '(g5, _) ← hexRun 12 s4';
  Some (g1 ++ [45%N] ++ g2 ++ [45%N] ++ g3 ++ [45%N] ++ g4 ++ [45%N] ++ g5).

(** The regular expression at the start of [s]: the first alternative, 32
    hexadecimal digits, is tried before the second. *)
Definition matchHere (s : jsstring) : option jsstring :=
  match hexRun 32 s with
  | Some (run, _) => Some run
  | None => hyphenated s
  end.

(** [url.match(...)]: the leftmost match. *)
Fixpoint firstMatch (s : jsstring) : option jsstring :=
  match matchHere s with
  | Some m => Some m
  | None =>
    match s with
    | [] => None
    | _ :: s' => firstMatch s'
    end
  end.

(** [extractPageId(url)]: the match with its hyphens removed, or [null]. *)
Definition extractPageId (url : jsstring) : option jsstring :=
  match firstMatch url with
  | Some m => Some (List.filter (fun c => negb (c =? 45)%N) m)
  | None => None
  end.

(** *** The title of a search result *)

(** An item of a title: [plain_text]. *)
Record TitleItem := mkTitleItem {
  plain_text : option jsstring }.

(** A property of a page: [type] and [title]. *)
Record Property := mkProperty {
  propType : option jsstring;
  propTitle : option (list TitleItem) }.

(** A page of the search results: [properties], its members in the order
    of [Object.values]; [None] is a page without [properties]. *)
Record Page := mkPage {
  properties : option (list (jsstring * Property)) }.

(** [properties?.[key]]. *)
Definition member (key : jsstring) (page : Page) : option Property :=
  props ← properties page;
  snd <$> List.find (fun entry => bool_decide (fst entry = key)) props.

(** [prop.title?.[0]?.plain_text] when it is truthy. *)
Definition firstText (prop : Property) : option jsstring :=
  items ← propTitle prop;
  item ← head items;
  text ← plain_text item;
  if bool_decide (text = []) then None else Some text.

(** The [for] loop over [Object.values(page.properties || {})]. *)
Fixpoint anyTitle (props : list (jsstring * Property)) : option jsstring :=
  match props with
  | [] => None
  | (_, prop) :: props' =>
    if bool_decide (propType prop = Some (JS.lit "title")) then
      match firstText prop with
      | Some text => Some text
      | None => anyTitle props'
      end
    else anyTitle props'
  end.

Definition getPageTitle (page : Page) : jsstring :=
  match member (JS.lit "title") page ≫= firstText with
  | Some text => text
  | None =>
    match member (JS.lit "Name") page ≫= firstText with
    | Some text => text
    | None =>
      match anyTitle (default [] (properties page)) with
      | Some text => text
      | None => JS.lit "Untitled"
      end
    end
  end.

End Popup.

(** * Vocabulary of the properties *)

Import Current.

(** Strings made of whitespace only, and strings without whitespace. *)
Definition all_ws (s : jsstring) : Prop :=
  Forall (fun c => JS.is_whitespace c = true) s.

Definition no_ws (s : jsstring) : Prop :=
  Forall (fun c => JS.is_whitespace c = false) s.

(** The characters that [trim] never removes. *)
Definition visible (s : jsstring) : jsstring :=
  List.filter (fun c => negb (JS.is_whitespace c)) s.

(** [stitched t chunks]: [t] is the chunks in their order, with a run of
    whitespace (possibly empty) before, between and after them. *)
Inductive stitched : jsstring -> list jsstring -> Prop :=
| stitched_end w : all_ws w -> stitched w []
| stitched_chunk w c rest chunks :
    all_ws w -> stitched rest chunks -> stitched (w ++ c ++ rest) (c :: chunks).

(** The value of [breakPoint] in an iteration of the chunking loop. *)
Definition cutPoint (remaining : jsstring) (maxLength : Z) : Z :=
  let sentenceBreak := JS.lastIndexOf remaining (JS.lit ". ") maxLength in
  let paragraphBreak := JS.lastIndexOf remaining [10; 10]%N maxLength in
  if maxLength <? 2 * paragraphBreak then paragraphBreak + 2
  else if maxLength <? 2 * sentenceBreak then sentenceBreak + 2
  else maxLength.

(** What a trace shows: the turns handed to [handleSummarization], the
    models requested from the summarisation service, the models skipped as
    unavailable, the requests to the document service, the delays. *)
Definition summarized (tr : list Event) : list Turn :=
  omap (fun ev => match ev with EvSummarize t => Some t | _ => None end) tr.

Definition requestedModels (tr : list Event) : list jsstring :=
  omap (fun ev => match ev with EvAnthropicRequest m _ => Some m | _ => None end) tr.

Definition skippedModels (tr : list Event) : list jsstring :=
  omap (fun ev => match ev with EvModelUnavailable m => Some m | _ => None end) tr.

Definition notionRequests (tr : list Event) : list NotionRequest :=
  omap (fun ev => match ev with EvNotionRequest r => Some r | _ => None end) tr.

Definition delays (tr : list Event) : list Z :=
  omap (fun ev => match ev with EvSleep ms => Some ms | _ => None end) tr.

(** A computation that ends, and ends with a value or an [Error]. *)
Definition decent {A} (m : M A) : Prop :=
  forall w, match fst (m w) with
            | Returned _ | Threw (JsError _) => True
            | Threw JsUndefined | Diverged => False
            end.

(** A computation whose values all satisfy [P]. *)
Definition returns {A} (P : A -> Prop) (m : M A) : Prop :=
  forall w a w', m w = (Returned a, w') -> P a.

(** A computation that relates every world to the world it leaves. *)
Definition obeys {A} (R : World -> World -> Prop) (m : M A) : Prop :=
  forall w, R w (snd (m w)).

(** [keeps obs]: the observation [obs] of the world is left as it was. *)
Definition keeps {X} (obs : World -> X) (w w' : World) : Prop :=
  obs w' = obs w.

(** The record that a run over [data] stores for the container [parent]. *)
Definition recordOf (env : Env) (data : ExportData) (parent : jsstring)
    : ExportRecord :=
  mkExportRecord (dataConversationUrl data) (chatTitle data) (toISOString env)
    (length (turns data)) (pageId data) parent.

(** [settled env data m]: [m] ends; when it ends with a value the record of
    the run has been stored and the progress cleared; when it ends with an
    [Error] the export history is as it was. *)
Definition settled {A} (env : Env) (data : ExportData) (m : M A) : Prop :=
  forall w,
    match m w with
    | (Returned _, w') =>
      (exists parent,
         exportHistory w' =
         <[dataConversationUrl data := recordOf env data parent]> (exportHistory w))
      /\ exportProgress w' = None
    | (Threw (JsError _), w') => exportHistory w' = exportHistory w
    | _ => False
    end.

(** A summary that carries the number and the texts of a turn. *)
Definition summaryOf (t : Turn) (s : TurnSummary) : Prop :=
  summaryTurnNumber s = turnNumber t /\ sourceUser s = user t
  /\ sourceAssistant s = assistant t.

Definition stepCarries (t : Turn) (step : Step) : Prop :=
  match step with
  | Return s => summaryOf t s
  | Continue _ => True
  end.

(** A request of the population phase for the summaries [summaries]: a
    read of children, or a write of the source-text blocks of one of these
    summaries, chunked to [limit]. *)
Definition populationOf (token : jsstring) (limit : Z)
    (summaries : list TurnSummary) (request : NotionRequest) : Prop :=
  match request with
  | GetChildren tok _ => tok = token
  | PatchChildren tok _ blocks =>
    tok = token
    /\ exists s userChunks assistantChunks,
         s ∈ summaries
         /\ chunkText (sourceUser s) limit = Some userChunks
         /\ chunkText (sourceAssistant s) limit = Some assistantChunks
         /\ blocks = sourceTextChildren userChunks assistantChunks
  end.

(** The list of requests to the document service grows by requests that
    all satisfy [P]. *)
Definition requestsGrow (P : NotionRequest -> Prop) (w w' : World) : Prop :=
  exists new,
    notionRequests (trace w') = notionRequests (trace w) ++ new /\ Forall P new.


(** * Sample inputs *)

Module Sample.

Definition world : World := mkWorld 0 0 None ∅ [].

Definition turn (n : N) : Turn := mkTurn n (JS.lit "question") (JS.lit "answer").

(** 2000 letters, then a sentence break at index 2000. *)
Definition sentenceAtLimit : jsstring :=
  repeat 97%N 2000 ++ JS.lit ". " ++ repeat 98%N 10.

(** 4500 characters with sentence breaks at indices 1100 and 2202. *)
Definition twoSentenceBreaks : jsstring :=
  repeat 97%N 1100 ++ JS.lit ". " ++ repeat 97%N 1100 ++ JS.lit ". "
  ++ repeat 97%N 2296.

(** 4500 letters. *)
Definition letters4500 : jsstring := repeat 97%N 4500.

Definition toggleInfo (id : string) : NotionBlockInfo :=
  mkNotionBlockInfo (JS.lit id) (JS.lit "toggle").

(** A document service that accepts every request and lists two toggles. *)
Definition notionOk (n : nat) (request : NotionRequest) : HttpReply NotionJson :=
  Response 200 (JS.lit "OK")
    (Some (mkNotionJson None (Some [toggleInfo "first"; toggleInfo "second"]) [])).

Definition engine (e : EngineError) : jsstring := JS.lit "TypeError".

Definition completion (s : string) : HttpReply AnthropicJson :=
  Response 200 (JS.lit "OK") (Some (mkAnthropicJson None None (Some (JS.lit s)))).

Definition notFound : HttpReply AnthropicJson :=
  Response 404 (JS.lit "Not Found") None.

(** No candidate model is available. *)
Definition envUnavailable : Env :=
  mkEnv (fun _ _ _ _ => notFound) notionOk (fun _ => None) engine
        (JS.lit "2024-01-01T00:00:00.000Z") (JS.lit "1/1/2024, 12:00:00 AM").

(** The first two requests are answered 404, the later ones with a
    completion. *)
Definition envThirdModel : Env :=
  mkEnv (fun n _ _ _ =>
           match n with
           | O | S O => notFound
           | _ => completion "A greeting. The user greets the assistant."
           end)
        notionOk (fun _ => None) engine
        (JS.lit "2024-01-01T00:00:00.000Z") (JS.lit "1/1/2024, 12:00:00 AM").

Definition record (count : nat) : ExportRecord :=
  mkExportRecord (JS.lit "https://claude.ai/chat/1") (JS.lit "A chat")
    (JS.lit "2023-12-31T00:00:00.000Z") count (JS.lit "page") (JS.lit "master").

(** An update of a three-turn transcript of which [count] turns are
    recorded as exported. *)
Definition update (count : nat) : ExportData :=
  mkExportData [turn 1; turn 2; turn 3] (JS.lit "A chat")
    (JS.lit "https://claude.ai/chat/1") (JS.lit "key") (JS.lit "token")
    (JS.lit "page") (Some (JS.lit "update")) (Some (record count)).

(** A function that always fails with a rate-limit error, and one that
    always fails with an error that is not retryable. *)
Definition busy : M unit :=
  emit (EvModelUnavailable []) ;; throw (JsError (JS.lit "Rate limit (429): busy")).


(** A summary whose assistant text is 4500 letters. *)
Definition longSummary : TurnSummary :=
  mkTurnSummary 2 (Some (JS.lit "A long answer")) (Some (JS.lit "It is long."))
    (JS.lit "question") letters4500.

End Sample.

(** * Vocabulary of the further properties *)

(** A string that does not start with whitespace. *)
Definition starts_visible (s : jsstring) : Prop :=
  match s with
  | [] => True
  | c :: _ => JS.is_whitespace c = false
  end.

(** The user messages of a transcript. *)
Definition userMessages (ts : list Content.Message) : list Content.Message :=
  List.filter (fun m => bool_decide (Content.role m = JS.lit "user")) ts.

(** A user message with some text followed by an assistant message. *)
Definition isExchange (qa : Content.Message * Content.Message) : Prop :=
  Content.role (fst qa) = JS.lit "user"
  /\ Content.role (snd qa) = JS.lit "assistant"
  /\ Content.content (fst qa) <> [].

(** The messages of a list of exchanges, in order. *)
Definition transcript (qas : list (Content.Message * Content.Message))
    : list Content.Message :=
  flat_map (fun qa => [fst qa; snd qa]) qas.

(** The turns numbered from [from] that a list of exchanges stands for. *)
Fixpoint numbered (from : N) (qas : list (Content.Message * Content.Message))
    : list Turn :=
  match qas with
  | [] => []
  | qa :: qas' =>
    mkTurn from (Content.content (fst qa)) (Content.content (snd qa))
    :: numbered (from + 1) qas'
  end.

(** The error that the model loop remembers is a rate-limit error. *)
Definition rateLimitError (e : option Thrown) : Prop :=
  exists msg, e = Some (JsError (JS.lit "Rate limit (429): " ++ msg)).

(** The same export data as a full export. *)
Definition asFullExport (data : ExportData) : ExportData :=
  mkExportData (turns data) (chatTitle data) (dataConversationUrl data)
    (apiKey data) (notionToken data) (pageId data) None (existingExportData data).

(** The same export data as an update of the record [existing]. *)
Definition asUpdateOf (data : ExportData) (existing : ExportRecord) : ExportData :=
  mkExportData (turns data) (chatTitle data) (dataConversationUrl data)
    (apiKey data) (notionToken data) (pageId data) (Some (JS.lit "update"))
    (Some existing).

(** The text that leads the title of the property [prop]. *)
Definition leads (prop : Popup.Property) (text : jsstring) : Prop :=
  exists item rest,
    Popup.propTitle prop = Some (item :: rest)
    /\ Popup.plain_text item = Some text.

(** * Further sample inputs *)

Module Scenario.

(** A summarisation service that is always rate limited, and one that is
    down. *)
Definition envBusy : Env :=
  mkEnv (fun _ _ _ _ => Response 429 (JS.lit "Too Many Requests") None)
        Sample.notionOk (fun _ => None) Sample.engine
        (JS.lit "2024-01-01T00:00:00.000Z") (JS.lit "1/1/2024, 12:00:00 AM").

Definition envDown : Env :=
  mkEnv (fun _ _ _ _ => Response 500 [] None)
        Sample.notionOk (fun _ => None) Sample.engine
        (JS.lit "2024-01-01T00:00:00.000Z") (JS.lit "1/1/2024, 12:00:00 AM").

(** A document service that accepts the master toggle, lists its children
    and refuses every later request. *)
Definition notionRefusing (n : nat) (request : NotionRequest)
    : HttpReply NotionJson :=
  match n with
  | O =>
    Response 200 (JS.lit "OK")
      (Some (mkNotionJson None (Some [Sample.toggleInfo "master"]) []))
  | S O =>
    Response 200 (JS.lit "OK")
      (Some (mkNotionJson None
               (Some [mkNotionBlockInfo (JS.lit "head") (JS.lit "paragraph");
                      Sample.toggleInfo "first"; Sample.toggleInfo "second"])
               []))
  | _ => Response 429 (JS.lit "Too Many Requests") None
  end.

Definition envRefusing : Env :=
  mkEnv (fun _ _ _ _ => Sample.notFound) notionRefusing (fun _ => None)
        Sample.engine
        (JS.lit "2024-01-01T00:00:00.000Z") (JS.lit "1/1/2024, 12:00:00 AM").

(** A full export of a two-turn transcript, and the same request in update
    mode without a stored record. *)
Definition fullExport : ExportData :=
  mkExportData [Sample.turn 1; Sample.turn 2] (JS.lit "A chat")
    (JS.lit "https://claude.ai/chat/1") (JS.lit "key") (JS.lit "token")
    (JS.lit "page") None None.

Definition orphanUpdate : ExportData :=
  mkExportData [Sample.turn 1; Sample.turn 2] (JS.lit "A chat")
    (JS.lit "https://claude.ai/chat/1") (JS.lit "key") (JS.lit "token")
    (JS.lit "page") (Some (JS.lit "update")) None.

Definition summary (n : N) : TurnSummary :=
  mkTurnSummary n (Some (JS.lit "A line")) (Some (JS.lit "A paragraph."))
    (JS.lit "question") (JS.lit "answer").

(** A page of a data base whose title property is called "Topic". *)
Definition page : Popup.Page :=
  Popup.mkPage
    (Some [ (JS.lit "Status", Popup.mkProperty (Some (JS.lit "select")) None);
            (JS.lit "Topic",
             Popup.mkProperty (Some (JS.lit "title"))
               (Some [Popup.mkTitleItem (Some (JS.lit "Notes"))])) ]).

End Scenario.

(** * Properties *)

(** ** String primitives *)

Section StringFacts.

Lemma visible_app s t : visible (s ++ t) = visible s ++ visible t.
Proof. unfold visible. apply List.filter_app. Qed.

Lemma visible_all_ws s : all_ws s -> visible s = [].
Proof.
  induction 1 as [|c s Hc _ IH]; simpl; [reflexivity|].
  rewrite Hc. exact IH.
Qed.

Lemma trimStart_split s :
  exists w, all_ws w /\ s = w ++ JS.trimStart s.
Proof.
  induction s as [|c s [w [Hw Hs]]]; simpl.
  - exists []. split; [constructor | reflexivity].
  - destruct (JS.is_whitespace c) eqn:Hc.
    + exists (c :: w). split; [constructor; assumption|].
      simpl. f_equal. exact Hs.
    + exists []. split; [constructor | reflexivity].
Qed.

Lemma all_ws_rev w : all_ws w -> all_ws (rev w).
Proof. unfold all_ws. intros H. now apply Forall_rev. Qed.

Lemma trimEnd_split s :
  exists w, all_ws w /\ s = JS.trimEnd s ++ w.
Proof.
  destruct (trimStart_split (rev s)) as [w [Hw Hs]].
  exists (rev w). split; [now apply all_ws_rev|].
  unfold JS.trimEnd. rewrite <- rev_app_distr, <- Hs. symmetry. apply rev_involutive.
Qed.

Lemma trim_split s :
  exists w1 w2, all_ws w1 /\ all_ws w2 /\ s = w1 ++ JS.trim s ++ w2.
Proof.
  destruct (trimStart_split s) as [w1 [H1 Hs]].
  destruct (trimEnd_split (JS.trimStart s)) as [w2 [H2 Ht]].
  exists w1, w2. repeat split; try assumption.
  unfold JS.trim. rewrite <- Ht. exact Hs.
Qed.

Lemma trim_length s : (length (JS.trim s) <= length s)%nat.
Proof.
  destruct (trim_split s) as [w1 [w2 [_ [_ Hs]]]].
  rewrite Hs at 2. rewrite !length_app. lia.
Qed.

Lemma trimStart_no_ws s : no_ws s -> JS.trimStart s = s.
Proof. destruct 1 as [|c s Hc _]; simpl; [reflexivity|]. now rewrite Hc. Qed.

Lemma no_ws_rev s : no_ws s -> no_ws (rev s).
Proof. unfold no_ws. intros H. now apply Forall_rev. Qed.

Lemma trim_no_ws s : no_ws s -> JS.trim s = s.
Proof.
  intros H. unfold JS.trim, JS.trimEnd. rewrite (trimStart_no_ws s H).
  rewrite (trimStart_no_ws (rev s) (no_ws_rev s H)). apply rev_involutive.
Qed.

(** [substring(0, b)] and [substring(b)] cut the string in two. *)
Lemma substring_prefix s b :
  JS.substring s 0 (Some b) = take (JS.clamp b (length s)) s.
Proof.
  unfold JS.substring. replace (JS.clamp 0 (length s)) with 0%nat by (unfold JS.clamp; lia).
  rewrite Nat.min_0_l, Nat.max_0_l, Nat.sub_0_r. reflexivity.
Qed.

Lemma clamp_le x len : (JS.clamp x len <= len)%nat.
Proof. unfold JS.clamp. lia. Qed.

Lemma substring_suffix s b :
  JS.substring s b None = drop (JS.clamp b (length s)) s.
Proof.
  unfold JS.substring. pose proof (clamp_le b (length s)) as Hle.
  rewrite Nat.min_l, Nat.max_r by lia.
  apply take_ge. rewrite length_drop. lia.
Qed.

Lemma substring_cut s b :
  JS.substring s 0 (Some b) ++ JS.substring s b None = s.
Proof. rewrite substring_prefix, substring_suffix. apply take_drop. Qed.

(** A pattern holding a whitespace character does not occur in a string
    without whitespace. *)
Lemma startsWith_sentence_no_ws s : no_ws s -> JS.startsWith (JS.lit ". ") s = false.
Proof.
  intros H. destruct H as [|a s Ha H]; [reflexivity|].
  destruct H as [|b s Hb H].
  - cbn. apply andb_false_r.
  - change (((46 =? a)%N && ((32 =? b)%N && true)) = false).
    destruct (N.eqb_spec 32 b) as [<-|Hne].
    + discriminate Hb.
    + apply andb_false_r.
Qed.

Lemma startsWith_paragraph_no_ws s : no_ws s -> JS.startsWith [10; 10]%N s = false.
Proof.
  intros H. destruct H as [|a s Ha H]; [reflexivity|].
  change (((10 =? a)%N && JS.startsWith [10%N] s) = false).
  destruct (N.eqb_spec 10 a) as [<-|Hne]; [discriminate Ha | reflexivity].
Qed.

Lemma no_ws_drop n s : no_ws s -> no_ws (drop n s).
Proof. apply Forall_drop. Qed.

Lemma no_ws_take n s : no_ws s -> no_ws (take n s).
Proof. apply Forall_take. Qed.

Lemma lastIndexOf_no_ws s pat pos :
  (forall t, no_ws t -> JS.startsWith pat t = false) ->
  no_ws s -> JS.lastIndexOf s pat pos = -1.
Proof.
  intros Hpat Hs. unfold JS.lastIndexOf.
  destruct (length s <? length pat)%nat; [reflexivity|].
  generalize (Z.to_nat (Z.min (Z.max pos 0) (Z.of_nat (length s) - Z.of_nat (length pat)))).
  intros k. induction k as [|k IH]; simpl.
  - rewrite drop_0, (Hpat s Hs). reflexivity.
  - rewrite (Hpat _ (no_ws_drop (S k) s Hs)). exact IH.
Qed.

End StringFacts.

(** ** The chunker *)

Section Chunker.

Lemma chunkText_loop_cut fuel r m acc :
  (0 < length r)%nat -> m < Z.of_nat (length r) ->
  chunkText_loop (S fuel) r m acc =
  chunkText_loop fuel (JS.trim (JS.substring r (cutPoint r m) None)) m
    (acc ++ [JS.trim (JS.substring r 0 (Some (cutPoint r m)))]).
Proof.
  intros Hpos Hlong. cbn [chunkText_loop].
  destruct (Nat.ltb_spec 0 (length r)) as [_|]; [|lia].
  destruct (Z.leb_spec (Z.of_nat (length r)) m) as [|_]; [lia|].
  reflexivity.
Qed.

Lemma chunkText_loop_fits fuel r m acc :
  (0 < length r)%nat -> Z.of_nat (length r) <= m ->
  chunkText_loop (S fuel) r m acc = Some (acc ++ [r]).
Proof.
  intros Hpos Hfit. cbn [chunkText_loop].
  destruct (Nat.ltb_spec 0 (length r)) as [_|]; [|lia].
  destruct (Z.leb_spec (Z.of_nat (length r)) m) as [_|]; [reflexivity|lia].
Qed.

Lemma chunkText_loop_empty fuel m acc :
  chunkText_loop (S fuel) [] m acc = Some acc.
Proof. reflexivity. Qed.

Lemma cutPoint_pos r m : 1 <= m -> 1 <= cutPoint r m.
Proof.
  intros Hm. unfold cutPoint.
  destruct (Z.ltb_spec m (2 * JS.lastIndexOf r [10; 10]%N m)); [lia|].
  destruct (Z.ltb_spec m (2 * JS.lastIndexOf r (JS.lit ". ") m)); lia.
Qed.

(** Each cut consumes at least one character. *)
Lemma cut_shortens r m :
  1 <= m -> (0 < length r)%nat ->
  (length (JS.trim (JS.substring r (cutPoint r m) None)) < length r)%nat.
Proof.
  intros Hm Hpos. pose proof (cutPoint_pos r m Hm) as Hcut.
  eapply Nat.le_lt_trans; [apply trim_length|].
  rewrite substring_suffix, length_drop. unfold JS.clamp. lia.
Qed.

(** With a limit of at least 1 the loop ends: the fuel of [chunkText]
    suffices. *)
Lemma chunkText_loop_terminates fuel :
  forall r m acc, 1 <= m -> (length r < fuel)%nat ->
  exists chunks, chunkText_loop fuel r m acc = Some chunks.
Proof.
  induction fuel as [|fuel IH]; intros r m acc Hm Hfuel; [lia|].
  destruct r as [|c r'] eqn:Hr.
  - eexists. apply chunkText_loop_empty.
  - rewrite <- Hr in *. assert (0 < length r)%nat as Hpos by (subst r; simpl; lia).
    destruct (Z.le_gt_cases (Z.of_nat (length r)) m) as [Hfit|Hlong].
    + eexists. now apply chunkText_loop_fits.
    + rewrite chunkText_loop_cut by lia.
      apply IH; [assumption|].
      pose proof (cut_shortens r m Hm Hpos). lia.
Qed.

Lemma chunkText_terminates t m :
  1 <= m -> exists chunks, chunkText t m = Some chunks.
Proof.
  intros Hm. unfold chunkText.
  destruct (Z.of_nat (length t) <=? m); [eexists; reflexivity|].
  apply chunkText_loop_terminates; [assumption | lia].
Qed.

(** More fuel does not change a result. *)
Lemma chunkText_loop_more_fuel fuel :
  forall r m acc chunks fuel',
  chunkText_loop fuel r m acc = Some chunks -> (fuel <= fuel')%nat ->
  chunkText_loop fuel' r m acc = Some chunks.
Proof.
  induction fuel as [|fuel IH]; intros r m acc chunks fuel' Hrun Hle; [discriminate|].
  destruct fuel' as [|fuel']; [lia|].
  cbn [chunkText_loop] in *.
  destruct (0 <? length r)%nat; [|assumption].
  destruct (Z.of_nat (length r) <=? m); [assumption|].
  cbv zeta in *. apply IH; [assumption | lia].
Qed.

Lemma stitched_pad_left w t chunks :
  all_ws w -> stitched t chunks -> stitched (w ++ t) chunks.
Proof.
  intros Hw Ht. destruct Ht as [w' Hw'|w' c rest chunks Hw' Hrest].
  - constructor. now apply Forall_app.
  - rewrite app_assoc. constructor; [now apply Forall_app | assumption].
Qed.

Lemma stitched_pad_right w t chunks :
  all_ws w -> stitched t chunks -> stitched (t ++ w) chunks.
Proof.
  intros Hw Ht. induction Ht as [w' Hw'|w' c rest chunks Hw' Hrest IH].
  - constructor. now apply Forall_app.
  - rewrite <- !app_assoc. constructor; assumption.
Qed.

Lemma stitched_visible t chunks :
  stitched t chunks -> visible (concat chunks) = visible t.
Proof.
  induction 1 as [w Hw|w c rest chunks Hw Hrest IH]; simpl.
  - symmetry. now apply visible_all_ws.
  - rewrite !visible_app, IH, (visible_all_ws w Hw). reflexivity.
Qed.

(** One cut: the text is the chunk, the remainder and the whitespace
    trimmed around them. *)
Lemma stitched_cut r b chunks :
  stitched (JS.trim (JS.substring r b None)) chunks ->
  stitched r (JS.trim (JS.substring r 0 (Some b)) :: chunks).
Proof.
  intros Hrest.
  destruct (trim_split (JS.substring r 0 (Some b))) as [w1 [w2 [H1 [H2 Hhead]]]].
  destruct (trim_split (JS.substring r b None)) as [w3 [w4 [H3 [H4 Htail]]]].
  rewrite <- (substring_cut r b) at 1.
  rewrite Hhead, Htail at 1. rewrite <- !app_assoc.
  constructor; [assumption|].
  apply stitched_pad_left; [assumption|].
  apply stitched_pad_left; [assumption|].
  apply stitched_pad_right; assumption.
Qed.

Lemma chunkText_loop_stitched fuel :
  forall r m acc chunks,
  chunkText_loop fuel r m acc = Some chunks ->
  exists new, chunks = acc ++ new /\ stitched r new.
Proof.
  induction fuel as [|fuel IH]; intros r m acc chunks Hrun; [discriminate|].
  cbn [chunkText_loop] in Hrun.
  destruct (Nat.ltb_spec 0 (length r)) as [Hpos|Hzero].
  - destruct (Z.of_nat (length r) <=? m).
    + injection Hrun as <-. exists [r]. split; [reflexivity|].
      rewrite <- (app_nil_r r) at 1. change (stitched ([] ++ r ++ []) [r]).
      constructor; [constructor|]. constructor. constructor.
    + cbv zeta in Hrun. apply IH in Hrun as [new [-> Hnew]].
      eexists. split; [now rewrite <- app_assoc|].
      now apply stitched_cut.
  - injection Hrun as <-. exists []. split; [now rewrite app_nil_r|].
    destruct r; [|simpl in Hzero; lia]. constructor. constructor.
Qed.

Lemma chunkText_stitched t m chunks :
  chunkText t m = Some chunks -> stitched t chunks.
Proof.
  unfold chunkText. destruct (Z.of_nat (length t) <=? m).
  - intros [= <-]. rewrite <- (app_nil_r t) at 1.
    change (stitched ([] ++ t ++ []) [t]).
    constructor; [constructor|]. constructor. constructor.
  - intros Hrun. apply chunkText_loop_stitched in Hrun as [new [-> Hnew]].
    exact Hnew.
Qed.

End Chunker.

Section ChunkerWithoutBreaks.

Lemma no_ws_forallb s :
  forallb (fun c => negb (JS.is_whitespace c)) s = true -> no_ws s.
Proof.
  induction s as [|c s IH]; simpl; intros H; [constructor|].
  apply andb_prop in H as [Hc Hs].
  constructor; [now destruct (JS.is_whitespace c) | now apply IH].
Qed.

Lemma cutPoint_no_ws r m : no_ws r -> 0 <= m -> cutPoint r m = m.
Proof.
  intros Hr Hm. unfold cutPoint.
  rewrite (lastIndexOf_no_ws r (JS.lit ". ") m startsWith_sentence_no_ws Hr).
  rewrite (lastIndexOf_no_ws r [10; 10]%N m startsWith_paragraph_no_ws Hr).
  destruct (Z.ltb_spec m (2 * -1)); [lia | reflexivity].
Qed.

(** Without whitespace there is no break point and nothing to trim: the
    cut is exactly at [maxLength]. *)
Lemma chunkText_loop_cut_no_ws fuel r m acc :
  no_ws r -> 0 <= m -> m < Z.of_nat (length r) ->
  chunkText_loop (S fuel) r m acc =
  chunkText_loop fuel (drop (Z.to_nat m) r) m (acc ++ [take (Z.to_nat m) r]).
Proof.
  intros Hr Hm Hlong.
  rewrite chunkText_loop_cut by lia.
  rewrite (cutPoint_no_ws r m Hr Hm), substring_prefix, substring_suffix.
  replace (JS.clamp m (length r)) with (Z.to_nat m) by (unfold JS.clamp; lia).
  rewrite (trim_no_ws _ (no_ws_drop _ r Hr)), (trim_no_ws _ (no_ws_take _ r Hr)).
  reflexivity.
Qed.

Lemma chunkText_4500 t :
  length t = 4500%nat -> no_ws t ->
  chunkText t 2000 =
  Some [take 2000 t; take 2000 (drop 2000 t); drop 4000 t].
Proof.
  intros Hlen Ht. unfold chunkText.
  destruct (Z.leb_spec (Z.of_nat (length t)) 2000) as [Hle|_]; [lia|].
  apply (chunkText_loop_more_fuel 3); [|lia].
  rewrite chunkText_loop_cut_no_ws by (try assumption; lia).
  rewrite chunkText_loop_cut_no_ws
    by (try (apply no_ws_drop; assumption); rewrite ?length_drop; lia).
  rewrite drop_drop.
  rewrite chunkText_loop_fits by (rewrite length_drop; lia).
  reflexivity.
Qed.

Lemma chunkText_fits t m :
  Z.of_nat (length t) <= m -> chunkText t m = Some [t].
Proof.
  intros Hfit. unfold chunkText.
  destruct (Z.leb_spec (Z.of_nat (length t)) m); [reflexivity | lia].
Qed.

End ChunkerWithoutBreaks.

(** ** Computations *)

Section Combinators.

Context {A B : Type}.

Lemma decent_ret (a : A) : decent (ret a).
Proof. intros w. exact I. Qed.

Lemma decent_throw msg : decent (@throw A (JsError msg)).
Proof. intros w. exact I. Qed.

Lemma decent_bind (m : M A) (k : A -> M B) :
  decent m -> (forall a, decent (k a)) -> decent (bind m k).
Proof.
  intros Hm Hk w. unfold bind. specialize (Hm w).
  destruct (m w) as [[a|[msg|]|] w1]; simpl in *; try contradiction; auto.
  apply Hk.
Qed.

Lemma decent_try_catch (m : M A) (h : Thrown -> M A) :
  decent m -> (forall msg, decent (h (JsError msg))) -> decent (try_catch m h).
Proof.
  intros Hm Hh w. unfold try_catch. specialize (Hm w).
  destruct (m w) as [[a|[msg|]|] w1]; simpl in *; try contradiction; auto.
  apply Hh.
Qed.

Lemma returns_ret (P : A -> Prop) (a : A) : P a -> returns P (ret a).
Proof. intros Ha w a' w' [= <- _]. exact Ha. Qed.

Lemma returns_throw (P : A -> Prop) e : returns P (throw e).
Proof. intros w a w' [=]. Qed.

Lemma returns_bind (P : B -> Prop) (m : M A) (k : A -> M B) :
  (forall a, returns P (k a)) -> returns P (bind m k).
Proof.
  intros Hk w b w'. unfold bind.
  destruct (m w) as [[a|e|] w1]; [apply Hk | discriminate | discriminate].
Qed.

Lemma returns_try_catch (P : A -> Prop) (m : M A) (h : Thrown -> M A) :
  returns P m -> (forall e, returns P (h e)) -> returns P (try_catch m h).
Proof.
  intros Hm Hh w a w'. unfold try_catch.
  destruct (m w) as [[a1|e|] w1] eqn:Hrun;
    [intros [= <- <-]; eapply Hm, Hrun | apply Hh | discriminate].
Qed.

End Combinators.

Section Frames.

Context (R : World -> World -> Prop).
Hypothesis R_refl : forall w, R w w.
Hypothesis R_trans : forall w1 w2 w3, R w1 w2 -> R w2 w3 -> R w1 w3.

Lemma obeys_ret {A} (a : A) : obeys R (ret a).
Proof. intros w. apply R_refl. Qed.

Lemma obeys_throw {A} e : obeys R (@throw A e).
Proof. intros w. apply R_refl. Qed.

Lemma obeys_diverge {A} : obeys R (@diverge A).
Proof. intros w. apply R_refl. Qed.

Lemma obeys_bind {A B} (m : M A) (k : A -> M B) :
  obeys R m -> (forall a, obeys R (k a)) -> obeys R (bind m k).
Proof.
  intros Hm Hk w. unfold bind. specialize (Hm w).
  destruct (m w) as [[a|e|] w1]; simpl in *; try assumption.
  eapply R_trans; [exact Hm | apply Hk].
Qed.

Lemma obeys_try_catch {A} (m : M A) (h : Thrown -> M A) :
  obeys R m -> (forall e, obeys R (h e)) -> obeys R (try_catch m h).
Proof.
  intros Hm Hh w. unfold try_catch. specialize (Hm w).
  destruct (m w) as [[a|e|] w1]; simpl in *; try assumption.
  eapply R_trans; [exact Hm | apply Hh].
Qed.

End Frames.

(** ** The worker always ends, with a value or an [Error] *)

Section Decency.

Context (env : Env).

Lemma decent_emit ev : decent (emit ev).
Proof. intros w. exact I. Qed.

Lemma decent_sleep ms : decent (sleep ms).
Proof. intros w. exact I. Qed.

Lemma decent_notify title msg : decent (notify title msg).
Proof. intros w. exact I. Qed.

Lemma decent_fetchAnthropic model p key : decent (fetchAnthropic env model p key).
Proof. intros w. exact I. Qed.

Lemma decent_fetchNotion request : decent (fetchNotion env request).
Proof. intros w. exact I. Qed.

Lemma decent_updateProgress st cur tot msg : decent (updateProgress st cur tot msg).
Proof. intros w. exact I. Qed.

Lemma decent_storeExportHistory url r : decent (storeExportHistory url r).
Proof. intros w. exact I. Qed.

Lemma decent_removeProgress : decent removeProgress.
Proof. intros w. exact I. Qed.

Lemma decent_chunked s limit : 1 <= limit -> decent (chunked s limit).
Proof.
  intros Hlimit w. unfold chunked.
  destruct (chunkText_terminates s limit Hlimit) as [chunks ->]. exact I.
Qed.

Ltac decency :=
  repeat first
    [ solve [auto]
    | apply decent_ret | apply decent_throw
    | apply decent_emit | apply decent_sleep | apply decent_notify
    | apply decent_fetchAnthropic | apply decent_fetchNotion
    | apply decent_updateProgress | apply decent_storeExportHistory
    | apply decent_removeProgress
    | apply decent_chunked; assumption
    | apply decent_bind; [|intros ?]
    | apply decent_try_catch; [|intros ?]
    | match goal with
      | |- decent (let _ := _ in _) => cbv zeta
      | |- decent (match ?x with _ => _ end) => destruct x
      end ].

Lemma decent_tryModel model t key : decent (tryModel env model t key).
Proof. unfold tryModel. decency. Qed.

Lemma decent_try_models models :
  forall lastError t key, decent (try_models env models lastError t key).
Proof.
  induction models as [|model rest IH]; intros lastError t key; simpl.
  - destruct lastError as [[msg|]|]; decency.
  - pose proof (decent_tryModel model t key). decency; auto.
Qed.

Lemma decent_retry_loop {A} (fn : M A) iterations :
  forall attempt maxRetries initialDelay lastError,
  decent fn ->
  (0 < iterations)%nat \/ (exists msg, lastError = JsError msg) ->
  decent (retry_loop env fn iterations attempt maxRetries initialDelay lastError).
Proof.
  induction iterations as [|n IH]; intros attempt maxRetries d lastError Hfn Hlast; simpl.
  - destruct Hlast as [Hlt|[msg ->]]; [lia | decency].
  - decency; try (apply IH; [assumption | right; eauto]).
Qed.

Lemma decent_handleSummarization t key : decent (handleSummarization env t key).
Proof.
  unfold handleSummarization, retryWithBackoff.
  apply decent_bind; [apply decent_emit | intros _].
  apply decent_retry_loop; [apply decent_try_models | left; lia].
Qed.

Lemma decent_populateSourceText token limit turnBlock summary :
  1 <= limit -> decent (populateSourceText env token limit turnBlock summary).
Proof. intros Hlimit. unfold populateSourceText. decency. Qed.

Lemma decent_populate_created token limit turnBlocks :
  1 <= limit ->
  forall summaries, decent (populate_created env token limit turnBlocks summaries).
Proof.
  intros Hlimit. pose proof (decent_populateSourceText token limit) as Hstep.
  induction turnBlocks as [|b bs IH]; intros [|s ss]; simpl; decency; auto.
Qed.

Lemma decent_populate_appended token limit turnBlocks :
  1 <= limit ->
  forall i summaries, decent (populate_appended env token limit turnBlocks i summaries).
Proof.
  intros Hlimit. pose proof (decent_populateSourceText token limit) as Hstep.
  induction turnBlocks as [|b bs IH]; intros i summaries; simpl; decency; auto.
Qed.

Lemma decent_createNotionToggles summaries page token title url limit :
  1 <= limit -> decent (createNotionToggles env summaries page token title url limit).
Proof.
  intros Hlimit. unfold createNotionToggles.
  pose proof (decent_populate_created token limit) as Hpop. decency; auto.
Qed.

Lemma decent_appendNotionToggles summaries parent token limit :
  1 <= limit -> decent (appendNotionToggles env summaries parent token limit).
Proof.
  intros Hlimit. unfold appendNotionToggles.
  pose proof (decent_populate_appended token limit) as Hpop. decency; auto.
Qed.

(** One pass of the summarising loop always yields a summary. *)
Lemma summarize_or_substitute t key w :
  exists s w',
    try_catch (handleSummarization env t key) (fun _ => ret (failedSummary t)) w
    = (Returned s, w').
Proof.
  unfold try_catch. pose proof (decent_handleSummarization t key w) as Hd.
  destruct (handleSummarization env t key w) as [[s|[msg|]|] w1]; simpl in Hd;
    try contradiction; eauto.
Qed.

End Decency.

(** ** What the stages leave untouched *)

Section SummarizerFrame.

Context (env : Env) (R : World -> World -> Prop).
Hypothesis R_refl : forall w, R w w.
Hypothesis R_trans : forall w1 w2 w3, R w1 w2 -> R w2 w3 -> R w1 w3.
Hypothesis R_sleep : forall ms, obeys R (sleep ms).
Hypothesis R_unavailable : forall model, obeys R (emit (EvModelUnavailable model)).
Hypothesis R_anthropic : forall model p key, obeys R (fetchAnthropic env model p key).

Ltac framing :=
  repeat first
    [ solve [auto]
    | apply (obeys_ret R R_refl) | apply (obeys_throw R R_refl)
    | apply R_sleep | apply R_unavailable | apply R_anthropic
    | apply (obeys_bind R R_trans); [|intros ?]
    | apply (obeys_try_catch R R_trans); [|intros ?]
    | match goal with
      | |- obeys R (let _ := _ in _) => cbv zeta
      | |- obeys R (match ?x with _ => _ end) => destruct x
      end ].

Lemma tryModel_obeys model t key : obeys R (tryModel env model t key).
Proof. unfold tryModel. framing. Qed.

Lemma try_models_obeys models :
  forall lastError t key, obeys R (try_models env models lastError t key).
Proof.
  induction models as [|model rest IH]; intros lastError t key; simpl.
  - destruct lastError as [[msg|]|]; framing.
  - pose proof (tryModel_obeys model t key). framing; auto.
Qed.

Lemma retry_loop_obeys {A} (fn : M A) iterations :
  forall attempt maxRetries initialDelay lastError,
  obeys R fn ->
  obeys R (retry_loop env fn iterations attempt maxRetries initialDelay lastError).
Proof.
  induction iterations as [|n IH]; intros attempt maxRetries d lastError Hfn; simpl.
  - framing.
  - framing; auto.
Qed.

Lemma handleSummarization_obeys t key :
  obeys R (emit (EvSummarize t)) -> obeys R (handleSummarization env t key).
Proof.
  intros Hmark. unfold handleSummarization, retryWithBackoff.
  apply (obeys_bind R R_trans); [assumption | intros _].
  apply retry_loop_obeys, try_models_obeys.
Qed.

Lemma summarize_loop_obeys key startIndex totalTurns count todo :
  (forall t, obeys R (emit (EvSummarize t))) ->
  (forall st cur tot msg, obeys R (updateProgress st cur tot msg)) ->
  forall i summaries,
  obeys R (summarize_loop env key startIndex totalTurns count todo i summaries).
Proof.
  intros Hmark Hprogress.
  induction todo as [|t todo IH]; intros i summaries; simpl.
  - framing.
  - pose proof (handleSummarization_obeys t key (Hmark t)).
    pose proof (Hprogress summarizing) as Hp. framing; auto.
Qed.

End SummarizerFrame.

Section BuilderFrame.

Context (env : Env) (R : World -> World -> Prop).
Hypothesis R_refl : forall w, R w w.
Hypothesis R_trans : forall w1 w2 w3, R w1 w2 -> R w2 w3 -> R w1 w3.
Hypothesis R_sleep : forall ms, obeys R (sleep ms).
Hypothesis R_notion : forall request, obeys R (fetchNotion env request).

Ltac framing :=
  repeat first
    [ solve [auto]
    | apply (obeys_ret R R_refl) | apply (obeys_throw R R_refl)
    | apply (obeys_diverge R R_refl)
    | apply R_sleep | apply R_notion
    | apply (obeys_bind R R_trans); [|intros ?]
    | apply (obeys_try_catch R R_trans); [|intros ?]
    | match goal with
      | |- obeys R (let _ := _ in _) => cbv zeta
      | |- obeys R (match ?x with _ => _ end) => destruct x
      end ].

Lemma chunked_obeys s limit : obeys R (chunked s limit).
Proof. unfold chunked. framing. Qed.

Lemma populateSourceText_obeys token limit turnBlock summary :
  obeys R (populateSourceText env token limit turnBlock summary).
Proof.
  unfold populateSourceText.
  pose proof chunked_obeys as Hchunked. framing; auto.
Qed.

Lemma populate_created_obeys token limit turnBlocks :
  forall summaries, obeys R (populate_created env token limit turnBlocks summaries).
Proof.
  pose proof (populateSourceText_obeys token limit) as Hstep.
  induction turnBlocks as [|b bs IH]; intros [|s ss]; simpl; framing; auto.
Qed.

Lemma populate_appended_obeys token limit turnBlocks :
  forall i summaries, obeys R (populate_appended env token limit turnBlocks i summaries).
Proof.
  pose proof (populateSourceText_obeys token limit) as Hstep.
  induction turnBlocks as [|b bs IH]; intros i summaries; simpl; framing; auto.
Qed.

Lemma createNotionToggles_obeys summaries page token title url limit :
  obeys R (createNotionToggles env summaries page token title url limit).
Proof.
  unfold createNotionToggles.
  pose proof (populate_created_obeys token limit) as Hpop. framing; auto.
Qed.

Lemma appendNotionToggles_obeys summaries parent token limit :
  obeys R (appendNotionToggles env summaries parent token limit).
Proof.
  unfold appendNotionToggles.
  pose proof (populate_appended_obeys token limit) as Hpop. framing; auto.
Qed.

End BuilderFrame.

(** ** Instances of the frames *)

Section Observations.

Context (env : Env).

Lemma keeps_refl {X} (obs : World -> X) w : keeps obs w w.
Proof. reflexivity. Qed.

Lemma keeps_trans {X} (obs : World -> X) w1 w2 w3 :
  keeps obs w1 w2 -> keeps obs w2 w3 -> keeps obs w1 w3.
Proof. unfold keeps. congruence. Qed.

(** The export history is written by [storeExportHistory] only. *)
Lemma history_handleSummarization t key :
  obeys (keeps exportHistory) (handleSummarization env t key).
Proof.
  apply handleSummarization_obeys;
    try (intros; intros w; reflexivity);
    [apply keeps_refl | apply keeps_trans].
Qed.

Lemma history_summarize_loop key startIndex totalTurns count todo i summaries :
  obeys (keeps exportHistory)
    (summarize_loop env key startIndex totalTurns count todo i summaries).
Proof.
  apply summarize_loop_obeys;
    try (intros; intros w; reflexivity);
    [apply keeps_refl | apply keeps_trans].
Qed.

Lemma history_createNotionToggles summaries page token title url limit :
  obeys (keeps exportHistory)
    (createNotionToggles env summaries page token title url limit).
Proof.
  apply createNotionToggles_obeys;
    try (intros; intros w; reflexivity);
    [apply keeps_refl | apply keeps_trans].
Qed.

Lemma history_appendNotionToggles summaries parent token limit :
  obeys (keeps exportHistory)
    (appendNotionToggles env summaries parent token limit).
Proof.
  apply appendNotionToggles_obeys;
    try (intros; intros w; reflexivity);
    [apply keeps_refl | apply keeps_trans].
Qed.

End Observations.

(** ** The summarising loop *)

Section SummarisingLoop.

Context (env : Env) (key : jsstring).

Lemma tryModel_returns model t :
  returns (stepCarries t) (tryModel env model t key).
Proof.
  unfold tryModel. apply returns_bind. intros [failure|st txt body].
  - apply returns_throw.
  - destruct (negb (ok st)).
    + cbv zeta. destruct (st =? 404)%N.
      * apply returns_bind. intros _. now apply returns_ret.
      * destruct (st =? 429)%N; apply returns_throw.
    + destruct body as [d|]; [|apply returns_throw].
      destruct (completionText d); [|apply returns_throw].
      apply returns_ret. repeat split.
Qed.

Lemma try_models_returns models :
  forall lastError t, returns (summaryOf t) (try_models env models lastError t key).
Proof.
  induction models as [|model rest IH]; intros lastError t; simpl.
  - destruct lastError as [[msg|]|]; apply returns_throw.
  - intros w s w'. unfold bind.
    destruct (try_catch _ _ w) as [[step|e|] w1] eqn:Hstep; try discriminate.
    assert (stepCarries t step) as Hcarries.
    { revert Hstep. apply (returns_try_catch (stepCarries t)).
      - apply tryModel_returns.
      - intros e. now apply returns_ret. }
    destruct step as [s1|caught].
    + intros [= <- <-]. exact Hcarries.
    + apply IH.
Qed.

Lemma retry_loop_returns {A} (P : A -> Prop) (fn : M A) iterations :
  forall attempt maxRetries initialDelay lastError,
  returns P fn ->
  returns P (retry_loop env fn iterations attempt maxRetries initialDelay lastError).
Proof.
  induction iterations as [|n IH]; intros attempt maxRetries d lastError Hfn; simpl.
  - apply returns_throw.
  - apply returns_try_catch; [assumption|]. intros [msg|]; [|apply returns_throw].
    destruct (_ || _); [apply returns_throw|].
    apply returns_bind. intros _. now apply IH.
Qed.

Lemma handleSummarization_returns t :
  returns (summaryOf t) (handleSummarization env t key).
Proof.
  unfold handleSummarization, retryWithBackoff.
  apply returns_bind. intros _. apply retry_loop_returns, try_models_returns.
Qed.

(** One pass of the loop body. *)
Lemma summarize_loop_cons startIndex totalTurns count t todo i summaries w :
  summarize_loop env key startIndex totalTurns count (t :: todo) i summaries w =
  match try_catch (handleSummarization env t key)
                  (fun _ => ret (failedSummary t))
                  (snd (updateProgress summarizing i count
                          (processingMessage startIndex i totalTurns) w)) with
  | (Returned s, w2) =>
    summarize_loop env key startIndex totalTurns count todo (S i)
      (summaries ++ [s])
      (snd ((if Z.of_nat i <? Z.of_nat count - 1 then sleep 800 else ret tt) w2))
  | (Threw e, w2) => (Threw e, w2)
  | (Diverged, w2) => (Diverged, w2)
  end.
Proof.
  cbn [summarize_loop]. unfold bind at 1. cbn [updateProgress snd].
  unfold bind at 1.
  destruct (try_catch _ _ _) as [[s|e|] w2]; try reflexivity.
  unfold bind at 1. destruct (Z.of_nat i <? Z.of_nat count - 1); reflexivity.
Qed.

(** The loop never throws: it yields one summary per turn, each carrying
    the number and the texts of its turn. *)
Lemma summarize_loop_total startIndex totalTurns count todo :
  forall i summaries w,
  exists new w',
    summarize_loop env key startIndex totalTurns count todo i summaries w
    = (Returned (summaries ++ new), w')
    /\ Forall2 summaryOf todo new.
Proof.
  induction todo as [|t todo IH]; intros i summaries w.
  - exists [], w. rewrite app_nil_r. split; [reflexivity | constructor].
  - rewrite summarize_loop_cons.
    destruct (summarize_or_substitute env t key
                (snd (updateProgress summarizing i count
                        (processingMessage startIndex i totalTurns) w)))
      as [s [w2 Hstep]].
    assert (summaryOf t s) as Hs.
    { revert Hstep. apply (returns_try_catch (summaryOf t)).
      - apply handleSummarization_returns.
      - intros e. apply returns_ret. repeat split. }
    rewrite Hstep.
    destruct (IH (S i) (summaries ++ [s])
                 (snd ((if Z.of_nat i <? Z.of_nat count - 1 then sleep 800 else ret tt) w2)))
      as [new [w' [Hrun Hall]]].
    exists (s :: new), w'. rewrite Hrun, <- app_assoc.
    split; [reflexivity | now constructor].
Qed.

Lemma decent_summarize_loop startIndex totalTurns count todo i summaries :
  decent (summarize_loop env key startIndex totalTurns count todo i summaries).
Proof.
  intros w.
  destruct (summarize_loop_total startIndex totalTurns count todo i summaries w)
    as [new [w' [-> _]]]. exact I.
Qed.

(** The run over [pre ++ rest] is the run over [pre] followed by the run
    over [rest]. *)
Lemma summarize_loop_app startIndex totalTurns count pre rest :
  forall i summaries w,
  summarize_loop env key startIndex totalTurns count (pre ++ rest) i summaries w =
  match summarize_loop env key startIndex totalTurns count pre i summaries w with
  | (Returned mid, w1) =>
    summarize_loop env key startIndex totalTurns count rest
      (i + length pre) mid w1
  | (Threw e, w1) => (Threw e, w1)
  | (Diverged, w1) => (Diverged, w1)
  end.
Proof.
  induction pre as [|t pre IH]; intros i summaries w.
  - simpl. now rewrite Nat.add_0_r.
  - change ((t :: pre) ++ rest) with (t :: (pre ++ rest)).
    rewrite !summarize_loop_cons.
    destruct (try_catch _ _ _) as [[s|e|] w2]; try reflexivity.
    rewrite IH. simpl length.
    replace (i + S (length pre))%nat with (S i + length pre)%nat by lia.
    reflexivity.
Qed.

End SummarisingLoop.

(** ** The orchestrator *)

Section Orchestrator.

Context (env : Env) (data : ExportData).

Lemma settled_bind {A B} (m : M A) (k : A -> M B) :
  decent m -> obeys (keeps exportHistory) m ->
  (forall a, settled env data (k a)) -> settled env data (bind m k).
Proof.
  intros Hd Hk Hs w. unfold bind.
  specialize (Hd w). specialize (Hk w). unfold keeps in Hk.
  destruct (m w) as [[a|[msg|]|] w1]; simpl in *; try contradiction; [|assumption].
  specialize (Hs a w1). rewrite <- Hk.
  destruct (k a w1) as [[b|[msg|]|] w2]; assumption.
Qed.

Lemma settled_throw {A} msg : settled env data (@throw A (JsError msg)).
Proof. intros w. reflexivity. Qed.

(** The end of the [try] block, from the store of the record on. *)
Lemma settled_store parent title msg :
  settled env data
    (storeExportHistory (dataConversationUrl data) (recordOf env data parent) ;;
     removeProgress ;; notify title msg).
Proof. intros w. simpl. split; [exists parent|]; reflexivity. Qed.

Lemma settled_try : settled env data (handleFullExport_try env data).
Proof.
  unfold handleFullExport_try.
  apply settled_bind.
  - destruct (updateOf data); [|apply decent_ret].
    destruct (length _ =? 0)%nat; [apply decent_throw | apply decent_ret].
  - destruct (updateOf data); [|intros w; reflexivity].
    destruct (length _ =? 0)%nat; intros w; reflexivity.
  - intros selected. cbv zeta.
    apply settled_bind; [apply decent_updateProgress | intros w; reflexivity | intros _].
    apply settled_bind.
    + apply decent_summarize_loop.
    + apply history_summarize_loop.
    + intros summaries.
      apply settled_bind; [apply decent_updateProgress | intros w; reflexivity | intros _].
      apply settled_bind.
      * destruct (updateOf data).
        -- apply decent_bind; [|intros; apply decent_ret].
           apply decent_appendNotionToggles. unfold NOTION_BLOCK_LIMIT. lia.
        -- apply decent_createNotionToggles. unfold NOTION_BLOCK_LIMIT. lia.
      * destruct (updateOf data).
        -- apply obeys_bind; [apply keeps_trans | apply history_appendNotionToggles|].
           intros; intros w; reflexivity.
        -- apply history_createNotionToggles.
      * intros parent. apply settled_store.
Qed.

End Orchestrator.

(** ** Claims about the orchestrator *)


(** C4. The summarising loop never aborts and never drops a turn: over any
    slice it returns one summary per turn, each with the number and the
    texts of its turn; and when the summarisation of the turn [t] at some
    position throws (every candidate model failed, after the retries), the
    entry at that position is the substitute whose one-line summary is
    "Turn N (summary failed)", N being the number of [t], with the user and
    assistant texts of [t].  The world in which [t] is summarised is the one
    left by the run over the turns before it, with the progress updated. *)
Theorem failed_summarization_yields_sentinel
    env key startIndex totalTurns count pre t post w before wi e w2 :
  summarize_loop env key startIndex totalTurns count pre 0 [] w
  = (Returned before, wi) ->
  handleSummarization env t key
    (snd (updateProgress summarizing (length pre) count
            (processingMessage startIndex (length pre) totalTurns) wi))
  = (Threw e, w2) ->
  exists summaries w',
    summarize_loop env key startIndex totalTurns count (pre ++ t :: post) 0 [] w
    = (Returned summaries, w')
    /\ length summaries = length (pre ++ t :: post)
    /\ Forall2 summaryOf (pre ++ t :: post) summaries
    /\ exists s,
         summaries !! length pre = Some s
         /\ oneLine s = Some (JS.lit "Turn " ++ JS.decimal (turnNumber t)
                              ++ JS.lit " (summary failed)")
         /\ sourceUser s = user t
         /\ sourceAssistant s = assistant t.
Proof.
  intros Hpre Hfail.
  destruct (summarize_loop_total env key startIndex totalTurns count
              (pre ++ t :: post) 0 [] w) as [summaries [w' [Hrun Hall]]].
  simpl in Hrun. exists summaries, w'.
  split; [exact Hrun|]. split; [symmetry; eapply Forall2_length, Hall|].
  split; [exact Hall|].
  exists (failedSummary t). split; [|repeat split].
  rewrite summarize_loop_app, Hpre in Hrun.
  change (0 + length pre)%nat with (length pre) in Hrun.
  rewrite summarize_loop_cons in Hrun.
  unfold try_catch in Hrun at 1. rewrite Hfail in Hrun.
  cbn [ret] in Hrun.
  destruct (summarize_loop_total env key startIndex totalTurns count post
              (S (length pre)) (before ++ [failedSummary t])
              (snd ((if Z.of_nat (length pre) <? Z.of_nat count - 1
                     then sleep 800 else ret tt) w2)))
    as [new [w'' [Hpost _]]].
  rewrite Hpost in Hrun. injection Hrun as <- _.
  destruct (summarize_loop_total env key startIndex totalTurns count pre 0 [] w)
    as [new0 [w0 [Hpre' Hall0]]].
  rewrite Hpre in Hpre'. injection Hpre' as -> _. simpl.
  apply Forall2_length in Hall0.
  rewrite <- app_assoc. rewrite lookup_app_r by lia.
  replace (length pre - length new0)%nat with 0%nat by lia. reflexivity.
Qed.

(** ** Retry with backoff *)

(** One iteration of the retry loop. *)
Lemma retry_loop_step {A} env (fn : M A) n attempt maxRetries d lastError w :
  retry_loop env fn (S n) attempt maxRetries d lastError w =
  match fn w with
  | (Threw (JsError msg), w1) =>
    if negb (shouldRetry msg) || (Z.of_nat attempt =? Z.of_nat maxRetries - 1)
    then (Threw (JsError msg), w1)
    else retry_loop env fn n (S attempt) maxRetries d (JsError msg)
           (snd (sleep (d * 2 ^ Z.of_nat attempt) w1))
  | (Threw JsUndefined, w1) =>
    (Threw (JsError (engineMessage env MessageOfUndefined)), w1)
  | r => r
  end.
Proof.
  cbn [retry_loop]. unfold try_catch.
  destruct (fn w) as [[a|[msg|]|] w1]; try reflexivity.
  destruct (_ || _); reflexivity.
Qed.

(** How [shouldRetry] classifies the errors that the summariser throws:
    its rate-limit error is retryable whatever the service said; its error
    for a model that is not found is not. *)
Lemma rate_limit_error_is_retryable msg :
  shouldRetry (JS.lit "Rate limit (429): " ++ msg) = true.
Proof. reflexivity. Qed.

Lemma model_not_found_is_not_retryable :
  Forall (fun model => shouldRetry (JS.lit "Model not found: " ++ model) = false)
         modelsToTry.
Proof. repeat constructor. Qed.


(** ** Model fallback *)

Section Fallback.

Context (env : Env) (t : Turn) (key : jsstring).

Lemma requestedModels_app a b :
  requestedModels (a ++ b) = requestedModels a ++ requestedModels b.
Proof. apply omap_app. Qed.

Lemma skippedModels_app a b :
  skippedModels (a ++ b) = skippedModels a ++ skippedModels b.
Proof. apply omap_app. Qed.

(** Each pass through the model loop sends exactly one request. *)
Lemma tryModel_requests model w :
  requestedModels (trace (snd (tryModel env model t key w)))
  = requestedModels (trace w) ++ [model].
Proof.
  unfold tryModel, bind, fetchAnthropic.
  destruct (anthropic env (anthropicCalls w) model (prompt t) key)
    as [failure|st txt body].
  - cbn. now rewrite requestedModels_app.
  - destruct (negb (ok st)).
    + cbv zeta. destruct (st =? 404)%N.
      * cbn. rewrite !requestedModels_app. cbn. now rewrite app_nil_r.
      * destruct (st =? 429)%N; cbn; now rewrite requestedModels_app.
    + destruct body as [d|]; [|cbn; now rewrite requestedModels_app].
      destruct (completionText d); cbn; now rewrite requestedModels_app.
Qed.

(** When the model loop ends with a throw, every model of the list has been
    requested, in order. *)
Lemma try_models_requests models :
  forall lastError w e w',
  try_models env models lastError t key w = (Threw e, w') ->
  requestedModels (trace w') = requestedModels (trace w) ++ models.
Proof.
  induction models as [|model rest IH]; intros lastError w e w'; simpl.
  - destruct lastError as [[msg|]|]; intros [= _ <-]; now rewrite app_nil_r.
  - unfold bind, try_catch. pose proof (tryModel_requests model w) as Hreq.
    pose proof (decent_tryModel env model t key w) as Hd.
    destruct (tryModel env model t key w) as [[[s|caught]|[msg|]|] w1];
      simpl in Hreq, Hd; try contradiction; cbn [ret]; try discriminate.
    + intros Hrest. apply IH in Hrest. rewrite Hrest, Hreq.
      now rewrite <- app_assoc.
    + intros Hrest. apply IH in Hrest. rewrite Hrest, Hreq.
      now rewrite <- app_assoc.
Qed.

(** A failing retry loop has run between 1 and [iterations] failing
    attempts. *)
Lemma retry_loop_requests {A} (fn : M A) requested :
  decent fn ->
  (forall w e w', fn w = (Threw e, w') ->
     requestedModels (trace w') = requestedModels (trace w) ++ requested) ->
  forall iterations attempt maxRetries d lastError w e w',
  retry_loop env fn (S iterations) attempt maxRetries d lastError w = (Threw e, w') ->
  exists k, (1 <= k <= S iterations)%nat
    /\ requestedModels (trace w')
       = requestedModels (trace w) ++ concat (replicate k requested).
Proof.
  intros Hd Hfn.
  induction iterations as [|n IH]; intros attempt maxRetries d lastError w e w';
    rewrite retry_loop_step; specialize (Hd w); pose proof (Hfn w) as Hw;
    destruct (fn w) as [[a|[msg|]|] w1]; simpl in Hd; try contradiction;
    try discriminate; specialize (Hw _ _ eq_refl).
  - destruct (_ || _); intros [= _ <-]; exists 1%nat;
      (split; [lia|]); cbn; rewrite ?app_nil_r, ?requestedModels_app;
      cbn; rewrite ?app_nil_r; exact Hw.
  - destruct (_ || _).
    + intros [= _ <-]. exists 1%nat. split; [lia|].
      cbn. now rewrite app_nil_r.
    + intros Hrest. apply IH in Hrest as [k [Hk Hrest]].
      exists (S k). split; [lia|].
      rewrite Hrest. cbn. rewrite requestedModels_app, Hw. cbn.
      now rewrite app_nil_r, <- app_assoc.
Qed.

(** A candidate that answers 404 is skipped. *)
Lemma try_models_unavailable model rest lastError w txt body :
  anthropic env (anthropicCalls w) model (prompt t) key = Response 404 txt body ->
  try_models env (model :: rest) lastError t key w =
  try_models env rest (Some (JsError (JS.lit "Model not found: " ++ model))) t key
    (snd (emit (EvModelUnavailable model)
            (snd (fetchAnthropic env model (prompt t) key w)))).
Proof.
  intros Hreply. cbn [try_models]. unfold bind at 1, try_catch, tryModel.
  unfold bind at 1. cbn [fetchAnthropic]. rewrite Hreply. reflexivity.
Qed.

(** A candidate that answers with a completion ends the loop. *)
Lemma try_models_success model rest lastError w st txt data s :
  anthropic env (anthropicCalls w) model (prompt t) key
  = Response st txt (Some data) ->
  ok st = true -> completionText data = Some s ->
  try_models env (model :: rest) lastError t key w =
  (Returned (mkTurnSummary (turnNumber t)
               (parsedOneLine (parseSummaries env s))
               (parsedParagraph (parseSummaries env s)) (user t) (assistant t)),
   snd (fetchAnthropic env model (prompt t) key w)).
Proof.
  intros Hreply Hok Htext. cbn [try_models]. unfold bind at 1, try_catch, tryModel.
  unfold bind at 1. cbn [fetchAnthropic]. rewrite Hreply, Hok, Htext. reflexivity.
Qed.

End Fallback.

(** C6. [handleSummarization] throws only after every candidate model has
    been requested: the models requested during a failing call are the
    whole list [modelsToTry], in order, once per attempt of the retry
    wrapper (1 to 3 attempts).  And when the first two candidates answer
    404 and the third answers with a completion, the call returns the
    summary parsed from that third answer, after exactly two skips (of the
    first and of the second candidate) and exactly three requests. *)
Theorem handleSummarization_model_fallback env t key w :
  (forall e w',
     handleSummarization env t key w = (Threw e, w') ->
     exists k, (1 <= k <= 3)%nat
       /\ requestedModels (trace w')
          = requestedModels (trace w) ++ concat (replicate k modelsToTry))
  /\ (forall a b c rest txt1 body1 txt2 body2 st3 txt3 data s,
        modelsToTry = a :: b :: c :: rest ->
        anthropic env (anthropicCalls w) a (prompt t) key
        = Response 404 txt1 body1 ->
        anthropic env (S (anthropicCalls w)) b (prompt t) key
        = Response 404 txt2 body2 ->
        anthropic env (S (S (anthropicCalls w))) c (prompt t) key
        = Response st3 txt3 (Some data) ->
        ok st3 = true ->
        completionText data = Some s ->
        exists w',
          handleSummarization env t key w
          = (Returned (mkTurnSummary (turnNumber t)
                         (parsedOneLine (parseSummaries env s))
                         (parsedParagraph (parseSummaries env s))
                         (user t) (assistant t)), w')
          /\ skippedModels (trace w') = skippedModels (trace w) ++ [a; b]
          /\ requestedModels (trace w') = requestedModels (trace w) ++ [a; b; c]).
Proof.
  split.
  - intros e w'. unfold handleSummarization, retryWithBackoff.
    unfold bind at 1. cbn [emit].
    intros Hrun.
    apply (retry_loop_requests env (try_models env modelsToTry None t key) modelsToTry)
      in Hrun as [k [Hk Hrun]].
    + exists k. split; [exact Hk|]. rewrite Hrun. cbn [trace].
      rewrite requestedModels_app. cbn. now rewrite app_nil_r.
    + apply decent_try_models.
    + intros w0 e0 w0'. apply try_models_requests.
  - intros a b c rest txt1 body1 txt2 body2 st3 txt3 data s
      Hmodels H1 H2 H3 Hok Htext.
    unfold handleSummarization, retryWithBackoff.
    unfold bind at 1. cbn [emit]. rewrite retry_loop_step, Hmodels.
    erewrite try_models_unavailable by (cbn; exact H1).
    erewrite try_models_unavailable by (cbn; exact H2).
    erewrite try_models_success by (cbn; eassumption).
    eexists. split; [reflexivity|].
    cbn. rewrite !skippedModels_app, !requestedModels_app. cbn.
    rewrite !app_nil_r, <- !app_assoc. split; reflexivity.
Qed.

(** ** What an update run sends *)

Section UpdateRun.

Context (env : Env).

Lemma summarized_app a b : summarized (a ++ b) = summarized a ++ summarized b.
Proof. apply omap_app. Qed.

Lemma notionRequests_app a b :
  notionRequests (a ++ b) = notionRequests a ++ notionRequests b.
Proof. apply omap_app. Qed.

Ltac quiet :=
  intros; intros ?; unfold keeps; cbn;
  rewrite ?summarized_app, ?notionRequests_app; cbn;
  rewrite ?app_nil_r; reflexivity.

(** Summarising sends nothing to the document service. *)
Lemma notion_summarize_loop key startIndex totalTurns count todo i summaries :
  obeys (keeps (fun w => notionRequests (trace w)))
    (summarize_loop env key startIndex totalTurns count todo i summaries).
Proof.
  apply summarize_loop_obeys; try quiet; [apply keeps_refl | apply keeps_trans].
Qed.


Lemma summarized_createNotionToggles summaries page token title url limit :
  obeys (keeps (fun w => summarized (trace w)))
    (createNotionToggles env summaries page token title url limit).
Proof.
  apply createNotionToggles_obeys; try quiet; [apply keeps_refl | apply keeps_trans].
Qed.

(** [handleSummarization] is entered once per call. *)
Lemma summarized_retrying t key n attempt maxRetries d lastError :
  obeys (keeps (fun w => summarized (trace w)))
    (retry_loop env (try_models env modelsToTry None t key) n attempt
       maxRetries d lastError).
Proof.
  apply retry_loop_obeys;
    [apply keeps_refl | apply keeps_trans | quiet |].
  apply try_models_obeys; try quiet; [apply keeps_refl | apply keeps_trans].
Qed.

Lemma summarized_handleSummarization t key w :
  summarized (trace (snd (handleSummarization env t key w)))
  = summarized (trace w) ++ [t].
Proof.
  unfold handleSummarization, retryWithBackoff. unfold bind. cbn [emit].
  match goal with
  | |- context [retry_loop env ?fn ?n ?a ?m ?d ?l ?w0] =>
    pose proof (summarized_retrying t key n a m d l w0) as Hkeep;
    destruct (retry_loop env fn n a m d l w0) as [[s|e|] w1]
  end; unfold keeps in Hkeep; cbn in Hkeep |- *; rewrite Hkeep;
    rewrite summarized_app; reflexivity.
Qed.

Lemma summarized_summarize_loop key startIndex totalTurns count todo :
  forall i summaries w,
  summarized (trace (snd (summarize_loop env key startIndex totalTurns count
                            todo i summaries w)))
  = summarized (trace w) ++ todo.
Proof.
  induction todo as [|t todo IH]; intros i summaries w.
  - cbn. now rewrite app_nil_r.
  - rewrite summarize_loop_cons.
    pose proof (summarized_handleSummarization t key
                  (snd (updateProgress summarizing i count
                          (processingMessage startIndex i totalTurns) w))) as Hstep.
    destruct (summarize_or_substitute env t key
                (snd (updateProgress summarizing i count
                        (processingMessage startIndex i totalTurns) w)))
      as [s [w2 Hrun]].
    rewrite Hrun.
    assert (summarized (trace w2) = summarized (trace w) ++ [t]) as Hw2.
    { unfold try_catch in Hrun.
      destruct (handleSummarization env t key _) as [[s1|e|] w1];
        cbn in Hrun; try discriminate; injection Hrun as _ <-; exact Hstep. }
    rewrite IH.
    destruct (Z.of_nat i <? Z.of_nat count - 1); cbn;
      rewrite ?summarized_app, Hw2; cbn; rewrite ?app_nil_r, <- ?app_assoc;
      reflexivity.
Qed.

End UpdateRun.

Section Population.

Context (env : Env) (token : jsstring) (limit : Z) (summaries : list TurnSummary).

Lemma requestsGrow_refl P w : requestsGrow P w w.
Proof. exists []. split; [now rewrite app_nil_r | constructor]. Qed.

Lemma requestsGrow_trans P w1 w2 w3 :
  requestsGrow P w1 w2 -> requestsGrow P w2 w3 -> requestsGrow P w1 w3.
Proof.
  intros [n1 [H1 P1]] [n2 [H2 P2]]. exists (n1 ++ n2).
  split; [now rewrite H2, H1, app_assoc | now apply Forall_app].
Qed.

Lemma notionRequests_request r : notionRequests [EvNotionRequest r] = [r].
Proof. reflexivity. Qed.

Lemma notionRequests_sleep ms : notionRequests [EvSleep ms] = [].
Proof. reflexivity. Qed.

Ltac traced :=
  cbn [throw ret diverge emit sleep snd fst trace notionCalls anthropicCalls];
  rewrite ?notionRequests_app, ?notionRequests_request, ?notionRequests_sleep;
  rewrite ?app_nil_r, <- ?app_assoc.

Ltac grown :=
  unfold requestsGrow; traced;
  eexists; split; [reflexivity|]; repeat constructor.

(** The population of one turn toggle reads its children and writes at most
    the source-text blocks of its summary. *)
Lemma populateSourceText_requests turnBlock summary :
  (forall s, summary = Some s -> s ∈ summaries) ->
  obeys (requestsGrow (populationOf token limit summaries))
    (populateSourceText env token limit turnBlock summary).
Proof.
  intros Hin w. unfold populateSourceText, bind, fetchNotion.
  destruct (notion env (notionCalls w) _) as [failure|st txt body]; [grown|].
  destruct (negb (ok st)); [grown|].
  destruct body as [turnChildren|]; [|grown].
  destruct (results turnChildren) as [children|]; [|grown].
  destruct (children !! 1%nat) as [toggle|]; [|grown].
  destruct (bool_decide _); [|grown].
  destruct summary as [s|]; [|grown].
  unfold chunked.
  destruct (chunkText (sourceUser s) limit) as [userChunks|] eqn:Huser; [|grown].
  destruct (chunkText (sourceAssistant s) limit) as [assistantChunks|] eqn:Hassistant;
    [|grown].
  cbn [ret fst snd notionCalls].
  destruct (notion env _ _) as [failure|st2 txt2 body2]; grown;
    exists s, userChunks, assistantChunks; auto.
Qed.



End Population.

Section UpdateMode.

Context (env : Env) (data : ExportData) (existing : ExportRecord).
Hypothesis Hmode : exportMode data = Some (JS.lit "update").
Hypothesis Hexisting : existingExportData data = Some existing.

Lemma updateOf_update : updateOf data = Some existing.
Proof.
  unfold updateOf, isUpdate. rewrite Hmode, Hexisting.
  now rewrite bool_decide_eq_true_2.
Qed.

(** An update run with nothing new. *)
Lemma update_run_empty w :
  (length (turns data) <= turnCount existing)%nat ->
  handleFullExport env data w =
  (Threw (JsError (JS.lit "No new turns to export")),
   mkWorld (anthropicCalls w) (notionCalls w)
     (Some (mkExportProgress error 0 0 (JS.lit "No new turns to export")))
     (exportHistory w)
     (trace w ++ [EvNotification (JS.lit "Export Failed")
                                 (JS.lit "No new turns to export")])).
Proof.
  intros Hcount.
  unfold handleFullExport, handleFullExport_try. rewrite updateOf_update.
  rewrite (drop_ge (turns data) (turnCount existing)) by lia.
  reflexivity.
Qed.


End UpdateMode.

(** ** Claims about update mode *)

(** C7. An update run whose stored record already covers the whole
    transcript fails with the error "No new turns to export": the error is
    left in the export progress and notified, and nothing else happens (no
    request to the summarisation service, no request to the document
    service, no change of the export history). *)
Theorem update_without_new_turns_is_an_error env data existing w :
  exportMode data = Some (JS.lit "update") ->
  existingExportData data = Some existing ->
  (length (turns data) <= turnCount existing)%nat ->
  handleFullExport env data w =
  (Threw (JsError (JS.lit "No new turns to export")),
   mkWorld (anthropicCalls w) (notionCalls w)
     (Some (mkExportProgress error 0 0 (JS.lit "No new turns to export")))
     (exportHistory w)
     (trace w ++ [EvNotification (JS.lit "Export Failed")
                                 (JS.lit "No new turns to export")])).
Proof.
  intros Hmode Hexisting Hcount.
  apply (update_run_empty env data existing); assumption.
Qed.



(** ** The fuel of the chunker, and the length of a chunk *)

Section ChunkerBounds.

(** An iteration that does not shorten the remainder leaves it unchanged. *)
Lemma cut_same_length r m :
  length (JS.trim (JS.substring r (cutPoint r m) None)) = length r ->
  JS.trim (JS.substring r (cutPoint r m) None) = r.
Proof.
  intros Hlen.
  pose proof (trim_length (JS.substring r (cutPoint r m) None)) as Htrim.
  rewrite substring_suffix in *. rewrite length_drop in Htrim.
  pose proof (clamp_le (cutPoint r m) (length r)) as Hclamp.
  assert (JS.clamp (cutPoint r m) (length r) = 0%nat) as Hc by lia.
  rewrite Hc in *.
  rewrite drop_0 in *.
  destruct (trim_split r) as [w1 [w2 [_ [_ Hsplit]]]].
  assert (length w1 = 0%nat /\ length w2 = 0%nat) as [H1 H2].
  { apply (f_equal length) in Hsplit. rewrite !length_app in Hsplit. lia. }
  destruct w1; [|discriminate]. destruct w2; [|discriminate].
  rewrite app_nil_r in Hsplit. simpl in Hsplit. now symmetry.
Qed.

(** From such a state the loop does not end, whatever the fuel. *)
Lemma chunkText_loop_stuck r m :
  (0 < length r)%nat -> m < Z.of_nat (length r) ->
  JS.trim (JS.substring r (cutPoint r m) None) = r ->
  forall fuel acc, chunkText_loop fuel r m acc = None.
Proof.
  intros Hpos Hlong Hsame fuel.
  induction fuel as [|fuel IH]; intros acc; [reflexivity|].
  rewrite chunkText_loop_cut, Hsame by assumption. apply IH.
Qed.

(** The fuel of [chunkText] is enough: a result obtained with any fuel is
    obtained with [length remaining + 1]. *)
Lemma chunkText_loop_fuel_adequate fuel :
  forall r m acc chunks,
  chunkText_loop fuel r m acc = Some chunks ->
  chunkText_loop (S (length r)) r m acc = Some chunks.
Proof.
  induction fuel as [|fuel IH]; intros r m acc chunks Hrun; [discriminate|].
  destruct (Nat.eq_dec (length r) 0%nat) as [Hzero|Hpos].
  - destruct r; [|discriminate]. exact Hrun.
  - destruct (Z.le_gt_cases (Z.of_nat (length r)) m) as [Hfit|Hlong].
    + rewrite chunkText_loop_fits in * by lia. exact Hrun.
    + rewrite chunkText_loop_cut in * by lia.
      pose proof (trim_length (JS.substring r (cutPoint r m) None)) as Htrim.
      rewrite substring_suffix, length_drop in Htrim.
      rewrite <- substring_suffix in Htrim.
      destruct (Nat.eq_dec
                  (length (JS.trim (JS.substring r (cutPoint r m) None)))
                  (length r)) as [Hsame|Hshorter].
      * apply cut_same_length in Hsame.
        rewrite Hsame in Hrun.
        rewrite (chunkText_loop_stuck r m) in Hrun by (assumption || lia).
        discriminate.
      * apply IH in Hrun.
        eapply chunkText_loop_more_fuel; [exact Hrun | lia].
Qed.

Lemma startsWith_app pat s :
  JS.startsWith pat s = true -> take (length pat) s = pat.
Proof.
  revert s. induction pat as [|p pat IH]; intros s H; [reflexivity|].
  destruct s as [|c s]; [discriminate|]. simpl in H.
  apply andb_prop in H as [Hc Hs]. apply N.eqb_eq in Hc. subst c.
  simpl. f_equal. now apply IH.
Qed.

(** What [lastIndexOf] returns: [-1], or an index not after the start
    position at which the pattern occurs. *)
Lemma lastIndexOf_from_found s pat k :
  JS.lastIndexOf_from s pat k = -1
  \/ exists i, JS.lastIndexOf_from s pat k = Z.of_nat i /\ (i <= k)%nat
       /\ JS.startsWith pat (drop i s) = true.
Proof.
  induction k as [|k IH]; simpl.
  - destruct (JS.startsWith pat (drop 0 s)) eqn:H; [right; exists 0%nat; auto | now left].
  - destruct (JS.startsWith pat (drop (S k) s)) eqn:H.
    + right. exists (S k). auto.
    + destruct IH as [IH|[i [Hi [Hle Hat]]]]; [now left|].
      right. exists i. auto.
Qed.

Lemma lastIndexOf_found s pat pos :
  JS.lastIndexOf s pat pos = -1
  \/ exists i, JS.lastIndexOf s pat pos = Z.of_nat i
       /\ Z.of_nat i <= Z.max pos 0
       /\ JS.startsWith pat (drop i s) = true.
Proof.
  unfold JS.lastIndexOf. destruct (length s <? length pat)%nat; [now left|].
  destruct (lastIndexOf_from_found s pat
              (Z.to_nat (Z.min (Z.max pos 0)
                               (Z.of_nat (length s) - Z.of_nat (length pat)))))
    as [H|[i [Hi [Hle Hat]]]]; [now left|].
  right. exists i. split; [exact Hi|]. split; [lia | exact Hat].
Qed.

(** Trimming a string that ends with a whitespace character. *)
Lemma trimStart_snoc_ws x c :
  JS.is_whitespace c = true ->
  JS.trimStart (x ++ [c]) = JS.trimStart x ++ [c] \/ JS.trimStart (x ++ [c]) = [].
Proof.
  intros Hc. induction x as [|a x IH]; simpl.
  - rewrite Hc. now right.
  - destruct (JS.is_whitespace a); [exact IH | now left].
Qed.

Lemma trim_snoc_ws x c :
  JS.is_whitespace c = true ->
  JS.trim (x ++ [c]) = JS.trim x \/ JS.trim (x ++ [c]) = [].
Proof.
  intros Hc. unfold JS.trim.
  destruct (trimStart_snoc_ws x c Hc) as [-> | ->]; [left | now right].
  unfold JS.trimEnd. rewrite rev_app_distr. simpl. now rewrite Hc.
Qed.

Lemma take_found s pat i :
  JS.startsWith pat (drop i s) = true ->
  take (i + length pat) s = take i s ++ pat.
Proof.
  intros H. apply startsWith_app in H.
  rewrite <- (take_drop i s) at 1.
  destruct (Nat.le_gt_cases (length s) i) as [Hshort|Hin].
  - rewrite drop_ge in H by lia. rewrite take_nil in H. subst pat.
    rewrite app_nil_r, Nat.add_0_r. now rewrite take_drop.
  - rewrite take_app_ge by (rewrite length_take; lia).
    rewrite length_take. replace (i + length pat - i `min` length s)%nat
      with (length pat) by lia.
    now rewrite H.
Qed.

(** A chunk cut at a paragraph break is not longer than the index of the
    break; one cut at a sentence break is at most one longer. *)
Lemma cut_chunk_length r m :
  0 <= m -> m < Z.of_nat (length r) ->
  Z.of_nat (length (JS.trim (JS.substring r 0 (Some (cutPoint r m))))) <= m + 1.
Proof.
  intros Hm Hlong. rewrite substring_prefix. unfold cutPoint.
  destruct (lastIndexOf_found r [10; 10]%N m) as [Hp|[p [Hp [Hple Hpat]]]];
    rewrite Hp.
  - destruct (Z.ltb_spec m (2 * -1)) as [|_]; [lia|].
    destruct (lastIndexOf_found r (JS.lit ". ") m) as [Hs|[i [Hs [Hsle Hsat]]]];
      rewrite Hs.
    + destruct (Z.ltb_spec m (2 * -1)) as [|_]; [lia|].
      pose proof (trim_length (take (JS.clamp m (length r)) r)) as Ht.
      rewrite length_take in Ht. unfold JS.clamp in *. lia.
    + destruct (Z.ltb_spec m (2 * Z.of_nat i)) as [_|_].
      * apply take_found in Hsat. change (length (JS.lit ". ")) with 2%nat in Hsat.
        pose proof (startsWith_app (JS.lit ". ") (drop i r)) as Hlen.
        replace (JS.clamp (Z.of_nat i + 2) (length r)) with (i + 2)%nat.
        2:{ unfold JS.clamp.
            assert (i + 2 <= length r)%nat; [|lia].
            apply (f_equal length) in Hsat.
            rewrite length_app, !length_take in Hsat. simpl in Hsat. lia. }
        rewrite Hsat. change (JS.lit ". ") with ([46%N] ++ [32%N]).
        rewrite app_assoc.
        destruct (trim_snoc_ws (take i r ++ [46%N]) 32%N eq_refl) as [-> | ->];
          [|simpl; lia].
        pose proof (trim_length (take i r ++ [46%N])) as Ht.
        rewrite length_app, length_take in Ht. simpl in Ht. lia.
      * pose proof (trim_length (take (JS.clamp m (length r)) r)) as Ht.
        rewrite length_take in Ht. unfold JS.clamp in *. lia.
  - destruct (Z.ltb_spec m (2 * Z.of_nat p)) as [_|_].
    + apply take_found in Hpat. change (length [10%N; 10%N]) with 2%nat in Hpat.
      replace (JS.clamp (Z.of_nat p + 2) (length r)) with (p + 2)%nat.
      2:{ unfold JS.clamp.
          assert (p + 2 <= length r)%nat; [|lia].
          apply (f_equal length) in Hpat.
          rewrite length_app, !length_take in Hpat. simpl in Hpat. lia. }
      rewrite Hpat. change [10%N; 10%N] with ([10%N] ++ [10%N]).
      rewrite app_assoc.
      destruct (trim_snoc_ws (take p r ++ [10%N]) 10%N eq_refl) as [-> | ->];
        [|simpl; lia].
      destruct (trim_snoc_ws (take p r) 10%N eq_refl) as [-> | ->];
        [|simpl; lia].
      pose proof (trim_length (take p r)) as Ht.
      rewrite length_take in Ht. lia.
    + destruct (lastIndexOf_found r (JS.lit ". ") m) as [Hs|[i [Hs [Hsle Hsat]]]];
        rewrite Hs.
      * destruct (Z.ltb_spec m (2 * -1)) as [|_]; [lia|].
        pose proof (trim_length (take (JS.clamp m (length r)) r)) as Ht.
        rewrite length_take in Ht. unfold JS.clamp in *. lia.
      * destruct (Z.ltb_spec m (2 * Z.of_nat i)) as [_|_].
        -- apply take_found in Hsat. change (length (JS.lit ". ")) with 2%nat in Hsat.
           replace (JS.clamp (Z.of_nat i + 2) (length r)) with (i + 2)%nat.
           2:{ unfold JS.clamp.
               assert (i + 2 <= length r)%nat; [|lia].
               apply (f_equal length) in Hsat.
               rewrite length_app, !length_take in Hsat. simpl in Hsat. lia. }
           rewrite Hsat. change (JS.lit ". ") with ([46%N] ++ [32%N]).
           rewrite app_assoc.
           destruct (trim_snoc_ws (take i r ++ [46%N]) 32%N eq_refl) as [-> | ->];
             [|simpl; lia].
           pose proof (trim_length (take i r ++ [46%N])) as Ht.
           rewrite length_app, length_take in Ht. simpl in Ht. lia.
        -- pose proof (trim_length (take (JS.clamp m (length r)) r)) as Ht.
           rewrite length_take in Ht. unfold JS.clamp in *. lia.
Qed.

Lemma chunkText_loop_chunk_lengths fuel :
  forall r m acc chunks,
  0 <= m ->
  Forall (fun c => Z.of_nat (length c) <= m + 1) acc ->
  chunkText_loop fuel r m acc = Some chunks ->
  Forall (fun c => Z.of_nat (length c) <= m + 1) chunks.
Proof.
  induction fuel as [|fuel IH]; intros r m acc chunks Hm Hacc Hrun; [discriminate|].
  destruct (Nat.eq_dec (length r) 0%nat) as [Hzero|Hpos].
  - destruct r; [|discriminate]. injection Hrun as <-. exact Hacc.
  - destruct (Z.le_gt_cases (Z.of_nat (length r)) m) as [Hfit|Hlong].
    + rewrite chunkText_loop_fits in Hrun by lia. injection Hrun as <-.
      apply Forall_app. split; [exact Hacc|]. constructor; [lia | constructor].
    + rewrite chunkText_loop_cut in Hrun by lia.
      apply IH in Hrun; [exact Hrun | exact Hm |].
      apply Forall_app. split; [exact Hacc|].
      constructor; [|constructor]. apply cut_chunk_length; lia.
Qed.

(** X1. What holds in place of the limit: whenever [chunkText] returns, for
    a limit that is not negative, no chunk is longer than [maxLength + 1]. *)
Lemma chunkText_chunk_lengths t m chunks :
  0 <= m -> chunkText t m = Some chunks ->
  Forall (fun c => Z.of_nat (length c) <= m + 1) chunks.
Proof.
  intros Hm. unfold chunkText.
  destruct (Z.leb_spec (Z.of_nat (length t)) m) as [Hfit|Hlong].
  - intros [= <-]. constructor; [lia | constructor].
  - apply chunkText_loop_chunk_lengths; [exact Hm | constructor].
Qed.

End ChunkerBounds.

(** ** Claims about the chunker *)

(** C1 (does not hold).  With the block limit of 2000, a text whose first
    2000 characters are letters followed by a sentence break gives a first
    chunk of 2001 characters: [lastIndexOf] accepts a break that starts at
    index [maxLength], the cut is then at [maxLength + 2], and trimming
    removes only the space. *)
Theorem chunkText_chunk_exceeds_limit :
  length Sample.sentenceAtLimit = 2012%nat
  /\ exists first rest,
       chunkText Sample.sentenceAtLimit NOTION_BLOCK_LIMIT = Some (first :: rest)
       /\ length first = 2001%nat
       /\ Z.of_nat (length first) > NOTION_BLOCK_LIMIT.
Proof.
  split; [reflexivity|].
  exists (repeat 97%N 2000 ++ [46%N]), [repeat 98%N 10].
  split; [vm_compute; reflexivity|]. split; [reflexivity|]. vm_compute. reflexivity.
Qed.

(** C8. For every text and every limit of at least 1, [chunkText] returns,
    and the text is the returned chunks in their order with runs of
    whitespace before, between and after them; in particular the chunks
    hold the non-whitespace characters of the text, in the same order. *)
Theorem chunkText_reconstructs (t : jsstring) (limit : Z) :
  1 <= limit ->
  exists chunks,
    chunkText t limit = Some chunks
    /\ stitched t chunks
    /\ visible (concat chunks) = visible t.
Proof.
  intros Hlimit. destruct (chunkText_terminates t limit Hlimit) as [chunks Hrun].
  exists chunks. split; [exact Hrun|].
  pose proof (chunkText_stitched t limit chunks Hrun) as Hst.
  split; [exact Hst | now apply stitched_visible].
Qed.

Lemma chunkText_reconstructs_witness :
  exists chunks,
    chunkText (JS.lit "One.  Two three. Four") 6 = Some chunks
    /\ stitched (JS.lit "One.  Two three. Four") chunks
    /\ visible (concat chunks) = visible (JS.lit "One.  Two three. Four").
Proof. apply (chunkText_reconstructs (JS.lit "One.  Two three. Four") 6). lia. Defined.

(** C10. The chunking function of the earlier worker and the one of the
    current worker return the same result on every text and every limit. *)
Theorem chunkText_versions_agree (t : jsstring) (maxLength : Z) :
  Earlier.chunkText t maxLength = Current.chunkText t maxLength.
Proof.
  unfold Earlier.chunkText, Current.chunkText.
  destruct (Z.of_nat (length t) <=? maxLength); [reflexivity|].
  generalize (S (length t)), (@nil jsstring).
  intros fuel. revert t.
  induction fuel as [|fuel IH]; intros t acc; [reflexivity|].
  cbn [Earlier.chunkText_loop Current.chunkText_loop].
  destruct (0 <? length t)%nat; [|reflexivity].
  destruct (Z.of_nat (length t) <=? maxLength); [reflexivity|].
  apply IH.
Qed.

(** ** The source-text blocks of a turn *)

(** When the children of a turn toggle are read back and the second one is
    a toggle, the population writes under it the source-text blocks made of
    the chunks of the two texts. *)
Lemma populateSourceText_writes env token limit turnBlock summary w
    st txt turnChildren children toggle userChunks assistantChunks :
  notion env (notionCalls w) (GetChildren token (blockId turnBlock))
  = Response st txt (Some turnChildren) ->
  ok st = true ->
  results turnChildren = Some children ->
  children !! 1%nat = Some toggle ->
  blockType toggle = JS.lit "toggle" ->
  chunkText (sourceUser summary) limit = Some userChunks ->
  chunkText (sourceAssistant summary) limit = Some assistantChunks ->
  notionRequests
    (trace (snd (populateSourceText env token limit turnBlock (Some summary) w)))
  = notionRequests (trace w)
    ++ [ GetChildren token (blockId turnBlock);
         PatchChildren token (blockId toggle)
           (sourceTextChildren userChunks assistantChunks) ].
Proof.
  intros Hreply Hok Hresults Hsecond Htype Huser Hassistant.
  unfold populateSourceText, bind, fetchNotion, chunked.
  rewrite Hreply, Hok. cbn [negb]. rewrite Hresults, Hsecond.
  rewrite bool_decide_eq_true_2 by exact Htype.
  rewrite Huser, Hassistant. cbv beta.
  cbn [ret fst snd notionCalls anthropicCalls exportProgress exportHistory trace].
  destruct (notion env (S (notionCalls w)) _) as [failure|st2 txt2 body2];
    cbn [throw sleep emit snd trace];
    rewrite ?notionRequests_app, ?notionRequests_request, ?notionRequests_sleep;
    rewrite ?app_nil_r, <- ?app_assoc; reflexivity.
Qed.

(** C9 (as stated it does not hold).  A text of 4500 characters can give
    four assistant-text blocks: each of the two sentence breaks of the
    sample lies beyond half of the limit, so the first two chunks end
    there. *)
Lemma four_blocks_for_4500_characters :
  length Sample.twoSentenceBreaks = 4500%nat
  /\ exists chunks,
       chunkText Sample.twoSentenceBreaks NOTION_BLOCK_LIMIT = Some chunks
       /\ length (map chunkBlock chunks) = 4%nat
       /\ map length chunks = [1101; 1101; 2000; 296]%nat.
Proof.
  split; [reflexivity|].
  exists [ repeat 97%N 1100 ++ [46%N]; repeat 97%N 1100 ++ [46%N];
           repeat 97%N 2000; repeat 97%N 296 ].
  split; [vm_compute; reflexivity|]. split; reflexivity.
Qed.

(** C9 (amended).  For a turn toggle whose children are read back with a
    toggle in second place: when the assistant text has 4500 characters and
    no whitespace, the population writes exactly three assistant-text
    blocks, of 2000, 2000 and 500 characters, which together are the text;
    when the assistant text has 500 characters, it writes exactly one
    assistant-text block, holding the text. *)
Theorem source_text_blocks_of_a_turn env token turnBlock summary w
    st txt turnChildren children toggle userChunks :
  notion env (notionCalls w) (GetChildren token (blockId turnBlock))
  = Response st txt (Some turnChildren) ->
  ok st = true ->
  results turnChildren = Some children ->
  children !! 1%nat = Some toggle ->
  blockType toggle = JS.lit "toggle" ->
  chunkText (sourceUser summary) NOTION_BLOCK_LIMIT = Some userChunks ->
  let requests :=
    notionRequests
      (trace (snd (populateSourceText env token NOTION_BLOCK_LIMIT turnBlock
                     (Some summary) w))) in
  let assistantText := sourceAssistant summary in
  (length assistantText = 4500%nat -> no_ws assistantText ->
   exists c1 c2 c3,
     length c1 = 2000%nat /\ length c2 = 2000%nat /\ length c3 = 500%nat
     /\ c1 ++ c2 ++ c3 = assistantText
     /\ requests
        = notionRequests (trace w)
          ++ [ GetChildren token (blockId turnBlock);
               PatchChildren token (blockId toggle)
                 ([boldLabel "User:"] ++ map chunkBlock userChunks
                  ++ [boldLabel "Assistant:";
                      chunkBlock c1; chunkBlock c2; chunkBlock c3]) ])
  /\ (length assistantText = 500%nat ->
      requests
      = notionRequests (trace w)
        ++ [ GetChildren token (blockId turnBlock);
             PatchChildren token (blockId toggle)
               ([boldLabel "User:"] ++ map chunkBlock userChunks
                ++ [boldLabel "Assistant:"; chunkBlock assistantText]) ]).
Proof.
  intros Hreply Hok Hresults Hsecond Htype Huser requests assistantText.
  split.
  - intros Hlen Hletters.
    exists (take 2000 assistantText), (take 2000 (drop 2000 assistantText)),
           (drop 4000 assistantText).
    rewrite !length_take, !length_drop, Hlen.
    split; [reflexivity|]. split; [reflexivity|]. split; [reflexivity|].
    split.
    + rewrite <- (take_drop 2000 assistantText) at 4.
      f_equal. rewrite <- (take_drop 2000 (drop 2000 assistantText)) at 2.
      f_equal. now rewrite drop_drop.
    + unfold requests.
      rewrite (populateSourceText_writes env token NOTION_BLOCK_LIMIT turnBlock
                 summary w st txt turnChildren children toggle userChunks
                 _ Hreply Hok Hresults Hsecond Htype Huser
                 (chunkText_4500 assistantText Hlen Hletters)).
      reflexivity.
  - intros Hlen. unfold requests.
    rewrite (populateSourceText_writes env token NOTION_BLOCK_LIMIT turnBlock
               summary w st txt turnChildren children toggle userChunks
               [assistantText] Hreply Hok Hresults Hsecond Htype Huser).
    + reflexivity.
    + apply chunkText_fits. fold assistantText. unfold NOTION_BLOCK_LIMIT. lia.
Qed.

(** ** The claims at sample inputs *)


Lemma update_without_new_turns_witness :
  fst (handleFullExport Sample.envUnavailable (Sample.update 3) Sample.world)
  = Threw (JsError (JS.lit "No new turns to export")).
Proof.
  rewrite (update_without_new_turns_is_an_error Sample.envUnavailable
             (Sample.update 3) (Sample.record 3) Sample.world);
    [reflexivity | reflexivity | reflexivity | simpl; lia].
Defined.

Lemma failed_summarization_yields_sentinel_witness :
  exists summaries w',
    summarize_loop Sample.envUnavailable (JS.lit "key") 0 2 2
      ([Sample.turn 1] ++ Sample.turn 2 :: []) 0 [] Sample.world
    = (Returned summaries, w')
    /\ length summaries = length ([Sample.turn 1] ++ Sample.turn 2 :: [])
    /\ Forall2 summaryOf ([Sample.turn 1] ++ Sample.turn 2 :: []) summaries
    /\ exists s,
         summaries !! length [Sample.turn 1] = Some s
         /\ oneLine s = Some (JS.lit "Turn " ++ JS.decimal (turnNumber (Sample.turn 2))
                              ++ JS.lit " (summary failed)")
         /\ sourceUser s = user (Sample.turn 2)
         /\ sourceAssistant s = assistant (Sample.turn 2).
Proof.
  eapply (failed_summarization_yields_sentinel Sample.envUnavailable
            (JS.lit "key") 0 2 2 [Sample.turn 1] (Sample.turn 2) [] Sample.world);
    vm_compute; reflexivity.
Defined.


Lemma handleSummarization_model_fallback_witness :
  (exists k, (1 <= k <= 3)%nat
     /\ requestedModels
          (trace (snd (handleSummarization Sample.envUnavailable (Sample.turn 1)
                         (JS.lit "key") Sample.world)))
        = requestedModels (trace Sample.world)
          ++ concat (replicate k modelsToTry))
  /\ exists w',
       handleSummarization Sample.envThirdModel (Sample.turn 1) (JS.lit "key")
         Sample.world
       = (Returned (mkTurnSummary 1 (Some (JS.lit "A greeting"))
                      (Some (JS.lit "A greeting. The user greets the assistant."))
                      (JS.lit "question") (JS.lit "answer")), w')
       /\ skippedModels (trace w')
          = [JS.lit "claude-3-5-sonnet-20241022"; JS.lit "claude-3-5-sonnet-20240620"]
       /\ requestedModels (trace w')
          = [JS.lit "claude-3-5-sonnet-20241022"; JS.lit "claude-3-5-sonnet-20240620";
             JS.lit "claude-3-opus-20240229"].
Proof.
  split.
  - eapply (proj1 (handleSummarization_model_fallback Sample.envUnavailable
                     (Sample.turn 1) (JS.lit "key") Sample.world)
              (JsError (JS.lit "Model not found: claude-3-haiku-20240307"))).
    vm_compute. reflexivity.
  - exact (proj2 (handleSummarization_model_fallback Sample.envThirdModel
                    (Sample.turn 1) (JS.lit "key") Sample.world)
             (JS.lit "claude-3-5-sonnet-20241022")
             (JS.lit "claude-3-5-sonnet-20240620")
             (JS.lit "claude-3-opus-20240229")
             [JS.lit "claude-3-sonnet-20240229"; JS.lit "claude-3-haiku-20240307"]
             (JS.lit "Not Found") None (JS.lit "Not Found") None
             200%N (JS.lit "OK")
             (mkAnthropicJson None None
                (Some (JS.lit "A greeting. The user greets the assistant.")))
             (JS.lit "A greeting. The user greets the assistant.")
             eq_refl eq_refl eq_refl eq_refl eq_refl eq_refl).
Defined.

Lemma source_text_blocks_of_a_turn_witness :
  exists c1 c2 c3,
    length c1 = 2000%nat /\ length c2 = 2000%nat /\ length c3 = 500%nat
    /\ c1 ++ c2 ++ c3 = Sample.letters4500
    /\ notionRequests
         (trace (snd (populateSourceText Sample.envUnavailable (JS.lit "token")
                        NOTION_BLOCK_LIMIT (Sample.toggleInfo "first")
                        (Some Sample.longSummary) Sample.world)))
       = notionRequests (trace Sample.world)
         ++ [ GetChildren (JS.lit "token") (blockId (Sample.toggleInfo "first"));
              PatchChildren (JS.lit "token") (blockId (Sample.toggleInfo "second"))
                ([boldLabel "User:"] ++ map chunkBlock [JS.lit "question"]
                 ++ [boldLabel "Assistant:";
                     chunkBlock c1; chunkBlock c2; chunkBlock c3]) ].
Proof.
  apply (proj1 (source_text_blocks_of_a_turn Sample.envUnavailable (JS.lit "token")
                  (Sample.toggleInfo "first") Sample.longSummary Sample.world
                  200%N (JS.lit "OK")
                  (mkNotionJson None
                     (Some [Sample.toggleInfo "first"; Sample.toggleInfo "second"]) [])
                  [Sample.toggleInfo "first"; Sample.toggleInfo "second"]
                  (Sample.toggleInfo "second") [JS.lit "question"]
                  eq_refl eq_refl eq_refl eq_refl eq_refl eq_refl)).
  - reflexivity.
  - apply no_ws_forallb. vm_compute. reflexivity.
Defined.

(** * Further properties *)

(** ** The chunker *)

Lemma chunkText_chunk_lengths_witness :
  Forall (fun c => Z.of_nat (length c) <= 4 + 1)
         [JS.lit "abcd."; JS.lit "efgh"].
Proof.
  apply (chunkText_chunk_lengths (JS.lit "abcd. efgh") 4); [lia | reflexivity].
Defined.

Section Trimming.

Lemma starts_visible_trimStart s : starts_visible (JS.trimStart s).
Proof.
  induction s as [|c s IH]; simpl; [exact I|].
  destruct (JS.is_whitespace c) eqn:Hc; [exact IH | exact Hc].
Qed.

Lemma trimStart_starts_visible s : starts_visible s -> JS.trimStart s = s.
Proof. destruct s as [|c s]; simpl; [reflexivity|]. now intros ->. Qed.

Lemma trimStart_snoc_visible y c :
  JS.is_whitespace c = false -> exists z, JS.trimStart (y ++ [c]) = z ++ [c].
Proof.
  intros Hc. induction y as [|a y [z Hz]]; simpl.
  - rewrite Hc. now exists [].
  - destruct (JS.is_whitespace a); [now exists z | now exists (a :: y)].
Qed.

Lemma starts_visible_trimEnd s : starts_visible s -> starts_visible (JS.trimEnd s).
Proof.
  destruct s as [|c s]; [intros _; exact I|]. simpl. intros Hc.
  unfold JS.trimEnd. simpl rev.
  destruct (trimStart_snoc_visible (rev s) c Hc) as [z ->].
  rewrite rev_app_distr. exact Hc.
Qed.

Lemma trimEnd_fixed s : starts_visible (rev s) -> JS.trimEnd s = s.
Proof.
  intros H. unfold JS.trimEnd. rewrite (trimStart_starts_visible _ H).
  apply rev_involutive.
Qed.

Lemma ends_visible_trimEnd s : starts_visible (rev (JS.trimEnd s)).
Proof. unfold JS.trimEnd. rewrite rev_involutive. apply starts_visible_trimStart. Qed.

(** Trimming twice is trimming once. *)
Lemma trim_idempotent s : JS.trim (JS.trim s) = JS.trim s.
Proof.
  unfold JS.trim at 1.
  rewrite (trimStart_starts_visible (JS.trim s))
    by (apply starts_visible_trimEnd, starts_visible_trimStart).
  apply trimEnd_fixed. unfold JS.trim. apply ends_visible_trimEnd.
Qed.

End Trimming.

Section ChunkerEdges.

Lemma cutPoint_zero r : cutPoint r 0 = 0.
Proof.
  unfold cutPoint.
  pose proof (lastIndexOf_found r [10; 10]%N 0) as Hp.
  pose proof (lastIndexOf_found r (JS.lit ". ") 0) as Hs.
  destruct (Z.ltb_spec 0 (2 * JS.lastIndexOf r [10; 10]%N 0)).
  { destruct Hp as [Hp|[p [Hp [Hle _]]]]; lia. }
  destruct (Z.ltb_spec 0 (2 * JS.lastIndexOf r (JS.lit ". ") 0)).
  { destruct Hs as [Hs|[i [Hs [Hle _]]]]; lia. }
  reflexivity.
Qed.

Lemma chunkText_loop_zero_stuck r :
  r <> [] -> JS.trim r = r ->
  forall fuel acc, chunkText_loop fuel r 0 acc = None.
Proof.
  intros Hne Hfixed.
  assert (0 < length r)%nat as Hpos by (destruct r; [contradiction | simpl; lia]).
  apply chunkText_loop_stuck; [exact Hpos | lia |].
  rewrite cutPoint_zero, substring_suffix.
  replace (JS.clamp 0 (length r)) with 0%nat by (unfold JS.clamp; lia).
  rewrite drop_0. exact Hfixed.
Qed.

(** X2. With the limit 0 the chunking loop never ends on a text that holds
    a character other than whitespace: whatever the number of iterations
    allowed, no result is reached. *)
Theorem chunkText_zero_limit_never_ends (t : jsstring) :
  JS.trim t <> [] ->
  chunkText t 0 = None
  /\ forall fuel, chunkText_loop fuel t 0 [] = None.
Proof.
  intros Hvisible.
  assert (t <> []) as Hne by (intros ->; now apply Hvisible).
  assert (0 < length t)%nat as Hpos by (destruct t; [contradiction | simpl; lia]).
  assert (forall fuel acc, chunkText_loop fuel t 0 acc = None) as Hloop.
  { intros [|fuel] acc; [reflexivity|].
    rewrite chunkText_loop_cut by lia.
    rewrite cutPoint_zero, substring_suffix.
    replace (JS.clamp 0 (length t)) with 0%nat by (unfold JS.clamp; lia).
    rewrite drop_0.
    apply chunkText_loop_zero_stuck; [exact Hvisible | apply trim_idempotent]. }
  split; [|intros fuel; apply Hloop].
  unfold chunkText.
  destruct (Z.leb_spec (Z.of_nat (length t)) 0) as [|_]; [lia | apply Hloop].
Qed.

Lemma chunkText_zero_limit_never_ends_witness :
  chunkText (JS.lit " a ") 0 = None
  /\ forall fuel, chunkText_loop fuel (JS.lit " a ") 0 [] = None.
Proof.
  apply (chunkText_zero_limit_never_ends (JS.lit " a ")). discriminate.
Defined.

Lemma chunkText_loop_trimmed fuel :
  forall r m acc chunks,
  JS.trim r = r \/ m < Z.of_nat (length r) ->
  Forall (fun c => JS.trim c = c) acc ->
  chunkText_loop fuel r m acc = Some chunks ->
  Forall (fun c => JS.trim c = c) chunks.
Proof.
  induction fuel as [|fuel IH]; intros r m acc chunks Hr Hacc Hrun; [discriminate|].
  destruct (Nat.eq_dec (length r) 0%nat) as [Hzero|Hpos].
  - destruct r; [|discriminate]. injection Hrun as <-. exact Hacc.
  - destruct (Z.le_gt_cases (Z.of_nat (length r)) m) as [Hfit|Hlong].
    + rewrite chunkText_loop_fits in Hrun by lia. injection Hrun as <-.
      apply Forall_app. split; [exact Hacc|].
      constructor; [|constructor]. destruct Hr as [Hr|Hr]; [exact Hr | lia].
    + rewrite chunkText_loop_cut in Hrun by lia.
      apply IH in Hrun; [exact Hrun | left; apply trim_idempotent |].
      apply Forall_app. split; [exact Hacc|].
      constructor; [apply trim_idempotent | constructor].
Qed.

(** X3. When the text is longer than the limit, every chunk that
    [chunkText] returns is free of leading and trailing whitespace. *)
Theorem chunks_of_a_long_text_are_trimmed (t : jsstring) (m : Z) chunks :
  m < Z.of_nat (length t) ->
  chunkText t m = Some chunks ->
  Forall (fun c => JS.trim c = c) chunks.
Proof.
  intros Hlong. unfold chunkText.
  destruct (Z.leb_spec (Z.of_nat (length t)) m) as [|_]; [lia|].
  apply chunkText_loop_trimmed; [now right | constructor].
Qed.

Lemma chunks_of_a_long_text_are_trimmed_witness :
  Forall (fun c => JS.trim c = c) [JS.lit "Hello"; JS.lit "world."; JS.lit "Bye now"].
Proof.
  apply (chunks_of_a_long_text_are_trimmed (JS.lit "  Hello world.  Bye now  ") 8);
    [simpl; lia | reflexivity].
Defined.

End ChunkerEdges.

(** ** Grouping the extracted messages into turns *)

Section Grouping.

Import Content.

Lemma visit_user g m :
  role m = JS.lit "user" ->
  visit g m =
  mkGrouping
    (if hasContent (currentPair g) then pairs g ++ [currentPair g] else pairs g)
    (mkTurn (nextNumber g) (content m) []) (nextNumber g + 1).
Proof. intros Hrole. unfold visit. now rewrite bool_decide_eq_true_2. Qed.

Lemma visit_assistant g m :
  role m = JS.lit "assistant" ->
  visit g m =
  mkGrouping (pairs g)
    (mkTurn (turnNumber (currentPair g)) (user (currentPair g)) (content m))
    (nextNumber g).
Proof.
  intros Hrole. unfold visit.
  rewrite bool_decide_eq_false_2 by (rewrite Hrole; discriminate).
  now rewrite bool_decide_eq_true_2.
Qed.

Lemma hasContent_user n u a : u <> [] -> hasContent (mkTurn n u a) = true.
Proof. destruct u; [contradiction | reflexivity]. Qed.

Lemma hasContent_pair cur : user cur <> [] -> hasContent cur = true.
Proof. destruct cur as [n u a]. apply hasContent_user. Qed.

Lemma grouping_exchanges qas :
  Forall isExchange qas ->
  forall acc cur n,
  hasContent cur = true ->
  finish (fold_left visit (transcript qas) (mkGrouping acc cur n))
  = acc ++ cur :: numbered n qas.
Proof.
  induction 1 as [|[q a] qas [Hq [Ha Hne]] _ IH]; intros acc cur n Hcur.
  - simpl. unfold finish. simpl. now rewrite Hcur.
  - simpl in Hq, Ha, Hne. simpl transcript. cbn [fold_left].
    rewrite (visit_user _ q Hq). cbn [currentPair pairs nextNumber]. rewrite Hcur.
    rewrite (visit_assistant _ a Ha). cbn [currentPair pairs nextNumber turnNumber user].
    rewrite IH by now apply hasContent_user.
    rewrite <- app_assoc. reflexivity.
Qed.

(** X4. Grouping the messages of a conversation made of exchanges (a user
    message with some text, then an assistant message) gives one turn per
    exchange, in order, with the two texts of the exchange, numbered from
    1. *)
Theorem groupTurns_of_exchanges qas :
  Forall isExchange qas -> groupTurns (transcript qas) = numbered 1 qas.
Proof.
  intros Hall. unfold groupTurns.
  destruct Hall as [|[q a] qas [Hq [Ha Hne]] Hall]; [reflexivity|].
  simpl in Hq, Ha, Hne. simpl transcript. cbn [fold_left].
  rewrite (visit_user _ q Hq). cbn [currentPair pairs nextNumber hasContent user assistant].
  rewrite (visit_assistant _ a Ha). cbn [currentPair pairs nextNumber turnNumber user].
  rewrite (grouping_exchanges qas Hall) by now apply hasContent_user.
  reflexivity.
Qed.

Lemma groupTurns_of_exchanges_witness :
  groupTurns
    (transcript
       [ (mkMessage (JS.lit "user") (JS.lit "Hi") 0,
          mkMessage (JS.lit "assistant") (JS.lit "Hello") 1);
         (mkMessage (JS.lit "user") (JS.lit "Bye") 2,
          mkMessage (JS.lit "assistant") [] 3) ])
  = [ mkTurn 1 (JS.lit "Hi") (JS.lit "Hello"); mkTurn 2 (JS.lit "Bye") [] ].
Proof.
  apply (groupTurns_of_exchanges
           [ (mkMessage (JS.lit "user") (JS.lit "Hi") 0,
              mkMessage (JS.lit "assistant") (JS.lit "Hello") 1);
             (mkMessage (JS.lit "user") (JS.lit "Bye") 2,
              mkMessage (JS.lit "assistant") [] 3) ]).
  repeat constructor; discriminate.
Defined.

Lemma grouping_numbers ts :
  Forall (fun m => role m = JS.lit "user" -> content m <> []) ts ->
  forall acc cur n,
  user cur <> [] ->
  let turns := finish (fold_left visit ts (mkGrouping acc cur n)) in
  map turnNumber turns
  = map turnNumber acc ++ turnNumber cur
    :: map (fun k => n + N.of_nat k)%N (seq 0 (length (userMessages ts)))
  /\ map user turns
     = map user acc ++ user cur :: map content (userMessages ts).
Proof.
  induction 1 as [|m ts Hm _ IH]; intros acc cur n Hcur.
  - cbn. unfold finish. cbn [currentPair pairs].
    rewrite (hasContent_pair _ Hcur).
    rewrite !map_app. split; reflexivity.
  - cbn [fold_left]. unfold userMessages. cbn [List.filter]. fold (userMessages ts).
    destruct (decide (role m = JS.lit "user")) as [Huser|Hother].
    + rewrite (bool_decide_eq_true_2 _ Huser), (visit_user _ m Huser).
      cbn [currentPair pairs nextNumber].
      rewrite (hasContent_pair _ Hcur).
      destruct (IH (acc ++ [cur]) (mkTurn n (content m) []) (n + 1)%N (Hm Huser))
        as [Hnum Husr].
      cbn zeta in Hnum, Husr |- *. rewrite Hnum, Husr.
      rewrite !map_app, <- !app_assoc. cbn [map app length seq turnNumber user].
      rewrite <- seq_shift, map_map.
      split; [|reflexivity].
      do 3 f_equal; [lia|]. apply map_ext. intros k. lia.
    + rewrite (bool_decide_eq_false_2 _ Hother).
      assert (exists cur', visit (mkGrouping acc cur n) m = mkGrouping acc cur' n
                /\ turnNumber cur' = turnNumber cur /\ user cur' = user cur)
        as [cur' [-> [Hn Hu]]].
      { unfold visit. rewrite (bool_decide_eq_false_2 _ Hother).
        destruct (bool_decide (role m = JS.lit "assistant")); eauto. }
      destruct (IH acc cur' n ltac:(now rewrite Hu)) as [Hnum Husr].
      cbn zeta in Hnum, Husr |- *. now rewrite Hnum, Husr, Hn, Hu.
Qed.

(** X5. When the extracted messages start with a user message and every
    user message has some text, grouping yields exactly one turn per user
    message, in order, with that message as its user text; the turn at
    position [i] (from 0) has the number [i + 1]. *)
Theorem groupTurns_numbers_the_user_messages first rest :
  role first = JS.lit "user" ->
  Forall (fun m => role m = JS.lit "user" -> content m <> []) (first :: rest) ->
  let turns := groupTurns (first :: rest) in
  map user turns = map content (userMessages (first :: rest))
  /\ map turnNumber turns
     = map (fun i => N.of_nat (S i)) (seq 0 (length (userMessages (first :: rest)))).
Proof.
  intros Hfirst Hall turns. subst turns. unfold groupTurns.
  cbn [fold_left]. rewrite (visit_user _ first Hfirst).
  cbn [currentPair pairs nextNumber hasContent user assistant].
  inversion Hall as [|? ? Hne Hrest]; subst.
  destruct (grouping_numbers rest Hrest [] (mkTurn 1 (content first) []) (1 + 1)%N
              (Hne Hfirst)) as [Hnum Husr].
  cbn zeta in Hnum, Husr. rewrite Hnum, Husr.
  unfold userMessages. cbn [List.filter].
  rewrite (bool_decide_eq_true_2 _ Hfirst). fold (userMessages rest).
  cbn [map app length seq turnNumber user].
  split; [reflexivity|].
  f_equal. rewrite <- seq_shift, map_map. apply map_ext. intros k. lia.
Qed.

Lemma groupTurns_numbers_the_user_messages_witness :
  let turns :=
    groupTurns [ mkMessage (JS.lit "user") (JS.lit "Hi") 0;
                 mkMessage (JS.lit "user") (JS.lit "Anyone?") 1;
                 mkMessage (JS.lit "assistant") (JS.lit "Hello") 2 ] in
  map user turns = [JS.lit "Hi"; JS.lit "Anyone?"]
  /\ map turnNumber turns = [1; 2]%N.
Proof.
  apply (groupTurns_numbers_the_user_messages
           (mkMessage (JS.lit "user") (JS.lit "Hi") 0)
           [ mkMessage (JS.lit "user") (JS.lit "Anyone?") 1;
             mkMessage (JS.lit "assistant") (JS.lit "Hello") 2 ]).
  - reflexivity.
  - repeat constructor; discriminate.
Defined.

(** X6. Of two assistant messages in a row only the second is kept: the
    grouping is the same as if the first had not been extracted. *)
Theorem groupTurns_keeps_the_last_assistant_message before a1 a2 after :
  role a1 = JS.lit "assistant" -> role a2 = JS.lit "assistant" ->
  groupTurns (before ++ a1 :: a2 :: after) = groupTurns (before ++ a2 :: after).
Proof.
  intros H1 H2. unfold groupTurns. rewrite !fold_left_app. cbn [fold_left].
  rewrite (visit_assistant _ a1 H1), !(visit_assistant _ a2 H2). reflexivity.
Qed.

Lemma groupTurns_keeps_the_last_assistant_message_witness :
  groupTurns ([mkMessage (JS.lit "user") (JS.lit "Hi") 0]
              ++ mkMessage (JS.lit "assistant") (JS.lit "Thinking") 1
                 :: mkMessage (JS.lit "assistant") (JS.lit "Hello") 2 :: [])
  = [mkTurn 1 (JS.lit "Hi") (JS.lit "Hello")].
Proof.
  rewrite (groupTurns_keeps_the_last_assistant_message
             [mkMessage (JS.lit "user") (JS.lit "Hi") 0]
             (mkMessage (JS.lit "assistant") (JS.lit "Thinking") 1)
             (mkMessage (JS.lit "assistant") (JS.lit "Hello") 2) []
             eq_refl eq_refl).
  reflexivity.
Defined.

End Grouping.

(** ** The page id of a URL *)

Section PageId.

Import Popup.

Lemma hexRun_found n :
  forall s run rest,
  hexRun n s = Some (run, rest) ->
  s = run ++ rest /\ length run = n /\ Forall (fun c => isHex c = true) run.
Proof.
  induction n as [|n IH]; intros s run rest; simpl.
  - intros [= <- <-]. repeat split. constructor.
  - destruct s as [|c s]; [discriminate|].
    destruct (isHex c) eqn:Hc; [|discriminate].
    destruct (hexRun n s) as [[run' rest']|] eqn:Hrun; [|discriminate].
    intros [= <- <-]. destruct (IH _ _ _ Hrun) as [-> [Hlen Hall]].
    repeat split; [simpl; now rewrite Hlen | now constructor].
Qed.

Lemma hexRun_complete run :
  Forall (fun c => isHex c = true) run ->
  forall rest, hexRun (length run) (run ++ rest) = Some (run, rest).
Proof.
  induction 1 as [|c run Hc _ IH]; intros rest; simpl; [reflexivity|].
  now rewrite Hc, IH.
Qed.

Lemma hyphen_found s s' : hyphen s = Some s' -> s = 45%N :: s'.
Proof.
  destruct s as [|c s]; [discriminate|]. unfold hyphen.
  destruct (N.eqb_spec c 45) as [->|_]; [|discriminate].
  now intros [= <-].
Qed.

Lemma unhyphenated_hex run :
  Forall (fun c => isHex c = true) run ->
  List.filter (fun c => negb (c =? 45)%N) run = run.
Proof.
  induction 1 as [|c run Hc _ IH]; simpl; [reflexivity|].
  destruct (N.eqb_spec c 45) as [->|_]; [discriminate Hc | simpl; now rewrite IH].
Qed.

Lemma hyphenated_found s m :
  hyphenated s = Some m ->
  exists rest,
    s = m ++ rest
    /\ length (List.filter (fun c => negb (c =? 45)%N) m) = 32%nat
    /\ Forall (fun c => isHex c = true) (List.filter (fun c => negb (c =? 45)%N) m).
Proof.
  unfold hyphenated.
  destruct (hexRun 8 s) as [[g1 s1]|] eqn:H1; [|discriminate]. cbn -[hyphen hexRun].
  destruct (hyphen s1) as [s1'|] eqn:D1; [|discriminate]. cbn -[hyphen hexRun].
  destruct (hexRun 4 s1') as [[g2 s2]|] eqn:H2; [|discriminate]. cbn -[hyphen hexRun].
  destruct (hyphen s2) as [s2'|] eqn:D2; [|discriminate]. cbn -[hyphen hexRun].
  destruct (hexRun 4 s2') as [[g3 s3]|] eqn:H3; [|discriminate]. cbn -[hyphen hexRun].
  destruct (hyphen s3) as [s3'|] eqn:D3; [|discriminate]. cbn -[hyphen hexRun].
  destruct (hexRun 4 s3') as [[g4 s4]|] eqn:H4; [|discriminate]. cbn -[hyphen hexRun].
  destruct (hyphen s4) as [s4'|] eqn:D4; [|discriminate]. cbn -[hyphen hexRun].
  destruct (hexRun 12 s4') as [[g5 s5]|] eqn:H5; [|discriminate]. cbn -[hyphen hexRun].
  intros [= <-].
  apply hexRun_found in H1 as [-> [L1 A1]]. apply hyphen_found in D1 as ->.
  apply hexRun_found in H2 as [-> [L2 A2]]. apply hyphen_found in D2 as ->.
  apply hexRun_found in H3 as [-> [L3 A3]]. apply hyphen_found in D3 as ->.
  apply hexRun_found in H4 as [-> [L4 A4]]. apply hyphen_found in D4 as ->.
  apply hexRun_found in H5 as [-> [L5 A5]].
  exists s5. split.
  { repeat first [rewrite <- app_assoc | rewrite <- app_comm_cons]. reflexivity. }
  repeat (rewrite List.filter_app; cbn [List.filter N.eqb Pos.eqb negb]).
  rewrite !unhyphenated_hex by assumption.
  split; [rewrite !length_app; lia | now repeat apply Forall_app_2].
Qed.

Lemma matchHere_found s m :
  matchHere s = Some m ->
  exists rest,
    s = m ++ rest
    /\ length (List.filter (fun c => negb (c =? 45)%N) m) = 32%nat
    /\ Forall (fun c => isHex c = true) (List.filter (fun c => negb (c =? 45)%N) m).
Proof.
  unfold matchHere. destruct (hexRun 32 s) as [[run rest]|] eqn:Hrun.
  - intros [= <-]. apply hexRun_found in Hrun as [-> [Hlen Hall]].
    exists rest. rewrite unhyphenated_hex by assumption. auto.
  - apply hyphenated_found.
Qed.

Lemma firstMatch_found s :
  forall m, firstMatch s = Some m ->
  exists before after,
    s = before ++ m ++ after
    /\ length (List.filter (fun c => negb (c =? 45)%N) m) = 32%nat
    /\ Forall (fun c => isHex c = true) (List.filter (fun c => negb (c =? 45)%N) m).
Proof.
  induction s as [|c s IH]; intros m.
  - discriminate.
  - cbn [firstMatch]. destruct (matchHere (c :: s)) as [m'|] eqn:Hm.
    + intros [= <-]. apply matchHere_found in Hm as [rest [Hs Hrest]].
      exists [], rest. auto.
    + intros Hlater. apply IH in Hlater as [before [after [-> Hrest]]].
      exists (c :: before), after. auto.
Qed.

(** X7. The page id extracted from a URL, when there is one, is made of
    exactly 32 hexadecimal digits, and it is a part of the URL with its
    hyphens removed. *)
Theorem extractPageId_is_32_hex_digits url id :
  extractPageId url = Some id ->
  length id = 32%nat
  /\ Forall (fun c => isHex c = true) id
  /\ exists before m after,
       url = before ++ m ++ after
       /\ id = List.filter (fun c => negb (c =? 45)%N) m.
Proof.
  unfold extractPageId. destruct (firstMatch url) as [m|] eqn:Hm; [|discriminate].
  intros [= <-]. apply firstMatch_found in Hm as [before [after [Hurl [Hlen Hall]]]].
  split; [exact Hlen|]. split; [exact Hall|]. exists before, m, after. auto.
Qed.

Lemma extractPageId_is_32_hex_digits_witness :
  length (JS.lit "0123456789abcdef0123456789ABCDEF") = 32%nat
  /\ Forall (fun c => isHex c = true) (JS.lit "0123456789abcdef0123456789ABCDEF")
  /\ exists before m after,
       JS.lit "https://www.notion.so/Notes-01234567-89ab-cdef-0123-456789ABCDEF?v=1"
       = before ++ m ++ after
       /\ JS.lit "0123456789abcdef0123456789ABCDEF"
          = List.filter (fun c => negb (c =? 45)%N) m.
Proof.
  apply (extractPageId_is_32_hex_digits
           (JS.lit "https://www.notion.so/Notes-01234567-89ab-cdef-0123-456789ABCDEF?v=1")).
  vm_compute. reflexivity.
Defined.

Lemma firstMatch_here s m : matchHere s = Some m -> firstMatch s = Some m.
Proof.
  destruct s as [|c s]; [discriminate|].
  intros H. cbn [firstMatch]. now rewrite H.
Qed.

(** X8. A URL that holds 32 hexadecimal digits in a row has a page id. *)
Theorem extractPageId_finds_32_hex_digits before digits after :
  length digits = 32%nat ->
  Forall (fun c => isHex c = true) digits ->
  exists id, extractPageId (before ++ digits ++ after) = Some id.
Proof.
  intros Hlen Hall. unfold extractPageId.
  assert (exists m, firstMatch (before ++ digits ++ after) = Some m) as [m ->];
    [|eauto].
  induction before as [|c before IH].
  - exists digits. simpl app. apply firstMatch_here.
    unfold matchHere. rewrite <- Hlen. now rewrite hexRun_complete.
  - destruct IH as [m IH]. change ((c :: before) ++ digits ++ after)
      with (c :: (before ++ digits ++ after)).
    cbn [firstMatch].
    destruct (matchHere (c :: before ++ digits ++ after)); eauto.
Qed.

Lemma extractPageId_finds_32_hex_digits_witness :
  exists id,
    extractPageId (JS.lit "https://notion.so/ws/"
                   ++ JS.lit "0123456789abcdef0123456789abcdef" ++ JS.lit "#top")
    = Some id.
Proof.
  apply (extractPageId_finds_32_hex_digits (JS.lit "https://notion.so/ws/")
           (JS.lit "0123456789abcdef0123456789abcdef") (JS.lit "#top")).
  - reflexivity.
  - apply Forall_forall. intros c Hc. apply list_elem_of_In in Hc.
    vm_compute in Hc. repeat (destruct Hc as [<-|Hc]; [reflexivity|]). contradiction.
Defined.

End PageId.

(** ** The waits of the retry wrapper *)

Section RetryWaits.

Lemma delays_app a b : delays (a ++ b) = delays a ++ delays b.
Proof. apply omap_app. Qed.

Lemma retry_loop_delays {A} env (fn : M A) d :
  obeys (keeps (fun w => delays (trace w))) fn ->
  forall iterations attempt maxRetries lastError w,
  (attempt + iterations = maxRetries)%nat ->
  exists j, (j <= iterations - 1)%nat
    /\ delays (trace (snd (retry_loop env fn iterations attempt maxRetries d
                             lastError w)))
       = delays (trace w) ++ map (fun k => d * 2 ^ Z.of_nat k) (seq attempt j).
Proof.
  intros Hfn. induction iterations as [|n IH];
    intros attempt maxRetries lastError w Hsum.
  - exists 0%nat. simpl. now rewrite app_nil_r.
  - rewrite retry_loop_step. specialize (Hfn w). unfold keeps in Hfn.
    destruct (fn w) as [[a|[msg|]|] w1]; cbn [snd] in Hfn |- *;
      try (exists 0%nat; cbn [seq map]; rewrite app_nil_r; split; [lia | exact Hfn]).
    destruct (negb (shouldRetry msg)); cbn [orb];
      [exists 0%nat; cbn [seq map snd]; rewrite app_nil_r; split; [lia | exact Hfn]|].
    destruct (Z.eqb_spec (Z.of_nat attempt) (Z.of_nat maxRetries - 1)) as [Hlast|Hmore];
      [exists 0%nat; cbn [seq map snd]; rewrite app_nil_r; split; [lia | exact Hfn]|].
    destruct (IH (S attempt) maxRetries (JsError msg)
                 (snd (sleep (d * 2 ^ Z.of_nat attempt) w1)) ltac:(lia))
      as [j [Hj Hrest]].
    exists (S j). split; [lia|].
    rewrite Hrest. cbn [sleep emit snd trace]. rewrite delays_app, Hfn.
    cbn [seq map]. rewrite <- app_assoc. reflexivity.
Qed.

(** X9. The waits of [retryWithBackoff] around a function that does not
    wait itself are the initial delay, twice it, four times it and so on:
    the first [j] terms of that sequence, with [j] at most
    [maxRetries - 1]. *)
Theorem retryWithBackoff_waits_double {A} env (fn : M A) maxRetries d w :
  obeys (keeps (fun w => delays (trace w))) fn ->
  exists j, (j <= maxRetries - 1)%nat
    /\ delays (trace (snd (retryWithBackoff env fn maxRetries d w)))
       = delays (trace w) ++ map (fun k => d * 2 ^ Z.of_nat k) (seq 0 j).
Proof.
  intros Hfn. unfold retryWithBackoff. now apply retry_loop_delays.
Qed.

Lemma retryWithBackoff_waits_double_witness :
  exists j, (j <= 5 - 1)%nat
    /\ delays (trace (snd (retryWithBackoff Sample.envUnavailable Sample.busy 5
                             100 Sample.world)))
       = delays (trace Sample.world)
         ++ map (fun k => 100 * 2 ^ Z.of_nat k) (seq 0 j).
Proof.
  apply (retryWithBackoff_waits_double Sample.envUnavailable Sample.busy 5 100
           Sample.world).
  intros w. unfold keeps. cbn. unfold delays. rewrite omap_app. apply app_nil_r.
Defined.

End RetryWaits.

(** ** Errors of the summariser *)

Section SummariserErrors.

Context (env : Env) (t : Turn) (key : jsstring).

Lemma tryModel_calls model w :
  anthropicCalls (snd (tryModel env model t key w)) = S (anthropicCalls w).
Proof.
  unfold tryModel, bind, fetchAnthropic.
  destruct (anthropic env (anthropicCalls w) model (prompt t) key)
    as [failure|st txt body]; [reflexivity|].
  destruct (negb (ok st)).
  - cbv zeta. destruct (st =? 404)%N; [reflexivity|].
    destruct (st =? 429)%N; reflexivity.
  - destruct body as [d|]; [|reflexivity].
    destruct (completionText d); reflexivity.
Qed.

Lemma delays_tryModel model :
  obeys (keeps (fun w => delays (trace w))) (tryModel env model t key).
Proof.
  apply tryModel_obeys;
    [apply keeps_refl | apply keeps_trans | |];
    intros; intros w; unfold keeps; cbn; rewrite delays_app; apply app_nil_r.
Qed.

Lemma delays_try_models models lastError :
  obeys (keeps (fun w => delays (trace w))) (try_models env models lastError t key).
Proof.
  apply try_models_obeys;
    [apply keeps_refl | apply keeps_trans | |];
    intros; intros w; unfold keeps; cbn; rewrite delays_app; apply app_nil_r.
Qed.

(** A model loop whose last candidate answers 404 returns a summary or
    throws the error of that candidate. *)
Lemma try_models_last_unavailable last txt body models :
  forall lastError w,
  anthropic env (anthropicCalls w + length models) last (prompt t) key
  = Response 404 txt body ->
  match fst (try_models env (models ++ [last]) lastError t key w) with
  | Returned _ => True
  | Threw e => e = JsError (JS.lit "Model not found: " ++ last)
  | Diverged => False
  end.
Proof.
  induction models as [|model rest IH]; intros lastError w Hreply.
  - rewrite Nat.add_0_r in Hreply. cbn [app].
    rewrite (try_models_unavailable env t key last [] lastError w txt body Hreply).
    reflexivity.
  - cbn [app try_models]. unfold bind, try_catch.
    pose proof (tryModel_calls model w) as Hcalls.
    pose proof (decent_tryModel env model t key w) as Hd.
    destruct (tryModel env model t key w) as [[[s|caught]|e|] w1];
      cbn [snd fst ret] in Hcalls, Hd |- *; try exact I; try contradiction;
      apply IH; rewrite Hcalls; cbn [length] in Hreply;
      now replace (S (anthropicCalls w) + length rest)%nat
        with (anthropicCalls w + S (length rest))%nat by lia.
Qed.

(** X10. When the service answers 404 for the last candidate model,
    [handleSummarization] never waits and never starts a second pass: it
    returns a summary, or throws [Model not found: claude-3-haiku-20240307]
    after exactly one request to each candidate. *)
Theorem missing_last_model_is_not_retried txt body w :
  anthropic env (anthropicCalls w + 4) (JS.lit "claude-3-haiku-20240307")
    (prompt t) key = Response 404 txt body ->
  let run := handleSummarization env t key w in
  delays (trace (snd run)) = delays (trace w)
  /\ match fst run with
     | Returned _ => True
     | Threw e =>
       e = JsError (JS.lit "Model not found: claude-3-haiku-20240307")
       /\ requestedModels (trace (snd run))
          = requestedModels (trace w) ++ modelsToTry
     | Diverged => False
     end.
Proof.
  intros Hreply. cbv zeta.
  unfold handleSummarization, retryWithBackoff, bind. cbn [emit].
  set (w0 := mkWorld _ _ _ _ _).
  assert (Hw0 : delays (trace w0) = delays (trace w))
    by (unfold w0; cbn [trace]; rewrite delays_app; apply app_nil_r).
  assert (Hr0 : requestedModels (trace w0) = requestedModels (trace w))
    by (unfold w0; cbn [trace]; rewrite requestedModels_app; apply app_nil_r).
  rewrite retry_loop_step.
  pose proof (try_models_last_unavailable (JS.lit "claude-3-haiku-20240307")
                txt body (take 4 modelsToTry) None w0 Hreply) as Hlast.
  change (take 4 modelsToTry ++ [JS.lit "claude-3-haiku-20240307"])
    with modelsToTry in Hlast.
  pose proof (delays_try_models modelsToTry None w0) as Hkeep.
  pose proof (try_models_requests env t key modelsToTry None w0) as Hreq.
  unfold keeps in Hkeep.
  destruct (try_models env modelsToTry None t key w0) as [[s|e|] w1];
    cbn [fst snd] in Hlast, Hkeep |- *; [| |contradiction].
  - split; [congruence | exact I].
  - subst e.
    assert (Hno : shouldRetry (JS.lit "Model not found: "
                               ++ JS.lit "claude-3-haiku-20240307")
                  = false) by reflexivity.
    rewrite Hno. cbn [negb orb fst snd].
    split; [congruence|]. split; [reflexivity|].
    rewrite (Hreq _ _ eq_refl). now rewrite Hr0.
Qed.

(** A candidate that answers 429 throws the rate-limit error. *)
Lemma tryModel_rate_limited model w txt body :
  anthropic env (anthropicCalls w) model (prompt t) key = Response 429 txt body ->
  tryModel env model t key w
  = (Threw (JsError (JS.lit "Rate limit (429): " ++ errorMessageOf 429 txt body)),
     snd (fetchAnthropic env model (prompt t) key w)).
Proof.
  intros Hreply. unfold tryModel. unfold bind at 1. cbn [fetchAnthropic].
  rewrite Hreply. reflexivity.
Qed.

Lemma try_models_rate_limited :
  (forall n model, exists txt body,
     anthropic env n model (prompt t) key = Response 429 txt body) ->
  forall models lastError w,
  models <> [] \/ rateLimitError lastError ->
  exists msg w',
    try_models env models lastError t key w
    = (Threw (JsError (JS.lit "Rate limit (429): " ++ msg)), w')
    /\ requestedModels (trace w') = requestedModels (trace w) ++ models
    /\ delays (trace w') = delays (trace w).
Proof.
  intros Hbusy. induction models as [|model rest IH]; intros lastError w Hstart.
  - destruct Hstart as [Hne|[msg ->]]; [contradiction|].
    exists msg, w. cbn. now rewrite app_nil_r.
  - destruct (Hbusy (anthropicCalls w) model) as [txt [body Hreply]].
    cbn [try_models]. unfold bind at 1, try_catch.
    rewrite (tryModel_rate_limited model w txt body Hreply). cbn [ret snd fst].
    destruct (IH (Some (JsError (JS.lit "Rate limit (429): "
                                 ++ errorMessageOf 429 txt body)))
                 (snd (fetchAnthropic env model (prompt t) key w)))
      as [msg [w' [Hrun [Hreq Hwait]]]].
    { right. now eexists. }
    exists msg, w'. split; [exact Hrun|]. split.
    + rewrite Hreq. cbn [fetchAnthropic snd trace].
      rewrite requestedModels_app. cbn. now rewrite <- app_assoc.
    + rewrite Hwait. cbn [fetchAnthropic snd trace].
      rewrite delays_app. apply app_nil_r.
Qed.

End SummariserErrors.

Lemma missing_last_model_is_not_retried_witness :
  let run := handleSummarization Sample.envUnavailable (Sample.turn 1) (JS.lit "k")
               Sample.world in
  delays (trace (snd run)) = delays (trace Sample.world)
  /\ match fst run with
     | Returned _ => True
     | Threw e =>
       e = JsError (JS.lit "Model not found: claude-3-haiku-20240307")
       /\ requestedModels (trace (snd run))
          = requestedModels (trace Sample.world) ++ modelsToTry
     | Diverged => False
     end.
Proof.
  apply (missing_last_model_is_not_retried Sample.envUnavailable (Sample.turn 1)
           (JS.lit "k") (JS.lit "Not Found") None Sample.world).
  reflexivity.
Defined.

(** X11. While the service answers 429 to every request,
    [handleSummarization] makes three passes over the candidate models
    (fifteen requests), waits 1000 ms and then 2000 ms between the passes
    and throws the rate-limit error. *)
Theorem rate_limited_summarization_gives_up env t key w :
  (forall n model, exists txt body,
     anthropic env n model (prompt t) key = Response 429 txt body) ->
  exists msg w',
    handleSummarization env t key w
    = (Threw (JsError (JS.lit "Rate limit (429): " ++ msg)), w')
    /\ requestedModels (trace w')
       = requestedModels (trace w) ++ modelsToTry ++ modelsToTry ++ modelsToTry
    /\ delays (trace w') = delays (trace w) ++ [1000; 2000].
Proof.
  intros Hbusy.
  assert (Hpass : forall w0, exists msg w',
            try_models env modelsToTry None t key w0
            = (Threw (JsError (JS.lit "Rate limit (429): " ++ msg)), w')
            /\ requestedModels (trace w') = requestedModels (trace w0) ++ modelsToTry
            /\ delays (trace w') = delays (trace w0)).
  { intros w0. apply try_models_rate_limited; [exact Hbusy|]. now left. }
  unfold handleSummarization, retryWithBackoff, bind. cbn [emit].
  set (w0 := mkWorld _ _ _ _ _).
  assert (Hw0 : delays (trace w0) = delays (trace w))
    by (unfold w0; cbn [trace]; rewrite delays_app; apply app_nil_r).
  assert (Hr0 : requestedModels (trace w0) = requestedModels (trace w))
    by (unfold w0; cbn [trace]; rewrite requestedModels_app; apply app_nil_r).
  clearbody w0.
  destruct (Hpass w0) as [m1 [w1 [H1 [R1 D1]]]].
  rewrite retry_loop_step, H1, rate_limit_error_is_retryable.
  change (negb true || (Z.of_nat 0 =? Z.of_nat 3 - 1)) with false. cbv iota.
  set (w1' := snd (sleep _ w1)).
  destruct (Hpass w1') as [m2 [w2 [H2 [R2 D2]]]].
  rewrite retry_loop_step, H2, rate_limit_error_is_retryable.
  change (negb true || (Z.of_nat 1 =? Z.of_nat 3 - 1)) with false. cbv iota.
  set (w2' := snd (sleep _ w2)).
  destruct (Hpass w2') as [m3 [w3 [H3 [R3 D3]]]].
  rewrite retry_loop_step, H3, rate_limit_error_is_retryable.
  change (negb true || (Z.of_nat 2 =? Z.of_nat 3 - 1)) with true. cbv iota.
  exists m3, w3. split; [reflexivity|].
  assert (Rs1 : requestedModels (trace w1') = requestedModels (trace w1))
    by (unfold w1'; cbn [sleep emit snd trace]; rewrite requestedModels_app;
        apply app_nil_r).
  assert (Rs2 : requestedModels (trace w2') = requestedModels (trace w2))
    by (unfold w2'; cbn [sleep emit snd trace]; rewrite requestedModels_app;
        apply app_nil_r).
  assert (Ds1 : delays (trace w1') = delays (trace w1) ++ [1000])
    by (unfold w1'; cbn [sleep emit snd trace]; now rewrite delays_app).
  assert (Ds2 : delays (trace w2') = delays (trace w2) ++ [2000])
    by (unfold w2'; cbn [sleep emit snd trace]; now rewrite delays_app).
  split.
  - rewrite R3, Rs2, R2, Rs1, R1, Hr0. now rewrite <- !app_assoc.
  - rewrite D3, Ds2, D2, Ds1, D1, Hw0. now rewrite <- app_assoc.
Qed.

(** X12. For an answer that is not successful and neither 404 nor 429, a
    pass through the model loop throws [API Error: ] followed by the message
    taken from the answer.  Whether [retryWithBackoff] retries that error
    depends on the message alone, not on the status: it is retried exactly
    when the message contains "429", "rate limit" or the digit 5. *)
Theorem api_error_retry_depends_on_the_message env model t key w st txt body :
  anthropic env (anthropicCalls w) model (prompt t) key = Response st txt body ->
  ok st = false -> st <> 404%N -> st <> 429%N ->
  let msg := errorMessageOf st txt body in
  fst (tryModel env model t key w) = Threw (JsError (JS.lit "API Error: " ++ msg))
  /\ shouldRetry (JS.lit "API Error: " ++ msg)
     = JS.includes msg (JS.lit "429") || JS.includes msg (JS.lit "rate limit")
       || JS.includes msg (JS.lit "5").
Proof.
  intros Hreply Hok H404 H429 msg. split.
  - unfold tryModel. unfold bind at 1. cbn [fetchAnthropic]. rewrite Hreply, Hok.
    cbn [negb]. cbv zeta.
    destruct (N.eqb_spec st 404); [contradiction|].
    destruct (N.eqb_spec st 429); [contradiction|]. reflexivity.
  - generalize msg. clear. intros msg. unfold shouldRetry.
    change (JS.includes (JS.lit "API Error: " ++ msg) (JS.lit "Error")) with true.
    rewrite andb_true_r.
    change (JS.includes (JS.lit "API Error: " ++ msg) (JS.lit "429"))
      with (JS.includes msg (JS.lit "429")).
    change (JS.includes (JS.lit "API Error: " ++ msg) (JS.lit "rate limit"))
      with (JS.includes msg (JS.lit "rate limit")).
    change (JS.includes (JS.lit "API Error: " ++ msg) (JS.lit "5"))
      with (JS.includes msg (JS.lit "5")).
    reflexivity.
Qed.

(** ** Reading the completion *)

Section Completion.

Lemma dropUntil_split c s :
  exists pre, s = pre ++ dropUntil c s
    /\ Forall (fun x => x <> c) pre
    /\ (dropUntil c s = [] \/ exists r, dropUntil c s = c :: r).
Proof.
  induction s as [|x s IH]; [exists []; cbn; auto|].
  cbn [dropUntil]. destruct (N.eqb_spec x c) as [->|Hx].
  - exists []. cbn. eauto.
  - destruct IH as [pre [Hs [Hpre Hhead]]].
    exists (x :: pre). cbn. split; [now f_equal|]. split; [now constructor | exact Hhead].
Qed.

Lemma dropUntil_found c pre r :
  Forall (fun x => x <> c) pre -> dropUntil c (pre ++ c :: r) = c :: r.
Proof.
  induction 1 as [|x pre Hx Hpre IH]; cbn [app dropUntil].
  - now rewrite N.eqb_refl.
  - destruct (N.eqb_spec x c); [contradiction | exact IH].
Qed.

(** X13. The payload that [parseSummaries] hands to [JSON.parse] is the
    part of the completion from its first opening brace to the last
    closing brace after it, and there is a payload exactly when the
    completion has a closing brace after an opening one. *)
Theorem jsonMatch_first_to_last_brace s m :
  jsonMatch s = Some m
  <-> exists pre inner post,
        s = pre ++ 123%N :: inner ++ 125%N :: post
        /\ Forall (fun x => x <> 123%N) pre
        /\ Forall (fun x => x <> 125%N) post
        /\ m = 123%N :: inner ++ [125%N].
Proof.
  unfold jsonMatch. split.
  - destruct (dropUntil_split 123 s) as [pre [Hs [Hpre Hopen]]].
    destruct (dropUntil 123 s) as [|x after]; [discriminate|].
    destruct Hopen as [|[r [= -> ->]]]; [discriminate|].
    destruct (dropUntil_split 125 (rev r)) as [tsop [Hr [Hpost Hclose]]].
    destruct (dropUntil 125 (rev r)) as [|y upto] eqn:Hupto; [discriminate|].
    destruct Hclose as [|[u [= -> ->]]]; [discriminate|].
    intros [= <-]. exists pre, (rev u), (rev tsop).
    split; [|split; [exact Hpre|split; [now apply Forall_rev|reflexivity]]].
    rewrite Hs. do 2 f_equal.
    rewrite <- (rev_involutive r), Hr, rev_app_distr. cbn [rev].
    now rewrite <- app_assoc.
  - intros [pre [inner [post [-> [Hpre [Hpost ->]]]]]].
    rewrite (dropUntil_found 123 pre _ Hpre).
    rewrite rev_app_distr. cbn [rev]. rewrite <- app_assoc. cbn [app].
    rewrite (dropUntil_found 125 (rev post) (rev inner)) by now apply Forall_rev.
    cbn [rev]. now rewrite rev_involutive.
Qed.




End Completion.

(** ** The requests of a new export *)

Section NewExport.

Context (env : Env) (token : jsstring) (limit : Z) (summaries : list TurnSummary).

Ltac traced :=
  cbn [throw ret diverge emit sleep snd fst trace notionCalls anthropicCalls];
  rewrite ?notionRequests_app, ?notionRequests_request, ?notionRequests_sleep;
  rewrite ?app_nil_r, <- ?app_assoc.

Ltac ended :=
  intros [= <- <-]; exists []; traced;
  (split; [reflexivity|]); (split; [assumption|]); (split; [assumption|]);
  (split; [reflexivity|]); (split; [constructor|]);
  intros parent; discriminate.

Lemma populate_created_requests turnBlocks :
  forall some,
  (forall s, s ∈ some -> s ∈ summaries) ->
  obeys (requestsGrow (populationOf token limit summaries))
    (populate_created env token limit turnBlocks some).
Proof.
  induction turnBlocks as [|b bs IH]; intros some Hsome; cbn [populate_created].
  - apply obeys_ret, requestsGrow_refl.
  - destruct some as [|s some]; [apply obeys_ret, requestsGrow_refl|].
    apply obeys_bind; [apply requestsGrow_trans | |].
    + apply populateSourceText_requests. intros s' [= <-]. apply Hsome. left.
    + intros _. apply IH. intros s' Hs'. apply Hsome. now right.
Qed.

(** The shape of the requests of [createNotionToggles]. *)
Lemma createNotionToggles_shape page title url w :
  let skeleton := PatchChildren token page [masterToggle env summaries title url] in
  let run := createNotionToggles env summaries page token title url limit w in
  (notionRequests (trace (snd run)) = notionRequests (trace w) ++ [skeleton]
   /\ forall parent, fst run <> Returned parent)
  \/ exists st txt r b bs more,
       notion env (notionCalls w) skeleton = Response st txt (Some r)
       /\ ok st = true
       /\ results r = Some (b :: bs)
       /\ notionRequests (trace (snd run))
          = notionRequests (trace w)
            ++ skeleton :: GetChildren token (blockId b) :: more
       /\ Forall (populationOf token limit summaries) more
       /\ forall parent, fst run = Returned parent -> parent = blockId b.
Proof.
  cbv zeta.
  destruct (createNotionToggles env summaries page token title url limit w)
    as [o w'] eqn:Hrun.
  cbn [fst snd]. revert Hrun.
  unfold createNotionToggles. unfold bind at 1. cbn [fetchNotion].
  destruct (notion env (notionCalls w) _) as [failure|st txt body] eqn:Hfirst;
    [intros [= <- <-]; left; traced; now split|].
  destruct (ok st) eqn:Hok; cbn [negb];
    [|intros [= <- <-]; left; traced; now split].
  destruct body as [r|]; [|intros [= <- <-]; left; traced; now split].
  destruct (results r) as [[|b bs]|] eqn:Hresults; cbn [mbind option_bind head];
    try (intros [= <- <-]; left; traced; now split).
  intros Hrun. right. exists st, txt, r, b, bs. revert Hrun. cbv zeta.
  unfold bind at 1. cbn [fetchNotion notionCalls].
  destruct (notion env (S (notionCalls w)) _) as [failure|st2 txt2 body2];
    [ended|].
  destruct (negb (ok st2)); [ended|].
  destruct body2 as [r2|]; [|ended].
  destruct (results r2) as [children|]; [|ended].
  unfold bind at 1.
  match goal with
  | |- context [populate_created env token limit (tail children) summaries ?w0] =>
    destruct (populate_created_requests (tail children) summaries
                ltac:(auto) w0) as [more [Hmore Hall]];
    destruct (populate_created env token limit (tail children) summaries w0)
      as [[u|e|] w3]
  end; cbn [snd fst ret] in Hmore |- *; intros [= <- <-];
    exists more; rewrite Hmore; traced;
    (split; [reflexivity|]); (split; [assumption|]); (split; [assumption|]);
    (split; [reflexivity|]); (split; [exact Hall|]);
    intros parent; try discriminate.
  now intros [= <-].
Qed.




(** A population loop whose reads are all refused only reads. *)
Lemma populate_created_refused turnBlocks :
  forall some w,
  (forall n id, (notionCalls w <= n)%nat ->
     exists st txt body,
       notion env n (GetChildren token id) = Response st txt body /\ ok st = false) ->
  exists w',
    populate_created env token limit turnBlocks some w = (Returned tt, w')
    /\ notionRequests (trace w')
       = notionRequests (trace w)
         ++ map (fun b => GetChildren token (blockId b))
                (take (length some) turnBlocks).
Proof.
  induction turnBlocks as [|b bs IH]; intros some w Hrefused;
    cbn [populate_created].
  - exists w. rewrite take_nil. cbn. now rewrite app_nil_r.
  - destruct some as [|s some]; [exists w; cbn; now rewrite app_nil_r|].
    destruct (Hrefused (notionCalls w) (blockId b) ltac:(lia))
      as [st [txt [body [Hreply Hok]]]].
    unfold bind at 1. unfold populateSourceText. unfold bind at 1.
    cbn [fetchNotion]. rewrite Hreply, Hok. cbn [negb ret fst snd].
    match goal with
    | |- context [populate_created env token limit bs some ?w0] =>
      destruct (IH some w0) as [w' [Hrun Hreq]]
    end.
    { intros n id Hn. apply Hrefused. cbn [notionCalls] in Hn. lia. }
    exists w'. split; [exact Hrun|]. rewrite Hreq. traced. reflexivity.
Qed.

(** X16. When the master toggle has been written and its children read,
    but every later read of a turn toggle is refused,
    [createNotionToggles] still returns the id of the master toggle: it
    reads one turn toggle per summary and writes no source text at all. *)
Theorem refused_population_is_silent page title url w st1 txt1 r1 b bs
    st2 txt2 r2 children :
  notion env (notionCalls w)
    (PatchChildren token page [masterToggle env summaries title url])
  = Response st1 txt1 (Some r1) ->
  ok st1 = true -> results r1 = Some (b :: bs) ->
  notion env (S (notionCalls w)) (GetChildren token (blockId b))
  = Response st2 txt2 (Some r2) ->
  ok st2 = true -> results r2 = Some children ->
  (forall n id, (notionCalls w + 2 <= n)%nat ->
     exists st txt body,
       notion env n (GetChildren token id) = Response st txt body /\ ok st = false) ->
  exists w',
    createNotionToggles env summaries page token title url limit w
    = (Returned (blockId b), w')
    /\ notionRequests (trace w')
       = notionRequests (trace w)
         ++ PatchChildren token page [masterToggle env summaries title url]
            :: GetChildren token (blockId b)
            :: map (fun c => GetChildren token (blockId c))
                   (take (length summaries) (tail children)).
Proof.
  intros Hfirst Hok1 Hresults1 Hsecond Hok2 Hresults2 Hrefused.
  unfold createNotionToggles. unfold bind at 1. cbn [fetchNotion].
  rewrite Hfirst, Hok1, Hresults1. cbn [negb mbind option_bind head]. cbv zeta.
  unfold bind at 1. cbn [fetchNotion notionCalls].
  rewrite Hsecond, Hok2, Hresults2. cbn [negb].
  unfold bind at 1.
  match goal with
  | |- context [populate_created env token limit (tail children) summaries ?w0] =>
    destruct (populate_created_refused (tail children) summaries w0)
      as [w' [Hrun Hreq]]
  end.
  { intros n id Hn. apply Hrefused. cbn [notionCalls] in Hn. lia. }
  rewrite Hrun. exists w'. split; [reflexivity|].
  rewrite Hreq. traced. reflexivity.
Qed.

End NewExport.

Lemma rate_limited_summarization_gives_up_witness :
  exists msg w',
    handleSummarization Scenario.envBusy (Sample.turn 1) (JS.lit "key") Sample.world
    = (Threw (JsError (JS.lit "Rate limit (429): " ++ msg)), w')
    /\ requestedModels (trace w')
       = requestedModels (trace Sample.world)
         ++ modelsToTry ++ modelsToTry ++ modelsToTry
    /\ delays (trace w') = delays (trace Sample.world) ++ [1000; 2000].
Proof.
  apply (rate_limited_summarization_gives_up Scenario.envBusy (Sample.turn 1)
           (JS.lit "key") Sample.world).
  intros n model. exists (JS.lit "Too Many Requests"), None. reflexivity.
Defined.

Lemma api_error_retry_depends_on_the_message_witness :
  let msg := errorMessageOf 500 [] None in
  fst (tryModel Scenario.envDown (JS.lit "claude-3-opus-20240229") (Sample.turn 1)
         (JS.lit "key") Sample.world)
  = Threw (JsError (JS.lit "API Error: " ++ msg))
  /\ shouldRetry (JS.lit "API Error: " ++ msg)
     = JS.includes msg (JS.lit "429") || JS.includes msg (JS.lit "rate limit")
       || JS.includes msg (JS.lit "5").
Proof.
  apply (api_error_retry_depends_on_the_message Scenario.envDown
           (JS.lit "claude-3-opus-20240229") (Sample.turn 1) (JS.lit "key")
           Sample.world 500 [] None);
    [reflexivity | reflexivity | lia | lia].
Defined.

Lemma refused_population_is_silent_witness :
  exists w',
    createNotionToggles Scenario.envRefusing
      [Scenario.summary 1; Scenario.summary 2] (JS.lit "page") (JS.lit "token")
      (JS.lit "A chat") (JS.lit "https://claude.ai/chat/1") 2000 Sample.world
    = (Returned (blockId (Sample.toggleInfo "master")), w')
    /\ notionRequests (trace w')
       = notionRequests (trace Sample.world)
         ++ PatchChildren (JS.lit "token") (JS.lit "page")
              [masterToggle Scenario.envRefusing
                 [Scenario.summary 1; Scenario.summary 2] (JS.lit "A chat")
                 (JS.lit "https://claude.ai/chat/1")]
            :: GetChildren (JS.lit "token") (blockId (Sample.toggleInfo "master"))
            :: map (fun c => GetChildren (JS.lit "token") (blockId c))
                   (take (length [Scenario.summary 1; Scenario.summary 2])
                      (tail [mkNotionBlockInfo (JS.lit "head") (JS.lit "paragraph");
                             Sample.toggleInfo "first"; Sample.toggleInfo "second"])).
Proof.
  apply (refused_population_is_silent Scenario.envRefusing (JS.lit "token") 2000
           [Scenario.summary 1; Scenario.summary 2] (JS.lit "page") (JS.lit "A chat")
           (JS.lit "https://claude.ai/chat/1") Sample.world
           200 (JS.lit "OK")
           (mkNotionJson None (Some [Sample.toggleInfo "master"]) [])
           (Sample.toggleInfo "master") []
           200 (JS.lit "OK")
           (mkNotionJson None
              (Some [mkNotionBlockInfo (JS.lit "head") (JS.lit "paragraph");
                     Sample.toggleInfo "first"; Sample.toggleInfo "second"]) []));
    try reflexivity.
  intros n id Hn. exists 429%N, (JS.lit "Too Many Requests"), None.
  split; [|reflexivity].
  destruct n as [|[|n]]; [cbn in Hn; lia | cbn in Hn; lia | reflexivity].
Defined.

(** ** A run that is not an update *)

Section FullMode.

Context (env : Env) (data : ExportData).
Hypothesis Hfull : updateOf data = None.

(** The run of a full export: every turn is summarised, then the document
    is built, and the builder's outcome decides how the run ends. *)
Lemma full_run w :
  let n := length (turns data) in
  exists summaries w2,
    summarize_loop env (apiKey data) 0 n n (turns data) 0 []
      (snd (updateProgress starting 0 n (JS.lit "Starting export...") w))
    = (Returned summaries, w2)
    /\ Forall2 summaryOf (turns data) summaries
    /\ handleFullExport env data w
       = match createNotionToggles env summaries (pageId data) (notionToken data)
                 (chatTitle data) (dataConversationUrl data) NOTION_BLOCK_LIMIT
                 (snd (updateProgress creating n n
                         (JS.lit "Creating Notion blocks...") w2)) with
         | (Returned parent, w3) =>
           (Returned tt,
            mkWorld (anthropicCalls w3) (notionCalls w3) None
              (<[dataConversationUrl data := recordOf env data parent]>
                 (exportHistory w3))
              (trace w3
               ++ [EvNotification
                     (if isUpdate data then JS.lit "Update Complete"
                      else JS.lit "Export Complete")
                     (if isUpdate data
                      then JS.lit "Successfully added "
                           ++ JS.decimal (N.of_nat n)
                           ++ JS.lit " new turns to Notion!"
                      else JS.lit "Successfully exported "
                           ++ JS.decimal (N.of_nat n)
                           ++ JS.lit " turns to Notion!")]))
         | (Threw (JsError msg), w3) =>
           (Threw (JsError msg),
            mkWorld (anthropicCalls w3) (notionCalls w3)
              (Some (mkExportProgress error 0 0 msg)) (exportHistory w3)
              (trace w3 ++ [EvNotification (JS.lit "Export Failed") msg]))
         | (Threw JsUndefined, w3) =>
           (Threw (JsError (engineMessage env MessageOfUndefined)), w3)
         | (Diverged, w3) => (Diverged, w3)
         end.
Proof.
  intros n.
  destruct (summarize_loop_total env (apiKey data) 0 n n (turns data) 0 []
              (snd (updateProgress starting 0 n (JS.lit "Starting export...") w)))
    as [summaries [w2 [Hloop Hall]]].
  simpl app in Hloop. exists summaries, w2.
  split; [exact Hloop|]. split; [exact Hall|].
  unfold handleFullExport, handleFullExport_try. rewrite Hfull.
  unfold try_catch.
  unfold bind at 1. cbn [ret fst snd].
  unfold bind at 1. cbn [updateProgress snd] in Hloop |- *.
  unfold bind at 1. fold n. rewrite Hloop.
  unfold bind at 1. cbn [updateProgress].
  unfold bind at 1.
  match goal with
  | |- context [createNotionToggles env summaries ?p ?tok ?t ?u ?l ?w3] =>
    destruct (createNotionToggles env summaries p tok t u l w3) as [[parent|[m|]|] w4]
  end; reflexivity.
Qed.

End FullMode.

Lemma updateOf_full data :
  exportMode data <> Some (JS.lit "update") \/ existingExportData data = None ->
  updateOf data = None.
Proof.
  intros [Hmode|Hnone]; unfold updateOf, isUpdate.
  - now rewrite bool_decide_eq_false_2.
  - rewrite Hnone. now destruct (bool_decide _).
Qed.

(** X17. A run that is not an update of a stored record summarises every
    turn of the transcript, in order, and the first request to the
    document service writes, under the selected page, one master toggle
    made of summaries that carry the numbers and texts of these turns.
    There is no check for an empty transcript in this mode. *)
Theorem full_export_processes_every_turn env data w :
  exportMode data <> Some (JS.lit "update") \/ existingExportData data = None ->
  let w' := snd (handleFullExport env data w) in
  summarized (trace w') = summarized (trace w) ++ turns data
  /\ exists summaries rest,
       Forall2 summaryOf (turns data) summaries
       /\ notionRequests (trace w')
          = notionRequests (trace w)
            ++ PatchChildren (notionToken data) (pageId data)
                 [masterToggle env summaries (chatTitle data)
                    (dataConversationUrl data)] :: rest.
Proof.
  intros Hmode w'. apply updateOf_full in Hmode.
  destruct (full_run env data Hmode w) as [summaries [w2 [Hloop [Hcarry Hrun]]]].
  set (n := length (turns data)) in *.
  pose proof (summarized_summarize_loop env (apiKey data) 0 n n (turns data) 0 []
                (snd (updateProgress starting 0 n (JS.lit "Starting export...") w)))
    as Hmarks.
  pose proof (notion_summarize_loop env (apiKey data) 0 n n (turns data) 0 []
                (snd (updateProgress starting 0 n (JS.lit "Starting export...") w)))
    as Hquiet.
  rewrite Hloop in Hmarks, Hquiet. unfold keeps in Hquiet.
  cbn [snd updateProgress trace] in Hmarks, Hquiet.
  set (w3 := snd (updateProgress creating n n (JS.lit "Creating Notion blocks...") w2))
    in *.
  pose proof (summarized_createNotionToggles env summaries (pageId data)
                (notionToken data) (chatTitle data) (dataConversationUrl data)
                NOTION_BLOCK_LIMIT w3) as Hbuilt.
  unfold keeps in Hbuilt.
  assert (exists rest,
            notionRequests
              (trace (snd (createNotionToggles env summaries (pageId data)
                             (notionToken data) (chatTitle data)
                             (dataConversationUrl data) NOTION_BLOCK_LIMIT w3)))
            = notionRequests (trace w3)
              ++ PatchChildren (notionToken data) (pageId data)
                   [masterToggle env summaries (chatTitle data)
                      (dataConversationUrl data)] :: rest) as [rest Hreq].
  { destruct (createNotionToggles_shape env (notionToken data) NOTION_BLOCK_LIMIT
                summaries (pageId data) (chatTitle data) (dataConversationUrl data)
                w3) as [[Hone _]|[st [txt [r [b [bs [more [_ [_ [_ [Hmore _]]]]]]]]]]];
      eauto. }
  pose proof (decent_createNotionToggles env summaries (pageId data)
                (notionToken data) (chatTitle data) (dataConversationUrl data)
                NOTION_BLOCK_LIMIT ltac:(unfold NOTION_BLOCK_LIMIT; lia) w3) as Hd.
  subst w'. rewrite Hrun.
  destruct (createNotionToggles env summaries _ _ _ _ _ w3) as [[parent|[m|]|] w4];
    cbn [fst snd trace] in Hbuilt, Hreq, Hd |- *; try contradiction;
    rewrite summarized_app, notionRequests_app, Hbuilt, Hreq;
    cbn [summarized notionRequests omap]; rewrite !app_nil_r;
    (split; [exact Hmarks|]); exists summaries, rest;
    (split; [exact Hcarry|]); unfold w3; cbn [snd updateProgress trace];
    now rewrite Hquiet.
Qed.

Lemma full_export_processes_every_turn_witness :
  let w' := snd (handleFullExport Sample.envUnavailable Scenario.fullExport
                   Sample.world) in
  summarized (trace w') = summarized (trace Sample.world)
                          ++ turns Scenario.fullExport
  /\ exists summaries rest,
       Forall2 summaryOf (turns Scenario.fullExport) summaries
       /\ notionRequests (trace w')
          = notionRequests (trace Sample.world)
            ++ PatchChildren (notionToken Scenario.fullExport)
                 (pageId Scenario.fullExport)
                 [masterToggle Sample.envUnavailable summaries
                    (chatTitle Scenario.fullExport)
                    (dataConversationUrl Scenario.fullExport)] :: rest.
Proof.
  apply (full_export_processes_every_turn Sample.envUnavailable
           Scenario.fullExport Sample.world).
  right. reflexivity.
Defined.

(** X18. A request in update mode for a conversation without a stored
    record runs exactly as a full export does, a new master toggle
    included; only the notification of a successful run differs: it is
    "Update Complete" and counts the whole transcript as new turns. *)
Theorem update_without_record_runs_a_full_export env data w :
  exportMode data = Some (JS.lit "update") ->
  existingExportData data = None ->
  let n := JS.decimal (N.of_nat (length (turns data))) in
  match handleFullExport env (asFullExport data) w with
  | (Returned u, wf) =>
    exists pre,
      trace wf
      = pre ++ [EvNotification (JS.lit "Export Complete")
                  (JS.lit "Successfully exported " ++ n
                   ++ JS.lit " turns to Notion!")]
      /\ handleFullExport env data w
         = (Returned u,
            mkWorld (anthropicCalls wf) (notionCalls wf) (exportProgress wf)
              (exportHistory wf)
              (pre ++ [EvNotification (JS.lit "Update Complete")
                         (JS.lit "Successfully added " ++ n
                          ++ JS.lit " new turns to Notion!")]))
  | other => handleFullExport env data w = other
  end.
Proof.
  intros Hmode Hnone n.
  assert (Hfull : updateOf data = None) by (apply updateOf_full; now right).
  assert (Hfull' : updateOf (asFullExport data) = None) by reflexivity.
  assert (Hup : isUpdate data = true)
    by (unfold isUpdate; rewrite Hmode; now apply bool_decide_eq_true_2).
  destruct (full_run env data Hfull w) as [summaries [w2 [Hloop [_ Hrun]]]].
  destruct (full_run env (asFullExport data) Hfull' w)
    as [summaries' [w2' [Hloop' [_ Hrun']]]].
  cbn [asFullExport turns chatTitle dataConversationUrl apiKey notionToken pageId]
    in Hloop', Hrun'.
  rewrite Hloop in Hloop'. injection Hloop' as <- <-.
  rewrite Hrun', Hrun, Hup.
  change (isUpdate (asFullExport data)) with false. cbv iota.
  change (recordOf env (asFullExport data)) with (recordOf env data).
  destruct (createNotionToggles env summaries _ _ _ _ _ _) as [[parent|[m|]|] w4];
    try reflexivity.
  eexists. split; reflexivity.
Qed.

Lemma update_without_record_runs_a_full_export_witness :
  let n := JS.decimal (N.of_nat (length (turns Scenario.orphanUpdate))) in
  match handleFullExport Sample.envUnavailable
          (asFullExport Scenario.orphanUpdate) Sample.world with
  | (Returned u, wf) =>
    exists pre,
      trace wf
      = pre ++ [EvNotification (JS.lit "Export Complete")
                  (JS.lit "Successfully exported " ++ n
                   ++ JS.lit " turns to Notion!")]
      /\ handleFullExport Sample.envUnavailable Scenario.orphanUpdate Sample.world
         = (Returned u,
            mkWorld (anthropicCalls wf) (notionCalls wf) (exportProgress wf)
              (exportHistory wf)
              (pre ++ [EvNotification (JS.lit "Update Complete")
                         (JS.lit "Successfully added " ++ n
                          ++ JS.lit " new turns to Notion!")]))
  | other =>
    handleFullExport Sample.envUnavailable Scenario.orphanUpdate Sample.world
    = other
  end.
Proof.
  apply (update_without_record_runs_a_full_export Sample.envUnavailable
           Scenario.orphanUpdate Sample.world); reflexivity.
Defined.

(** ** The message listener *)

Section Messages.

Import Listener.

Context (env : Env).

(** What a summarisation leaves as it was: the stored history and progress,
    and the requests to the document service. *)
Lemma stores_handleSummarization t key :
  obeys (keeps (fun w => (exportHistory w, exportProgress w,
                          notionRequests (trace w))))
    (handleSummarization env t key).
Proof.
  apply handleSummarization_obeys;
    try (intros; intros w; unfold keeps; cbn;
         rewrite notionRequests_app; cbn; now rewrite app_nil_r);
    [apply keeps_refl | apply keeps_trans].
Qed.

(** X19. The listener answers a [summarizeTurn] message exactly once: with
    a summary that carries the number and the texts of the turn sent, or
    with the message of the error.  It leaves the export history and the
    export progress as they were and sends nothing to the document
    service. *)
Theorem summarizeTurn_is_answered t key w :
  let run := onMessage env (SummarizeTurn t key) w in
  match fst run with
  | Returned (Some (Summarized s)) => summaryOf t s
  | Returned (Some (Failure msg)) => True
  | _ => False
  end
  /\ exportHistory (snd run) = exportHistory w
  /\ exportProgress (snd run) = exportProgress w
  /\ notionRequests (trace (snd run)) = notionRequests (trace w).
Proof.
  cbv zeta. cbn [onMessage]. unfold respond, try_catch, bind.
  pose proof (decent_handleSummarization env t key w) as Hd.
  pose proof (handleSummarization_returns env key t w) as Hsum.
  pose proof (stores_handleSummarization t key w) as Hkeep.
  unfold keeps in Hkeep.
  destruct (handleSummarization env t key w) as [[s|[msg|]|] w1];
    cbn [fst snd ret] in Hd, Hkeep |- *; try contradiction;
    injection Hkeep as Hhistory Hprogress Hrequests; (split; [|auto]);
    [exact (Hsum s w1 eq_refl) | exact I].
Qed.

(** X20. The listener answers a [startExport] message exactly once, and
    the answer agrees with what the popup then reads: after [success] the
    export progress is absent and the history of the conversation holds
    the record of the run; after a failure the progress has status
    [error] with the very message of the answer, and the history of every
    conversation is as it was. *)
Theorem startExport_answer_matches_the_stores data w :
  match onMessage env (StartExport data) w with
  | (Returned (Some Exported), w') =>
    fst (onMessage env GetProgress w') = Returned (Some (Progress None))
    /\ exists parent,
         fst (onMessage env (GetExportHistory (dataConversationUrl data)) w')
         = Returned (Some (History (Some (recordOf env data parent))))
  | (Returned (Some (Failure msg)), w') =>
    fst (onMessage env GetProgress w')
    = Returned (Some (Progress (Some (mkExportProgress error 0 0 msg))))
    /\ forall url,
         fst (onMessage env (GetExportHistory url) w')
         = fst (onMessage env (GetExportHistory url) w)
  | _ => False
  end.
Proof.
  cbn [onMessage]. unfold respond, handleFullExport, try_catch, bind.
  pose proof (settled_try env data w) as Htry.
  destruct (handleFullExport_try env data w) as [[u|[msg|]|] w1];
    try contradiction; cbn [fst snd ret updateProgress notify emit throw
                              getExportHistory exportProgress exportHistory].
  - destruct Htry as [[parent Hhistory] Hprogress].
    rewrite Hprogress. split; [reflexivity|]. exists parent.
    rewrite Hhistory, lookup_insert_eq. reflexivity.
  - split; [reflexivity|]. intros url. now rewrite Htry.
Qed.

End Messages.

(** ** The stored record and the next run *)

(** X21. The record that a successful run stores makes an update of the
    same transcript fail: when [handleFullExport] has returned, the history
    of the conversation holds a record, and an update run over the same
    export data with that record throws "No new turns to export" without
    sending any request. *)
Theorem update_after_export_has_nothing_new env data w u w' :
  handleFullExport env data w = (Returned u, w') ->
  exists stored,
    fst (getExportHistory (dataConversationUrl data) w') = Returned (Some stored)
    /\ forall w2,
         let again := handleFullExport env (asUpdateOf data stored) w2 in
         fst again = Threw (JsError (JS.lit "No new turns to export"))
         /\ anthropicCalls (snd again) = anthropicCalls w2
         /\ notionCalls (snd again) = notionCalls w2.
Proof.
  unfold handleFullExport at 1. unfold try_catch.
  pose proof (settled_try env data w) as Htry.
  destruct (handleFullExport_try env data w) as [[u1|[msg|]|] w1];
    try contradiction; [|discriminate].
  intros [= _ <-]. destruct Htry as [[parent Hhistory] _].
  exists (recordOf env data parent). cbn [getExportHistory fst].
  split; [now rewrite Hhistory, lookup_insert_eq|].
  intros w2. cbv zeta.
  rewrite (update_run_empty env (asUpdateOf data (recordOf env data parent))
             (recordOf env data parent) eq_refl eq_refl w2) by (cbn; lia).
  repeat split.
Qed.

Lemma update_after_export_has_nothing_new_witness :
  exists stored,
    fst (getExportHistory (dataConversationUrl Scenario.fullExport)
           (snd (handleFullExport Sample.envUnavailable Scenario.fullExport
                   Sample.world)))
    = Returned (Some stored)
    /\ forall w2,
         let again := handleFullExport Sample.envUnavailable
                        (asUpdateOf Scenario.fullExport stored) w2 in
         fst again = Threw (JsError (JS.lit "No new turns to export"))
         /\ anthropicCalls (snd again) = anthropicCalls w2
         /\ notionCalls (snd again) = notionCalls w2.
Proof.
  apply (update_after_export_has_nothing_new Sample.envUnavailable
           Scenario.fullExport Sample.world tt
           (snd (handleFullExport Sample.envUnavailable Scenario.fullExport
                   Sample.world))).
  vm_compute. reflexivity.
Defined.

(** ** The summariser before and after the retry wrapper *)

Section SummariserVersions.

Context (env : Env) (t : Turn) (key : jsstring).

(** One pass through the body of the model loop, in both versions, from
    worlds with the same count of requests. *)
Lemma tryModel_versions model w1 w2 :
  anthropicCalls w1 = anthropicCalls w2 ->
  requestedModels (trace w1) = requestedModels (trace w2) ->
  let earlier := try_catch (Earlier.tryModel env model t key)
                   (fun error => ret (Continue error)) w1 in
  let current := try_catch (tryModel env model t key)
                   (fun error => ret (Continue error)) w2 in
  anthropicCalls (snd earlier) = anthropicCalls (snd current)
  /\ requestedModels (trace (snd earlier)) = requestedModels (trace (snd current))
  /\ delays (trace (snd current)) = delays (trace w2)
  /\ match fst earlier, fst current with
     | Returned (Return s), Returned (Return s') => s = s'
     | Returned (Continue _), Returned (Continue _) => True
     | _, _ => False
     end.
Proof.
  intros Hcalls Hrequests. cbv zeta.
  unfold try_catch, Earlier.tryModel, tryModel, bind. cbn [fetchAnthropic].
  rewrite Hcalls.
  destruct (anthropic env (anthropicCalls w2) model (prompt t) key)
    as [failure|st txt body].
  - cbn. rewrite ?requestedModels_app, ?delays_app, ?Hrequests, ?Hcalls.
    cbn. now rewrite ?app_nil_r.
  - destruct (negb (ok st)).
    + cbv zeta. destruct (st =? 404)%N; [|destruct (st =? 429)%N];
        cbn; rewrite ?requestedModels_app, ?delays_app, ?Hrequests, ?Hcalls;
        cbn; now rewrite ?app_nil_r.
    + destruct body as [d|]; [destruct (completionText d)|];
        cbn; rewrite ?requestedModels_app, ?delays_app, ?Hrequests, ?Hcalls;
        cbn; now rewrite ?app_nil_r.
Qed.

Lemma try_models_versions models :
  forall lastEarlier lastCurrent w1 w2 s w1',
  anthropicCalls w1 = anthropicCalls w2 ->
  requestedModels (trace w1) = requestedModels (trace w2) ->
  Earlier.try_models env models lastEarlier t key w1 = (Returned s, w1') ->
  exists w2',
    try_models env models lastCurrent t key w2 = (Returned s, w2')
    /\ requestedModels (trace w2') = requestedModels (trace w1')
    /\ delays (trace w2') = delays (trace w2).
Proof.
  induction models as [|model rest IH];
    intros lastEarlier lastCurrent w1 w2 s w1' Hcalls Hrequests.
  - cbn. destruct lastEarlier as [[msg|]|]; discriminate.
  - cbn [Earlier.try_models try_models]. unfold bind at 1 2.
    destruct (tryModel_versions model w1 w2 Hcalls Hrequests)
      as [Hcalls' [Hrequests' [Hwaits Hsame]]].
    destruct (try_catch (Earlier.tryModel env model t key) _ w1)
      as [[[s1|e1]|e1|] w1a];
      destruct (try_catch (tryModel env model t key) _ w2)
        as [[[s2|e2]|e2|] w2a];
      cbn [fst snd] in Hcalls', Hrequests', Hwaits, Hsame; try contradiction.
    + subst s2. cbn [ret]. intros [= <- <-]. exists w2a. auto.
    + intros Hrest.
      destruct (IH (Some e1) (Some e2) w1a w2a s w1' Hcalls' Hrequests' Hrest)
        as [w2' [Hrun [Hreq Hwait]]].
      exists w2'. split; [exact Hrun|]. split; [exact Hreq|]. congruence.
Qed.

(** X22. The retry wrapper changes nothing when it is not needed: whenever
    the summariser of the earlier worker returns a summary, the summariser
    of the current worker returns the same summary after the same requests
    and without waiting. *)
Theorem handleSummarization_extends_the_earlier_one w s :
  fst (Earlier.handleSummarization env t key w) = Returned s ->
  fst (handleSummarization env t key w) = Returned s
  /\ requestedModels (trace (snd (handleSummarization env t key w)))
     = requestedModels (trace (snd (Earlier.handleSummarization env t key w)))
  /\ delays (trace (snd (handleSummarization env t key w))) = delays (trace w).
Proof.
  unfold Earlier.handleSummarization, handleSummarization, retryWithBackoff, bind.
  cbn [emit]. set (w0 := mkWorld _ _ _ _ _).
  assert (Hw0 : delays (trace w0) = delays (trace w))
    by (unfold w0; cbn [trace]; rewrite delays_app; apply app_nil_r).
  destruct (Earlier.try_models env modelsToTry None t key w0) as [o w1] eqn:Hearlier.
  cbn [fst snd]. intros ->.
  destruct (try_models_versions modelsToTry None None w0 w0 s w1
              eq_refl eq_refl Hearlier) as [w2 [Hrun [Hreq Hwait]]].
  rewrite retry_loop_step, Hrun. cbn [fst snd].
  split; [reflexivity|]. split; [exact Hreq | congruence].
Qed.

End SummariserVersions.

Lemma handleSummarization_extends_the_earlier_one_witness :
  let s := mkTurnSummary 1 (Some (JS.lit "A greeting"))
             (Some (JS.lit "A greeting. The user greets the assistant."))
             (JS.lit "question") (JS.lit "answer") in
  fst (handleSummarization Sample.envThirdModel (Sample.turn 1) (JS.lit "key")
         Sample.world) = Returned s
  /\ requestedModels
       (trace (snd (handleSummarization Sample.envThirdModel (Sample.turn 1)
                      (JS.lit "key") Sample.world)))
     = requestedModels
         (trace (snd (Earlier.handleSummarization Sample.envThirdModel
                        (Sample.turn 1) (JS.lit "key") Sample.world)))
  /\ delays (trace (snd (handleSummarization Sample.envThirdModel (Sample.turn 1)
                           (JS.lit "key") Sample.world)))
     = delays (trace Sample.world).
Proof.
  apply (handleSummarization_extends_the_earlier_one Sample.envThirdModel
           (Sample.turn 1) (JS.lit "key") Sample.world).
  vm_compute. reflexivity.
Defined.

(** ** The record of an update *)

Section UpdateRecord.

Context (env : Env) (data : ExportData) (existing : ExportRecord).
Hypothesis Hmode : exportMode data = Some (JS.lit "update").
Hypothesis Hexisting : existingExportData data = Some existing.

(** A successful update: there were new turns, their toggles were appended
    and the run ended with the store of the record. *)
Lemma update_run_success w u w' :
  handleFullExport env data w = (Returned u, w') ->
  (turnCount existing < length (turns data))%nat
  /\ exists w3,
       exportHistory w3 = exportHistory w
       /\ w' = mkWorld (anthropicCalls w3) (notionCalls w3) None
                 (<[dataConversationUrl data
                    := recordOf env data (parentBlockId existing)]>
                    (exportHistory w3))
                 (trace w3
                  ++ [EvNotification (JS.lit "Update Complete")
                        (JS.lit "Successfully added "
                         ++ JS.decimal
                              (N.of_nat (length (turns data) - turnCount existing))
                         ++ JS.lit " new turns to Notion!")]).
Proof.
  destruct (Nat.le_gt_cases (length (turns data)) (turnCount existing))
    as [Hnone|Hnew].
  { rewrite (update_run_empty env data existing Hmode Hexisting w Hnone).
    discriminate. }
  intros Hrun. split; [exact Hnew|]. revert Hrun.
  set (new := drop (turnCount existing) (turns data)).
  assert (Hlen : length new = (length (turns data) - turnCount existing)%nat)
    by apply length_drop.
  pose proof (history_summarize_loop env (apiKey data) (turnCount existing)
                (length (turns data)) (length new) new 0 []
                (snd (updateProgress starting 0 (length new)
                        (JS.lit "Starting export...") w))) as Hkeep1.
  destruct (summarize_loop_total env (apiKey data) (turnCount existing)
              (length (turns data)) (length new) new 0 []
              (snd (updateProgress starting 0 (length new)
                      (JS.lit "Starting export...") w)))
    as [summaries [w2 [Hloop _]]].
  simpl app in Hloop. rewrite Hloop in Hkeep1. unfold keeps in Hkeep1.
  cbn [snd updateProgress exportHistory] in Hkeep1.
  unfold handleFullExport, handleFullExport_try.
  rewrite (updateOf_update data existing Hmode Hexisting).
  assert (Hup : isUpdate data = true)
    by (unfold isUpdate; rewrite Hmode; now apply bool_decide_eq_true_2).
  rewrite Hup. fold new.
  destruct (Nat.eqb_spec (length new) 0) as [Hzero|_]; [lia|].
  unfold try_catch.
  unfold bind at 1. cbn [ret fst snd].
  unfold bind at 1. cbn [updateProgress snd] in Hloop |- *.
  unfold bind at 1. rewrite Hloop.
  unfold bind at 1. cbn [updateProgress].
  unfold bind at 1. unfold bind at 1.
  match goal with
  | |- context [appendNotionToggles env summaries ?p ?tok ?l ?w3] =>
    pose proof (history_appendNotionToggles env summaries p tok l w3) as Hkeep2;
    destruct (appendNotionToggles env summaries p tok l w3) as [[v|[m|]|] w4]
  end; try discriminate.
  unfold keeps in Hkeep2. cbn [snd exportHistory] in Hkeep2.
  cbn. intros [= _ <-]. exists w4. rewrite <- Hlen.
  split; [congruence | reflexivity].
Qed.

End UpdateRecord.

(** X23. A successful update keeps the container: the record stored for
    the conversation names the parent block of the record that was
    updated and counts the whole transcript, so that the next update
    appends to the same container; the run had new turns, and its
    notification counts exactly them. *)
Theorem successful_update_keeps_the_container env data existing w u w' :
  exportMode data = Some (JS.lit "update") ->
  existingExportData data = Some existing ->
  handleFullExport env data w = (Returned u, w') ->
  (turnCount existing < length (turns data))%nat
  /\ exportHistory w'
     = <[dataConversationUrl data
         := mkExportRecord (dataConversationUrl data) (chatTitle data)
              (toISOString env) (length (turns data)) (pageId data)
              (parentBlockId existing)]> (exportHistory w)
  /\ last (trace w')
     = Some (EvNotification (JS.lit "Update Complete")
               (JS.lit "Successfully added "
                ++ JS.decimal (N.of_nat (length (turns data) - turnCount existing))
                ++ JS.lit " new turns to Notion!")).
Proof.
  intros Hmode Hexisting Hrun.
  destruct (update_run_success env data existing Hmode Hexisting w u w' Hrun)
    as [Hnew [w3 [Hhistory ->]]].
  split; [exact Hnew|]. cbn [exportHistory trace]. rewrite Hhistory.
  split; [reflexivity | apply last_snoc].
Qed.

Lemma successful_update_keeps_the_container_witness :
  let data := Sample.update 1 in
  let w' := snd (handleFullExport Sample.envUnavailable data Sample.world) in
  (turnCount (Sample.record 1) < length (turns data))%nat
  /\ exportHistory w'
     = <[dataConversationUrl data
         := mkExportRecord (dataConversationUrl data) (chatTitle data)
              (toISOString Sample.envUnavailable) (length (turns data))
              (pageId data) (parentBlockId (Sample.record 1))]>
         (exportHistory Sample.world)
  /\ last (trace w')
     = Some (EvNotification (JS.lit "Update Complete")
               (JS.lit "Successfully added "
                ++ JS.decimal (N.of_nat (length (turns data)
                                         - turnCount (Sample.record 1)))
                ++ JS.lit " new turns to Notion!")).
Proof.
  apply (successful_update_keeps_the_container Sample.envUnavailable
           (Sample.update 1) (Sample.record 1) Sample.world tt
           (snd (handleFullExport Sample.envUnavailable (Sample.update 1)
                   Sample.world)));
    [reflexivity | reflexivity | vm_compute; reflexivity].
Defined.

(** ** The title of a page *)

Section PageTitle.

Import Popup.

Lemma firstText_leads prop text :
  firstText prop = Some text -> text <> [] /\ leads prop text.
Proof.
  unfold firstText, leads.
  destruct (propTitle prop) as [[|item rest]|]; try discriminate.
  cbn. destruct (plain_text item) as [found|] eqn:Hitem; try discriminate.
  cbn. destruct (bool_decide_reflect (found = [])) as [|Hfound]; [discriminate|].
  intros [= <-]. split; [exact Hfound|]. exists item, rest. now split.
Qed.

Lemma member_found key page prop :
  member key page = Some prop ->
  exists props, properties page = Some props /\ In (key, prop) props.
Proof.
  unfold member. destruct (properties page) as [props|]; [|discriminate].
  cbn. destruct (List.find _ props) as [[k p]|] eqn:Hfind; [|discriminate].
  intros [= <-]. apply List.find_some in Hfind as [Hin Hkey].
  apply bool_decide_eq_true in Hkey. cbn in Hkey. subst k. eauto.
Qed.

Lemma anyTitle_found props text :
  anyTitle props = Some text ->
  text <> [] /\ exists key prop, In (key, prop) props /\ leads prop text.
Proof.
  induction props as [|[key prop] props IH]; cbn [anyTitle]; [discriminate|].
  destruct (bool_decide _).
  - destruct (firstText prop) as [found|] eqn:Hfirst.
    + intros [= <-]. apply firstText_leads in Hfirst as [Hne Hleads].
      split; [exact Hne|]. exists key, prop. split; [now left | exact Hleads].
    + intros H. destruct (IH H) as [Hne [k [p [Hin Hleads]]]].
      split; [exact Hne|]. exists k, p. split; [now right | exact Hleads].
  - intros H. destruct (IH H) as [Hne [k [p [Hin Hleads]]]].
    split; [exact Hne|]. exists k, p. split; [now right | exact Hleads].
Qed.

Lemma anyTitle_complete props key prop text :
  In (key, prop) props -> propType prop = Some (JS.lit "title") ->
  firstText prop = Some text -> is_Some (anyTitle props).
Proof.
  intros Hin Htype Hfirst. induction props as [|[k p] props IH]; [destruct Hin|].
  cbn [anyTitle]. destruct Hin as [[= -> ->]|Hin].
  - rewrite bool_decide_eq_true_2, Hfirst by exact Htype. eauto.
  - destruct (bool_decide _); [destruct (firstText p); eauto|]; auto.
Qed.

(** X24. The title that the popup shows for a page is never empty: it is
    "Untitled", or the plain text that leads the title of one of the
    properties of the page; and it is such a text whenever some property of
    type [title] has one. *)
Theorem getPageTitle_is_never_empty page :
  getPageTitle page <> []
  /\ (getPageTitle page = JS.lit "Untitled"
      \/ exists props key prop,
           properties page = Some props /\ In (key, prop) props
           /\ leads prop (getPageTitle page))
  /\ forall props key prop text,
       properties page = Some props -> In (key, prop) props ->
       propType prop = Some (JS.lit "title") ->
       Popup.plain_text <$> (propTitle prop ≫= head) = Some (Some text) ->
       text <> [] ->
       exists props' key' prop',
         properties page = Some props' /\ In (key', prop') props'
         /\ leads prop' (getPageTitle page).
Proof.
  assert (Hkeyed : forall key text,
            member key page ≫= firstText = Some text ->
            text <> []
            /\ exists props key prop,
                 properties page = Some props /\ In (key, prop) props
                 /\ leads prop text).
  { intros key text Hsome.
    destruct (member key page) as [prop|] eqn:Hmember; [|discriminate].
    cbn in Hsome. apply firstText_leads in Hsome as [Hne Hleads].
    apply member_found in Hmember as [props [Hprops Hin]].
    split; [exact Hne|]. eauto 6. }
  assert (Hany : forall text,
            anyTitle (default [] (properties page)) = Some text ->
            text <> []
            /\ exists props key prop,
                 properties page = Some props /\ In (key, prop) props
                 /\ leads prop text).
  { intros text Hsome. apply anyTitle_found in Hsome as [Hne [key [prop [Hin Hl]]]].
    split; [exact Hne|].
    destruct (properties page) as [props|]; [|destruct Hin]. eauto 6. }
  unfold getPageTitle.
  destruct (member (JS.lit "title") page ≫= firstText) as [t1|] eqn:H1.
  { destruct (Hkeyed _ _ H1) as [Hne Hfound]. auto. }
  destruct (member (JS.lit "Name") page ≫= firstText) as [t2|] eqn:H2.
  { destruct (Hkeyed _ _ H2) as [Hne Hfound]. auto. }
  destruct (anyTitle (default [] (properties page))) as [t3|] eqn:H3.
  { destruct (Hany _ eq_refl) as [Hne Hfound]. auto. }
  split; [discriminate|]. split; [now left|].
  intros props key prop text Hprops Hin Htype Htext Hne. exfalso.
  rewrite Hprops in H3. cbn in H3.
  assert (Hfirst : firstText prop = Some text).
  { unfold firstText. destruct (propTitle prop) as [[|item rest]|];
      try discriminate. cbn in Htext |- *. injection Htext as ->. cbn.
    now rewrite bool_decide_eq_false_2. }
  destruct (anyTitle_complete props key prop text Hin Htype Hfirst) as [x Hx].
  congruence.
Qed.

End PageTitle.

Lemma getPageTitle_is_never_empty_witness :
  exists props key prop,
    Popup.properties Scenario.page = Some props /\ In (key, prop) props
    /\ leads prop (Popup.getPageTitle Scenario.page).
Proof.
  apply (proj2 (proj2 (getPageTitle_is_never_empty Scenario.page))
           [ (JS.lit "Status", Popup.mkProperty (Some (JS.lit "select")) None);
             (JS.lit "Topic",
              Popup.mkProperty (Some (JS.lit "title"))
                (Some [Popup.mkTitleItem (Some (JS.lit "Notes"))])) ]
           (JS.lit "Topic")
           (Popup.mkProperty (Some (JS.lit "title"))
              (Some [Popup.mkTitleItem (Some (JS.lit "Notes"))]))
           (JS.lit "Notes"));
    [reflexivity | right; left; reflexivity | reflexivity | reflexivity
    | discriminate].
Defined.
